(** * Luxeloom chatbot: the intent resolver of [chatbot_backend.py]

    A shallow embedding of the class [LuxeloomChatbot] (text normaliser,
    product matcher, intent classifier, interaction log), of the parts of
    Python's [str], [re] and [difflib] it calls, and of the routes
    [/api/chat] and [/api/products], followed by the properties proved
    about them.

    Conventions of the embedding.

    - A Python [str] is the list of its code points, which are numbers of
      type [N].  The string literals of the source are written as they
      are there: a literal between double quotes denotes the list of the
      code points that its UTF-8 text encodes.
    - [str.lower], [str.strip] and the classes [\w] and [\s] of a [str]
      pattern follow CPython, with the properties of the code points
      taken from the Unicode database of CPython 3.11 (module [Unicode]).
    - Python integers used as indices and lengths are [nat]; the integer
      [max_history], which is negated in a slice, is a [Z].
    - The similarity scores of [difflib] are doubles [2.0 * m / t] with
      [m <= t] small naturals.  They are modelled as the rationals [2m/t]:
      division is correctly rounded, so equal rationals give equal doubles,
      and two different scores, or a score and the cutoff 0.4, with
      denominators below 2^25 differ by more than a rounding error, so
      every comparison the code makes on doubles has the outcome of the
      same comparison on the rationals.
    - [random.choice] takes the index it draws as an explicit argument. *)

From Stdlib Require Import QArith Lia.
From stdpp Require Import gmap gmultiset pretty list sorting.

(** ** Strings *)

(** A Python [str]. *)
Abbreviation str := (list N).

(** The reading of string literals: the UTF-8 text between the quotes is
    decoded to code points, and code points are printed as UTF-8. *)
Module Literal.

Inductive t := Nil | Cons (c : N) (l : t).

Definition code (b : Byte.byte) : N := Byte.to_N b.

(** The code point that starts with the byte [b0], from the bytes that
    continue it. *)
Fixpoint decode (fuel : nat) (bytes : list Byte.byte) : t :=
  match fuel, bytes with
  | S fuel, b0 :: bytes =>
      let continue (n : N) (b : Byte.byte) : N := (n * 64 + (code b - 128))%N in
      if (code b0 <? 128)%N then Cons (code b0) (decode fuel bytes)
      else if (code b0 <? 224)%N then
        match bytes with
        | b1 :: bytes => Cons (continue (code b0 - 192)%N b1) (decode fuel bytes)
        | _ => Nil
        end
      else if (code b0 <? 240)%N then
        match bytes with
        | b1 :: b2 :: bytes =>
            Cons (continue (continue (code b0 - 224)%N b1) b2) (decode fuel bytes)
        | _ => Nil
        end
      else
        match bytes with
        | b1 :: b2 :: b3 :: bytes =>
            Cons (continue (continue (continue (code b0 - 240)%N b1) b2) b3)
                 (decode fuel bytes)
        | _ => Nil
        end
  | _, _ => Nil
  end.

Definition parse (bytes : list Byte.byte) : t := decode (length bytes) bytes.

Definition byte (n : N) : Byte.byte := default Byte.x00 (Byte.of_N n).

Definition encode (c : N) : list Byte.byte :=
  (if c <? 128 then [byte c]
   else if c <? 2048 then [byte (192 + c / 64); byte (128 + c mod 64)]
   else if c <? 65536 then
     [byte (224 + c / 4096); byte (128 + (c / 64) mod 64); byte (128 + c mod 64)]
   else
     [byte (240 + c / 262144); byte (128 + (c / 4096) mod 64);
      byte (128 + (c / 64) mod 64); byte (128 + c mod 64)])%N.

Fixpoint print (s : t) : list Byte.byte :=
  match s with
  | Nil => []
  | Cons c l => encode c ++ print l
  end.

Fixpoint to_str (s : t) : str :=
  match s with
  | Nil => []
  | Cons c l => c :: to_str l
  end.

End Literal.

Declare Scope str_scope.
Delimit Scope str_scope with str.
#[warnings="-via-type-remapping,-via-type-mismatch"] String Notation list Literal.parse Literal.print (via Literal.t mapping [[nil] => Literal.Nil, [cons] => Literal.Cons]) : str_scope.
Open Scope str_scope.

(** ** The Unicode database

    The properties of code points that [str.lower], [str.strip] and the
    classes [\w] and [\s] of [re] read from CPython's Unicode database,
    here that of Unicode 14.0.0, the version of CPython 3.11.  A set of code
    points is the list of its maximal ranges [(first, last)], in
    increasing order. *)

Module Unicode.

Fixpoint in_ranges (c : N) (ranges : list (N * N)) : bool :=
  match ranges with
  | [] => false
  | (first, last) :: ranges' =>
      if (c <? first)%N then false
      else if (c <=? last)%N then true
      else in_ranges c ranges'
  end.

(** [_PyUnicode_IsWhitespace]: bidirectional type WS, B or S, or
    category Zs. *)
Definition whitespace : list (N * N) :=
  [
    (0x9, 0xD); (0x1C, 0x20); (0x85, 0x85); (0xA0, 0xA0); (0x1680, 0x1680);
    (0x2000, 0x200A); (0x2028, 0x2029); (0x202F, 0x202F); (0x205F, 0x205F);
    (0x3000, 0x3000) ]%N.

(** [Py_UNICODE_ISALNUM]: alphabetic, decimal, digit or numeric. *)
Definition alnum : list (N * N) :=
  [
    (0x30, 0x39); (0x41, 0x5A); (0x61, 0x7A); (0xAA, 0xAA); (0xB2, 0xB3); (0xB5, 0xB5);
    (0xB9, 0xBA); (0xBC, 0xBE); (0xC0, 0xD6); (0xD8, 0xF6); (0xF8, 0x2C1); (0x2C6, 0x2D1);
    (0x2E0, 0x2E4); (0x2EC, 0x2EC); (0x2EE, 0x2EE); (0x370, 0x374); (0x376, 0x377);
    (0x37A, 0x37D); (0x37F, 0x37F); (0x386, 0x386); (0x388, 0x38A); (0x38C, 0x38C);
    (0x38E, 0x3A1); (0x3A3, 0x3F5); (0x3F7, 0x481); (0x48A, 0x52F); (0x531, 0x556);
    (0x559, 0x559); (0x560, 0x588); (0x5D0, 0x5EA); (0x5EF, 0x5F2); (0x620, 0x64A);
    (0x660, 0x669); (0x66E, 0x66F); (0x671, 0x6D3); (0x6D5, 0x6D5); (0x6E5, 0x6E6);
    (0x6EE, 0x6FC); (0x6FF, 0x6FF); (0x710, 0x710); (0x712, 0x72F); (0x74D, 0x7A5);
    (0x7B1, 0x7B1); (0x7C0, 0x7EA); (0x7F4, 0x7F5); (0x7FA, 0x7FA); (0x800, 0x815);
    (0x81A, 0x81A); (0x824, 0x824); (0x828, 0x828); (0x840, 0x858); (0x860, 0x86A);
    (0x870, 0x887); (0x889, 0x88E); (0x8A0, 0x8C9); (0x904, 0x939); (0x93D, 0x93D);
    (0x950, 0x950); (0x958, 0x961); (0x966, 0x96F); (0x971, 0x980); (0x985, 0x98C);
    (0x98F, 0x990); (0x993, 0x9A8); (0x9AA, 0x9B0); (0x9B2, 0x9B2); (0x9B6, 0x9B9);
    (0x9BD, 0x9BD); (0x9CE, 0x9CE); (0x9DC, 0x9DD); (0x9DF, 0x9E1); (0x9E6, 0x9F1);
    (0x9F4, 0x9F9); (0x9FC, 0x9FC); (0xA05, 0xA0A); (0xA0F, 0xA10); (0xA13, 0xA28);
    (0xA2A, 0xA30); (0xA32, 0xA33); (0xA35, 0xA36); (0xA38, 0xA39); (0xA59, 0xA5C);
    (0xA5E, 0xA5E); (0xA66, 0xA6F); (0xA72, 0xA74); (0xA85, 0xA8D); (0xA8F, 0xA91);
    (0xA93, 0xAA8); (0xAAA, 0xAB0); (0xAB2, 0xAB3); (0xAB5, 0xAB9); (0xABD, 0xABD);
    (0xAD0, 0xAD0); (0xAE0, 0xAE1); (0xAE6, 0xAEF); (0xAF9, 0xAF9); (0xB05, 0xB0C);
    (0xB0F, 0xB10); (0xB13, 0xB28); (0xB2A, 0xB30); (0xB32, 0xB33); (0xB35, 0xB39);
    (0xB3D, 0xB3D); (0xB5C, 0xB5D); (0xB5F, 0xB61); (0xB66, 0xB6F); (0xB71, 0xB77);
    (0xB83, 0xB83); (0xB85, 0xB8A); (0xB8E, 0xB90); (0xB92, 0xB95); (0xB99, 0xB9A);
    (0xB9C, 0xB9C); (0xB9E, 0xB9F); (0xBA3, 0xBA4); (0xBA8, 0xBAA); (0xBAE, 0xBB9);
    (0xBD0, 0xBD0); (0xBE6, 0xBF2); (0xC05, 0xC0C); (0xC0E, 0xC10); (0xC12, 0xC28);
    (0xC2A, 0xC39); (0xC3D, 0xC3D); (0xC58, 0xC5A); (0xC5D, 0xC5D); (0xC60, 0xC61);
    (0xC66, 0xC6F); (0xC78, 0xC7E); (0xC80, 0xC80); (0xC85, 0xC8C); (0xC8E, 0xC90);
    (0xC92, 0xCA8); (0xCAA, 0xCB3); (0xCB5, 0xCB9); (0xCBD, 0xCBD); (0xCDD, 0xCDE);
    (0xCE0, 0xCE1); (0xCE6, 0xCEF); (0xCF1, 0xCF2); (0xD04, 0xD0C); (0xD0E, 0xD10);
    (0xD12, 0xD3A); (0xD3D, 0xD3D); (0xD4E, 0xD4E); (0xD54, 0xD56); (0xD58, 0xD61);
    (0xD66, 0xD78); (0xD7A, 0xD7F); (0xD85, 0xD96); (0xD9A, 0xDB1); (0xDB3, 0xDBB);
    (0xDBD, 0xDBD); (0xDC0, 0xDC6); (0xDE6, 0xDEF); (0xE01, 0xE30); (0xE32, 0xE33);
    (0xE40, 0xE46); (0xE50, 0xE59); (0xE81, 0xE82); (0xE84, 0xE84); (0xE86, 0xE8A);
    (0xE8C, 0xEA3); (0xEA5, 0xEA5); (0xEA7, 0xEB0); (0xEB2, 0xEB3); (0xEBD, 0xEBD);
    (0xEC0, 0xEC4); (0xEC6, 0xEC6); (0xED0, 0xED9); (0xEDC, 0xEDF); (0xF00, 0xF00);
    (0xF20, 0xF33); (0xF40, 0xF47); (0xF49, 0xF6C); (0xF88, 0xF8C); (0x1000, 0x102A);
    (0x103F, 0x1049); (0x1050, 0x1055); (0x105A, 0x105D); (0x1061, 0x1061);
    (0x1065, 0x1066); (0x106E, 0x1070); (0x1075, 0x1081); (0x108E, 0x108E);
    (0x1090, 0x1099); (0x10A0, 0x10C5); (0x10C7, 0x10C7); (0x10CD, 0x10CD);
    (0x10D0, 0x10FA); (0x10FC, 0x1248); (0x124A, 0x124D); (0x1250, 0x1256);
    (0x1258, 0x1258); (0x125A, 0x125D); (0x1260, 0x1288); (0x128A, 0x128D);
    (0x1290, 0x12B0); (0x12B2, 0x12B5); (0x12B8, 0x12BE); (0x12C0, 0x12C0);
    (0x12C2, 0x12C5); (0x12C8, 0x12D6); (0x12D8, 0x1310); (0x1312, 0x1315);
    (0x1318, 0x135A); (0x1369, 0x137C); (0x1380, 0x138F); (0x13A0, 0x13F5);
    (0x13F8, 0x13FD); (0x1401, 0x166C); (0x166F, 0x167F); (0x1681, 0x169A);
    (0x16A0, 0x16EA); (0x16EE, 0x16F8); (0x1700, 0x1711); (0x171F, 0x1731);
    (0x1740, 0x1751); (0x1760, 0x176C); (0x176E, 0x1770); (0x1780, 0x17B3);
    (0x17D7, 0x17D7); (0x17DC, 0x17DC); (0x17E0, 0x17E9); (0x17F0, 0x17F9);
    (0x1810, 0x1819); (0x1820, 0x1878); (0x1880, 0x1884); (0x1887, 0x18A8);
    (0x18AA, 0x18AA); (0x18B0, 0x18F5); (0x1900, 0x191E); (0x1946, 0x196D);
    (0x1970, 0x1974); (0x1980, 0x19AB); (0x19B0, 0x19C9); (0x19D0, 0x19DA);
    (0x1A00, 0x1A16); (0x1A20, 0x1A54); (0x1A80, 0x1A89); (0x1A90, 0x1A99);
    (0x1AA7, 0x1AA7); (0x1B05, 0x1B33); (0x1B45, 0x1B4C); (0x1B50, 0x1B59);
    (0x1B83, 0x1BA0); (0x1BAE, 0x1BE5); (0x1C00, 0x1C23); (0x1C40, 0x1C49);
    (0x1C4D, 0x1C7D); (0x1C80, 0x1C88); (0x1C90, 0x1CBA); (0x1CBD, 0x1CBF);
    (0x1CE9, 0x1CEC); (0x1CEE, 0x1CF3); (0x1CF5, 0x1CF6); (0x1CFA, 0x1CFA);
    (0x1D00, 0x1DBF); (0x1E00, 0x1F15); (0x1F18, 0x1F1D); (0x1F20, 0x1F45);
    (0x1F48, 0x1F4D); (0x1F50, 0x1F57); (0x1F59, 0x1F59); (0x1F5B, 0x1F5B);
    (0x1F5D, 0x1F5D); (0x1F5F, 0x1F7D); (0x1F80, 0x1FB4); (0x1FB6, 0x1FBC);
    (0x1FBE, 0x1FBE); (0x1FC2, 0x1FC4); (0x1FC6, 0x1FCC); (0x1FD0, 0x1FD3);
    (0x1FD6, 0x1FDB); (0x1FE0, 0x1FEC); (0x1FF2, 0x1FF4); (0x1FF6, 0x1FFC);
    (0x2070, 0x2071); (0x2074, 0x2079); (0x207F, 0x2089); (0x2090, 0x209C);
    (0x2102, 0x2102); (0x2107, 0x2107); (0x210A, 0x2113); (0x2115, 0x2115);
    (0x2119, 0x211D); (0x2124, 0x2124); (0x2126, 0x2126); (0x2128, 0x2128);
    (0x212A, 0x212D); (0x212F, 0x2139); (0x213C, 0x213F); (0x2145, 0x2149);
    (0x214E, 0x214E); (0x2150, 0x2189); (0x2460, 0x249B); (0x24EA, 0x24FF);
    (0x2776, 0x2793); (0x2C00, 0x2CE4); (0x2CEB, 0x2CEE); (0x2CF2, 0x2CF3);
    (0x2CFD, 0x2CFD); (0x2D00, 0x2D25); (0x2D27, 0x2D27); (0x2D2D, 0x2D2D);
    (0x2D30, 0x2D67); (0x2D6F, 0x2D6F); (0x2D80, 0x2D96); (0x2DA0, 0x2DA6);
    (0x2DA8, 0x2DAE); (0x2DB0, 0x2DB6); (0x2DB8, 0x2DBE); (0x2DC0, 0x2DC6);
    (0x2DC8, 0x2DCE); (0x2DD0, 0x2DD6); (0x2DD8, 0x2DDE); (0x2E2F, 0x2E2F);
    (0x3005, 0x3007); (0x3021, 0x3029); (0x3031, 0x3035); (0x3038, 0x303C);
    (0x3041, 0x3096); (0x309D, 0x309F); (0x30A1, 0x30FA); (0x30FC, 0x30FF);
    (0x3105, 0x312F); (0x3131, 0x318E); (0x3192, 0x3195); (0x31A0, 0x31BF);
    (0x31F0, 0x31FF); (0x3220, 0x3229); (0x3248, 0x324F); (0x3251, 0x325F);
    (0x3280, 0x3289); (0x32B1, 0x32BF); (0x3400, 0x4DBF); (0x4E00, 0xA48C);
    (0xA4D0, 0xA4FD); (0xA500, 0xA60C); (0xA610, 0xA62B); (0xA640, 0xA66E);
    (0xA67F, 0xA69D); (0xA6A0, 0xA6EF); (0xA717, 0xA71F); (0xA722, 0xA788);
    (0xA78B, 0xA7CA); (0xA7D0, 0xA7D1); (0xA7D3, 0xA7D3); (0xA7D5, 0xA7D9);
    (0xA7F2, 0xA801); (0xA803, 0xA805); (0xA807, 0xA80A); (0xA80C, 0xA822);
    (0xA830, 0xA835); (0xA840, 0xA873); (0xA882, 0xA8B3); (0xA8D0, 0xA8D9);
    (0xA8F2, 0xA8F7); (0xA8FB, 0xA8FB); (0xA8FD, 0xA8FE); (0xA900, 0xA925);
    (0xA930, 0xA946); (0xA960, 0xA97C); (0xA984, 0xA9B2); (0xA9CF, 0xA9D9);
    (0xA9E0, 0xA9E4); (0xA9E6, 0xA9FE); (0xAA00, 0xAA28); (0xAA40, 0xAA42);
    (0xAA44, 0xAA4B); (0xAA50, 0xAA59); (0xAA60, 0xAA76); (0xAA7A, 0xAA7A);
    (0xAA7E, 0xAAAF); (0xAAB1, 0xAAB1); (0xAAB5, 0xAAB6); (0xAAB9, 0xAABD);
    (0xAAC0, 0xAAC0); (0xAAC2, 0xAAC2); (0xAADB, 0xAADD); (0xAAE0, 0xAAEA);
    (0xAAF2, 0xAAF4); (0xAB01, 0xAB06); (0xAB09, 0xAB0E); (0xAB11, 0xAB16);
    (0xAB20, 0xAB26); (0xAB28, 0xAB2E); (0xAB30, 0xAB5A); (0xAB5C, 0xAB69);
    (0xAB70, 0xABE2); (0xABF0, 0xABF9); (0xAC00, 0xD7A3); (0xD7B0, 0xD7C6);
    (0xD7CB, 0xD7FB); (0xF900, 0xFA6D); (0xFA70, 0xFAD9); (0xFB00, 0xFB06);
    (0xFB13, 0xFB17); (0xFB1D, 0xFB1D); (0xFB1F, 0xFB28); (0xFB2A, 0xFB36);
    (0xFB38, 0xFB3C); (0xFB3E, 0xFB3E); (0xFB40, 0xFB41); (0xFB43, 0xFB44);
    (0xFB46, 0xFBB1); (0xFBD3, 0xFD3D); (0xFD50, 0xFD8F); (0xFD92, 0xFDC7);
    (0xFDF0, 0xFDFB); (0xFE70, 0xFE74); (0xFE76, 0xFEFC); (0xFF10, 0xFF19);
    (0xFF21, 0xFF3A); (0xFF41, 0xFF5A); (0xFF66, 0xFFBE); (0xFFC2, 0xFFC7);
    (0xFFCA, 0xFFCF); (0xFFD2, 0xFFD7); (0xFFDA, 0xFFDC); (0x10000, 0x1000B);
    (0x1000D, 0x10026); (0x10028, 0x1003A); (0x1003C, 0x1003D); (0x1003F, 0x1004D);
    (0x10050, 0x1005D); (0x10080, 0x100FA); (0x10107, 0x10133); (0x10140, 0x10178);
    (0x1018A, 0x1018B); (0x10280, 0x1029C); (0x102A0, 0x102D0); (0x102E1, 0x102FB);
    (0x10300, 0x10323); (0x1032D, 0x1034A); (0x10350, 0x10375); (0x10380, 0x1039D);
    (0x103A0, 0x103C3); (0x103C8, 0x103CF); (0x103D1, 0x103D5); (0x10400, 0x1049D);
    (0x104A0, 0x104A9); (0x104B0, 0x104D3); (0x104D8, 0x104FB); (0x10500, 0x10527);
    (0x10530, 0x10563); (0x10570, 0x1057A); (0x1057C, 0x1058A); (0x1058C, 0x10592);
    (0x10594, 0x10595); (0x10597, 0x105A1); (0x105A3, 0x105B1); (0x105B3, 0x105B9);
    (0x105BB, 0x105BC); (0x10600, 0x10736); (0x10740, 0x10755); (0x10760, 0x10767);
    (0x10780, 0x10785); (0x10787, 0x107B0); (0x107B2, 0x107BA); (0x10800, 0x10805);
    (0x10808, 0x10808); (0x1080A, 0x10835); (0x10837, 0x10838); (0x1083C, 0x1083C);
    (0x1083F, 0x10855); (0x10858, 0x10876); (0x10879, 0x1089E); (0x108A7, 0x108AF);
    (0x108E0, 0x108F2); (0x108F4, 0x108F5); (0x108FB, 0x1091B); (0x10920, 0x10939);
    (0x10980, 0x109B7); (0x109BC, 0x109CF); (0x109D2, 0x10A00); (0x10A10, 0x10A13);
    (0x10A15, 0x10A17); (0x10A19, 0x10A35); (0x10A40, 0x10A48); (0x10A60, 0x10A7E);
    (0x10A80, 0x10A9F); (0x10AC0, 0x10AC7); (0x10AC9, 0x10AE4); (0x10AEB, 0x10AEF);
    (0x10B00, 0x10B35); (0x10B40, 0x10B55); (0x10B58, 0x10B72); (0x10B78, 0x10B91);
    (0x10BA9, 0x10BAF); (0x10C00, 0x10C48); (0x10C80, 0x10CB2); (0x10CC0, 0x10CF2);
    (0x10CFA, 0x10D23); (0x10D30, 0x10D39); (0x10E60, 0x10E7E); (0x10E80, 0x10EA9);
    (0x10EB0, 0x10EB1); (0x10F00, 0x10F27); (0x10F30, 0x10F45); (0x10F51, 0x10F54);
    (0x10F70, 0x10F81); (0x10FB0, 0x10FCB); (0x10FE0, 0x10FF6); (0x11003, 0x11037);
    (0x11052, 0x1106F); (0x11071, 0x11072); (0x11075, 0x11075); (0x11083, 0x110AF);
    (0x110D0, 0x110E8); (0x110F0, 0x110F9); (0x11103, 0x11126); (0x11136, 0x1113F);
    (0x11144, 0x11144); (0x11147, 0x11147); (0x11150, 0x11172); (0x11176, 0x11176);
    (0x11183, 0x111B2); (0x111C1, 0x111C4); (0x111D0, 0x111DA); (0x111DC, 0x111DC);
    (0x111E1, 0x111F4); (0x11200, 0x11211); (0x11213, 0x1122B); (0x11280, 0x11286);
    (0x11288, 0x11288); (0x1128A, 0x1128D); (0x1128F, 0x1129D); (0x1129F, 0x112A8);
    (0x112B0, 0x112DE); (0x112F0, 0x112F9); (0x11305, 0x1130C); (0x1130F, 0x11310);
    (0x11313, 0x11328); (0x1132A, 0x11330); (0x11332, 0x11333); (0x11335, 0x11339);
    (0x1133D, 0x1133D); (0x11350, 0x11350); (0x1135D, 0x11361); (0x11400, 0x11434);
    (0x11447, 0x1144A); (0x11450, 0x11459); (0x1145F, 0x11461); (0x11480, 0x114AF);
    (0x114C4, 0x114C5); (0x114C7, 0x114C7); (0x114D0, 0x114D9); (0x11580, 0x115AE);
    (0x115D8, 0x115DB); (0x11600, 0x1162F); (0x11644, 0x11644); (0x11650, 0x11659);
    (0x11680, 0x116AA); (0x116B8, 0x116B8); (0x116C0, 0x116C9); (0x11700, 0x1171A);
    (0x11730, 0x1173B); (0x11740, 0x11746); (0x11800, 0x1182B); (0x118A0, 0x118F2);
    (0x118FF, 0x11906); (0x11909, 0x11909); (0x1190C, 0x11913); (0x11915, 0x11916);
    (0x11918, 0x1192F); (0x1193F, 0x1193F); (0x11941, 0x11941); (0x11950, 0x11959);
    (0x119A0, 0x119A7); (0x119AA, 0x119D0); (0x119E1, 0x119E1); (0x119E3, 0x119E3);
    (0x11A00, 0x11A00); (0x11A0B, 0x11A32); (0x11A3A, 0x11A3A); (0x11A50, 0x11A50);
    (0x11A5C, 0x11A89); (0x11A9D, 0x11A9D); (0x11AB0, 0x11AF8); (0x11C00, 0x11C08);
    (0x11C0A, 0x11C2E); (0x11C40, 0x11C40); (0x11C50, 0x11C6C); (0x11C72, 0x11C8F);
    (0x11D00, 0x11D06); (0x11D08, 0x11D09); (0x11D0B, 0x11D30); (0x11D46, 0x11D46);
    (0x11D50, 0x11D59); (0x11D60, 0x11D65); (0x11D67, 0x11D68); (0x11D6A, 0x11D89);
    (0x11D98, 0x11D98); (0x11DA0, 0x11DA9); (0x11EE0, 0x11EF2); (0x11FB0, 0x11FB0);
    (0x11FC0, 0x11FD4); (0x12000, 0x12399); (0x12400, 0x1246E); (0x12480, 0x12543);
    (0x12F90, 0x12FF0); (0x13000, 0x1342E); (0x14400, 0x14646); (0x16800, 0x16A38);
    (0x16A40, 0x16A5E); (0x16A60, 0x16A69); (0x16A70, 0x16ABE); (0x16AC0, 0x16AC9);
    (0x16AD0, 0x16AED); (0x16B00, 0x16B2F); (0x16B40, 0x16B43); (0x16B50, 0x16B59);
    (0x16B5B, 0x16B61); (0x16B63, 0x16B77); (0x16B7D, 0x16B8F); (0x16E40, 0x16E96);
    (0x16F00, 0x16F4A); (0x16F50, 0x16F50); (0x16F93, 0x16F9F); (0x16FE0, 0x16FE1);
    (0x16FE3, 0x16FE3); (0x17000, 0x187F7); (0x18800, 0x18CD5); (0x18D00, 0x18D08);
    (0x1AFF0, 0x1AFF3); (0x1AFF5, 0x1AFFB); (0x1AFFD, 0x1AFFE); (0x1B000, 0x1B122);
    (0x1B150, 0x1B152); (0x1B164, 0x1B167); (0x1B170, 0x1B2FB); (0x1BC00, 0x1BC6A);
    (0x1BC70, 0x1BC7C); (0x1BC80, 0x1BC88); (0x1BC90, 0x1BC99); (0x1D2E0, 0x1D2F3);
    (0x1D360, 0x1D378); (0x1D400, 0x1D454); (0x1D456, 0x1D49C); (0x1D49E, 0x1D49F);
    (0x1D4A2, 0x1D4A2); (0x1D4A5, 0x1D4A6); (0x1D4A9, 0x1D4AC); (0x1D4AE, 0x1D4B9);
    (0x1D4BB, 0x1D4BB); (0x1D4BD, 0x1D4C3); (0x1D4C5, 0x1D505); (0x1D507, 0x1D50A);
    (0x1D50D, 0x1D514); (0x1D516, 0x1D51C); (0x1D51E, 0x1D539); (0x1D53B, 0x1D53E);
    (0x1D540, 0x1D544); (0x1D546, 0x1D546); (0x1D54A, 0x1D550); (0x1D552, 0x1D6A5);
    (0x1D6A8, 0x1D6C0); (0x1D6C2, 0x1D6DA); (0x1D6DC, 0x1D6FA); (0x1D6FC, 0x1D714);
    (0x1D716, 0x1D734); (0x1D736, 0x1D74E); (0x1D750, 0x1D76E); (0x1D770, 0x1D788);
    (0x1D78A, 0x1D7A8); (0x1D7AA, 0x1D7C2); (0x1D7C4, 0x1D7CB); (0x1D7CE, 0x1D7FF);
    (0x1DF00, 0x1DF1E); (0x1E100, 0x1E12C); (0x1E137, 0x1E13D); (0x1E140, 0x1E149);
    (0x1E14E, 0x1E14E); (0x1E290, 0x1E2AD); (0x1E2C0, 0x1E2EB); (0x1E2F0, 0x1E2F9);
    (0x1E7E0, 0x1E7E6); (0x1E7E8, 0x1E7EB); (0x1E7ED, 0x1E7EE); (0x1E7F0, 0x1E7FE);
    (0x1E800, 0x1E8C4); (0x1E8C7, 0x1E8CF); (0x1E900, 0x1E943); (0x1E94B, 0x1E94B);
    (0x1E950, 0x1E959); (0x1EC71, 0x1ECAB); (0x1ECAD, 0x1ECAF); (0x1ECB1, 0x1ECB4);
    (0x1ED01, 0x1ED2D); (0x1ED2F, 0x1ED3D); (0x1EE00, 0x1EE03); (0x1EE05, 0x1EE1F);
    (0x1EE21, 0x1EE22); (0x1EE24, 0x1EE24); (0x1EE27, 0x1EE27); (0x1EE29, 0x1EE32);
    (0x1EE34, 0x1EE37); (0x1EE39, 0x1EE39); (0x1EE3B, 0x1EE3B); (0x1EE42, 0x1EE42);
    (0x1EE47, 0x1EE47); (0x1EE49, 0x1EE49); (0x1EE4B, 0x1EE4B); (0x1EE4D, 0x1EE4F);
    (0x1EE51, 0x1EE52); (0x1EE54, 0x1EE54); (0x1EE57, 0x1EE57); (0x1EE59, 0x1EE59);
    (0x1EE5B, 0x1EE5B); (0x1EE5D, 0x1EE5D); (0x1EE5F, 0x1EE5F); (0x1EE61, 0x1EE62);
    (0x1EE64, 0x1EE64); (0x1EE67, 0x1EE6A); (0x1EE6C, 0x1EE72); (0x1EE74, 0x1EE77);
    (0x1EE79, 0x1EE7C); (0x1EE7E, 0x1EE7E); (0x1EE80, 0x1EE89); (0x1EE8B, 0x1EE9B);
    (0x1EEA1, 0x1EEA3); (0x1EEA5, 0x1EEA9); (0x1EEAB, 0x1EEBB); (0x1F100, 0x1F10C);
    (0x1FBF0, 0x1FBF9); (0x20000, 0x2A6DF); (0x2A700, 0x2B738); (0x2B740, 0x2B81D);
    (0x2B820, 0x2CEA1); (0x2CEB0, 0x2EBE0); (0x2F800, 0x2FA1D); (0x30000, 0x3134A) ]%N.

(** [_PyUnicode_IsCased]: the property Cased. *)
Definition cased : list (N * N) :=
  [
    (0x41, 0x5A); (0x61, 0x7A); (0xAA, 0xAA); (0xB5, 0xB5); (0xBA, 0xBA); (0xC0, 0xD6);
    (0xD8, 0xF6); (0xF8, 0x1BA); (0x1BC, 0x1BF); (0x1C4, 0x293); (0x295, 0x2B8);
    (0x2C0, 0x2C1); (0x2E0, 0x2E4); (0x345, 0x345); (0x370, 0x373); (0x376, 0x377);
    (0x37A, 0x37D); (0x37F, 0x37F); (0x386, 0x386); (0x388, 0x38A); (0x38C, 0x38C);
    (0x38E, 0x3A1); (0x3A3, 0x3F5); (0x3F7, 0x481); (0x48A, 0x52F); (0x531, 0x556);
    (0x560, 0x588); (0x10A0, 0x10C5); (0x10C7, 0x10C7); (0x10CD, 0x10CD);
    (0x10D0, 0x10FA); (0x10FD, 0x10FF); (0x13A0, 0x13F5); (0x13F8, 0x13FD);
    (0x1C80, 0x1C88); (0x1C90, 0x1CBA); (0x1CBD, 0x1CBF); (0x1D00, 0x1DBF);
    (0x1E00, 0x1F15); (0x1F18, 0x1F1D); (0x1F20, 0x1F45); (0x1F48, 0x1F4D);
    (0x1F50, 0x1F57); (0x1F59, 0x1F59); (0x1F5B, 0x1F5B); (0x1F5D, 0x1F5D);
    (0x1F5F, 0x1F7D); (0x1F80, 0x1FB4); (0x1FB6, 0x1FBC); (0x1FBE, 0x1FBE);
    (0x1FC2, 0x1FC4); (0x1FC6, 0x1FCC); (0x1FD0, 0x1FD3); (0x1FD6, 0x1FDB);
    (0x1FE0, 0x1FEC); (0x1FF2, 0x1FF4); (0x1FF6, 0x1FFC); (0x2071, 0x2071);
    (0x207F, 0x207F); (0x2090, 0x209C); (0x2102, 0x2102); (0x2107, 0x2107);
    (0x210A, 0x2113); (0x2115, 0x2115); (0x2119, 0x211D); (0x2124, 0x2124);
    (0x2126, 0x2126); (0x2128, 0x2128); (0x212A, 0x212D); (0x212F, 0x2134);
    (0x2139, 0x2139); (0x213C, 0x213F); (0x2145, 0x2149); (0x214E, 0x214E);
    (0x2160, 0x217F); (0x2183, 0x2184); (0x24B6, 0x24E9); (0x2C00, 0x2CE4);
    (0x2CEB, 0x2CEE); (0x2CF2, 0x2CF3); (0x2D00, 0x2D25); (0x2D27, 0x2D27);
    (0x2D2D, 0x2D2D); (0xA640, 0xA66D); (0xA680, 0xA69D); (0xA722, 0xA787);
    (0xA78B, 0xA78E); (0xA790, 0xA7CA); (0xA7D0, 0xA7D1); (0xA7D3, 0xA7D3);
    (0xA7D5, 0xA7D9); (0xA7F5, 0xA7F6); (0xA7F8, 0xA7FA); (0xAB30, 0xAB5A);
    (0xAB5C, 0xAB68); (0xAB70, 0xABBF); (0xFB00, 0xFB06); (0xFB13, 0xFB17);
    (0xFF21, 0xFF3A); (0xFF41, 0xFF5A); (0x10400, 0x1044F); (0x104B0, 0x104D3);
    (0x104D8, 0x104FB); (0x10570, 0x1057A); (0x1057C, 0x1058A); (0x1058C, 0x10592);
    (0x10594, 0x10595); (0x10597, 0x105A1); (0x105A3, 0x105B1); (0x105B3, 0x105B9);
    (0x105BB, 0x105BC); (0x10780, 0x10780); (0x10783, 0x10785); (0x10787, 0x107B0);
    (0x107B2, 0x107BA); (0x10C80, 0x10CB2); (0x10CC0, 0x10CF2); (0x118A0, 0x118DF);
    (0x16E40, 0x16E7F); (0x1D400, 0x1D454); (0x1D456, 0x1D49C); (0x1D49E, 0x1D49F);
    (0x1D4A2, 0x1D4A2); (0x1D4A5, 0x1D4A6); (0x1D4A9, 0x1D4AC); (0x1D4AE, 0x1D4B9);
    (0x1D4BB, 0x1D4BB); (0x1D4BD, 0x1D4C3); (0x1D4C5, 0x1D505); (0x1D507, 0x1D50A);
    (0x1D50D, 0x1D514); (0x1D516, 0x1D51C); (0x1D51E, 0x1D539); (0x1D53B, 0x1D53E);
    (0x1D540, 0x1D544); (0x1D546, 0x1D546); (0x1D54A, 0x1D550); (0x1D552, 0x1D6A5);
    (0x1D6A8, 0x1D6C0); (0x1D6C2, 0x1D6DA); (0x1D6DC, 0x1D6FA); (0x1D6FC, 0x1D714);
    (0x1D716, 0x1D734); (0x1D736, 0x1D74E); (0x1D750, 0x1D76E); (0x1D770, 0x1D788);
    (0x1D78A, 0x1D7A8); (0x1D7AA, 0x1D7C2); (0x1D7C4, 0x1D7CB); (0x1DF00, 0x1DF09);
    (0x1DF0B, 0x1DF1E); (0x1E900, 0x1E943); (0x1F130, 0x1F149); (0x1F150, 0x1F169);
    (0x1F170, 0x1F189) ]%N.

(** [_PyUnicode_IsCaseIgnorable]: the property Case_Ignorable. *)
Definition case_ignorable : list (N * N) :=
  [
    (0x27, 0x27); (0x2E, 0x2E); (0x3A, 0x3A); (0x5E, 0x5E); (0x60, 0x60); (0xA8, 0xA8);
    (0xAD, 0xAD); (0xAF, 0xAF); (0xB4, 0xB4); (0xB7, 0xB8); (0x2B0, 0x36F);
    (0x374, 0x375); (0x37A, 0x37A); (0x384, 0x385); (0x387, 0x387); (0x483, 0x489);
    (0x559, 0x559); (0x55F, 0x55F); (0x591, 0x5BD); (0x5BF, 0x5BF); (0x5C1, 0x5C2);
    (0x5C4, 0x5C5); (0x5C7, 0x5C7); (0x5F4, 0x5F4); (0x600, 0x605); (0x610, 0x61A);
    (0x61C, 0x61C); (0x640, 0x640); (0x64B, 0x65F); (0x670, 0x670); (0x6D6, 0x6DD);
    (0x6DF, 0x6E8); (0x6EA, 0x6ED); (0x70F, 0x70F); (0x711, 0x711); (0x730, 0x74A);
    (0x7A6, 0x7B0); (0x7EB, 0x7F5); (0x7FA, 0x7FA); (0x7FD, 0x7FD); (0x816, 0x82D);
    (0x859, 0x85B); (0x888, 0x888); (0x890, 0x891); (0x898, 0x89F); (0x8C9, 0x902);
    (0x93A, 0x93A); (0x93C, 0x93C); (0x941, 0x948); (0x94D, 0x94D); (0x951, 0x957);
    (0x962, 0x963); (0x971, 0x971); (0x981, 0x981); (0x9BC, 0x9BC); (0x9C1, 0x9C4);
    (0x9CD, 0x9CD); (0x9E2, 0x9E3); (0x9FE, 0x9FE); (0xA01, 0xA02); (0xA3C, 0xA3C);
    (0xA41, 0xA42); (0xA47, 0xA48); (0xA4B, 0xA4D); (0xA51, 0xA51); (0xA70, 0xA71);
    (0xA75, 0xA75); (0xA81, 0xA82); (0xABC, 0xABC); (0xAC1, 0xAC5); (0xAC7, 0xAC8);
    (0xACD, 0xACD); (0xAE2, 0xAE3); (0xAFA, 0xAFF); (0xB01, 0xB01); (0xB3C, 0xB3C);
    (0xB3F, 0xB3F); (0xB41, 0xB44); (0xB4D, 0xB4D); (0xB55, 0xB56); (0xB62, 0xB63);
    (0xB82, 0xB82); (0xBC0, 0xBC0); (0xBCD, 0xBCD); (0xC00, 0xC00); (0xC04, 0xC04);
    (0xC3C, 0xC3C); (0xC3E, 0xC40); (0xC46, 0xC48); (0xC4A, 0xC4D); (0xC55, 0xC56);
    (0xC62, 0xC63); (0xC81, 0xC81); (0xCBC, 0xCBC); (0xCBF, 0xCBF); (0xCC6, 0xCC6);
    (0xCCC, 0xCCD); (0xCE2, 0xCE3); (0xD00, 0xD01); (0xD3B, 0xD3C); (0xD41, 0xD44);
    (0xD4D, 0xD4D); (0xD62, 0xD63); (0xD81, 0xD81); (0xDCA, 0xDCA); (0xDD2, 0xDD4);
    (0xDD6, 0xDD6); (0xE31, 0xE31); (0xE34, 0xE3A); (0xE46, 0xE4E); (0xEB1, 0xEB1);
    (0xEB4, 0xEBC); (0xEC6, 0xEC6); (0xEC8, 0xECD); (0xF18, 0xF19); (0xF35, 0xF35);
    (0xF37, 0xF37); (0xF39, 0xF39); (0xF71, 0xF7E); (0xF80, 0xF84); (0xF86, 0xF87);
    (0xF8D, 0xF97); (0xF99, 0xFBC); (0xFC6, 0xFC6); (0x102D, 0x1030); (0x1032, 0x1037);
    (0x1039, 0x103A); (0x103D, 0x103E); (0x1058, 0x1059); (0x105E, 0x1060);
    (0x1071, 0x1074); (0x1082, 0x1082); (0x1085, 0x1086); (0x108D, 0x108D);
    (0x109D, 0x109D); (0x10FC, 0x10FC); (0x135D, 0x135F); (0x1712, 0x1714);
    (0x1732, 0x1733); (0x1752, 0x1753); (0x1772, 0x1773); (0x17B4, 0x17B5);
    (0x17B7, 0x17BD); (0x17C6, 0x17C6); (0x17C9, 0x17D3); (0x17D7, 0x17D7);
    (0x17DD, 0x17DD); (0x180B, 0x180F); (0x1843, 0x1843); (0x1885, 0x1886);
    (0x18A9, 0x18A9); (0x1920, 0x1922); (0x1927, 0x1928); (0x1932, 0x1932);
    (0x1939, 0x193B); (0x1A17, 0x1A18); (0x1A1B, 0x1A1B); (0x1A56, 0x1A56);
    (0x1A58, 0x1A5E); (0x1A60, 0x1A60); (0x1A62, 0x1A62); (0x1A65, 0x1A6C);
    (0x1A73, 0x1A7C); (0x1A7F, 0x1A7F); (0x1AA7, 0x1AA7); (0x1AB0, 0x1ACE);
    (0x1B00, 0x1B03); (0x1B34, 0x1B34); (0x1B36, 0x1B3A); (0x1B3C, 0x1B3C);
    (0x1B42, 0x1B42); (0x1B6B, 0x1B73); (0x1B80, 0x1B81); (0x1BA2, 0x1BA5);
    (0x1BA8, 0x1BA9); (0x1BAB, 0x1BAD); (0x1BE6, 0x1BE6); (0x1BE8, 0x1BE9);
    (0x1BED, 0x1BED); (0x1BEF, 0x1BF1); (0x1C2C, 0x1C33); (0x1C36, 0x1C37);
    (0x1C78, 0x1C7D); (0x1CD0, 0x1CD2); (0x1CD4, 0x1CE0); (0x1CE2, 0x1CE8);
    (0x1CED, 0x1CED); (0x1CF4, 0x1CF4); (0x1CF8, 0x1CF9); (0x1D2C, 0x1D6A);
    (0x1D78, 0x1D78); (0x1D9B, 0x1DFF); (0x1FBD, 0x1FBD); (0x1FBF, 0x1FC1);
    (0x1FCD, 0x1FCF); (0x1FDD, 0x1FDF); (0x1FED, 0x1FEF); (0x1FFD, 0x1FFE);
    (0x200B, 0x200F); (0x2018, 0x2019); (0x2024, 0x2024); (0x2027, 0x2027);
    (0x202A, 0x202E); (0x2060, 0x2064); (0x2066, 0x206F); (0x2071, 0x2071);
    (0x207F, 0x207F); (0x2090, 0x209C); (0x20D0, 0x20F0); (0x2C7C, 0x2C7D);
    (0x2CEF, 0x2CF1); (0x2D6F, 0x2D6F); (0x2D7F, 0x2D7F); (0x2DE0, 0x2DFF);
    (0x2E2F, 0x2E2F); (0x3005, 0x3005); (0x302A, 0x302D); (0x3031, 0x3035);
    (0x303B, 0x303B); (0x3099, 0x309E); (0x30FC, 0x30FE); (0xA015, 0xA015);
    (0xA4F8, 0xA4FD); (0xA60C, 0xA60C); (0xA66F, 0xA672); (0xA674, 0xA67D);
    (0xA67F, 0xA67F); (0xA69C, 0xA69F); (0xA6F0, 0xA6F1); (0xA700, 0xA721);
    (0xA770, 0xA770); (0xA788, 0xA78A); (0xA7F2, 0xA7F4); (0xA7F8, 0xA7F9);
    (0xA802, 0xA802); (0xA806, 0xA806); (0xA80B, 0xA80B); (0xA825, 0xA826);
    (0xA82C, 0xA82C); (0xA8C4, 0xA8C5); (0xA8E0, 0xA8F1); (0xA8FF, 0xA8FF);
    (0xA926, 0xA92D); (0xA947, 0xA951); (0xA980, 0xA982); (0xA9B3, 0xA9B3);
    (0xA9B6, 0xA9B9); (0xA9BC, 0xA9BD); (0xA9CF, 0xA9CF); (0xA9E5, 0xA9E6);
    (0xAA29, 0xAA2E); (0xAA31, 0xAA32); (0xAA35, 0xAA36); (0xAA43, 0xAA43);
    (0xAA4C, 0xAA4C); (0xAA70, 0xAA70); (0xAA7C, 0xAA7C); (0xAAB0, 0xAAB0);
    (0xAAB2, 0xAAB4); (0xAAB7, 0xAAB8); (0xAABE, 0xAABF); (0xAAC1, 0xAAC1);
    (0xAADD, 0xAADD); (0xAAEC, 0xAAED); (0xAAF3, 0xAAF4); (0xAAF6, 0xAAF6);
    (0xAB5B, 0xAB5F); (0xAB69, 0xAB6B); (0xABE5, 0xABE5); (0xABE8, 0xABE8);
    (0xABED, 0xABED); (0xFB1E, 0xFB1E); (0xFBB2, 0xFBC2); (0xFE00, 0xFE0F);
    (0xFE13, 0xFE13); (0xFE20, 0xFE2F); (0xFE52, 0xFE52); (0xFE55, 0xFE55);
    (0xFEFF, 0xFEFF); (0xFF07, 0xFF07); (0xFF0E, 0xFF0E); (0xFF1A, 0xFF1A);
    (0xFF3E, 0xFF3E); (0xFF40, 0xFF40); (0xFF70, 0xFF70); (0xFF9E, 0xFF9F);
    (0xFFE3, 0xFFE3); (0xFFF9, 0xFFFB); (0x101FD, 0x101FD); (0x102E0, 0x102E0);
    (0x10376, 0x1037A); (0x10780, 0x10785); (0x10787, 0x107B0); (0x107B2, 0x107BA);
    (0x10A01, 0x10A03); (0x10A05, 0x10A06); (0x10A0C, 0x10A0F); (0x10A38, 0x10A3A);
    (0x10A3F, 0x10A3F); (0x10AE5, 0x10AE6); (0x10D24, 0x10D27); (0x10EAB, 0x10EAC);
    (0x10F46, 0x10F50); (0x10F82, 0x10F85); (0x11001, 0x11001); (0x11038, 0x11046);
    (0x11070, 0x11070); (0x11073, 0x11074); (0x1107F, 0x11081); (0x110B3, 0x110B6);
    (0x110B9, 0x110BA); (0x110BD, 0x110BD); (0x110C2, 0x110C2); (0x110CD, 0x110CD);
    (0x11100, 0x11102); (0x11127, 0x1112B); (0x1112D, 0x11134); (0x11173, 0x11173);
    (0x11180, 0x11181); (0x111B6, 0x111BE); (0x111C9, 0x111CC); (0x111CF, 0x111CF);
    (0x1122F, 0x11231); (0x11234, 0x11234); (0x11236, 0x11237); (0x1123E, 0x1123E);
    (0x112DF, 0x112DF); (0x112E3, 0x112EA); (0x11300, 0x11301); (0x1133B, 0x1133C);
    (0x11340, 0x11340); (0x11366, 0x1136C); (0x11370, 0x11374); (0x11438, 0x1143F);
    (0x11442, 0x11444); (0x11446, 0x11446); (0x1145E, 0x1145E); (0x114B3, 0x114B8);
    (0x114BA, 0x114BA); (0x114BF, 0x114C0); (0x114C2, 0x114C3); (0x115B2, 0x115B5);
    (0x115BC, 0x115BD); (0x115BF, 0x115C0); (0x115DC, 0x115DD); (0x11633, 0x1163A);
    (0x1163D, 0x1163D); (0x1163F, 0x11640); (0x116AB, 0x116AB); (0x116AD, 0x116AD);
    (0x116B0, 0x116B5); (0x116B7, 0x116B7); (0x1171D, 0x1171F); (0x11722, 0x11725);
    (0x11727, 0x1172B); (0x1182F, 0x11837); (0x11839, 0x1183A); (0x1193B, 0x1193C);
    (0x1193E, 0x1193E); (0x11943, 0x11943); (0x119D4, 0x119D7); (0x119DA, 0x119DB);
    (0x119E0, 0x119E0); (0x11A01, 0x11A0A); (0x11A33, 0x11A38); (0x11A3B, 0x11A3E);
    (0x11A47, 0x11A47); (0x11A51, 0x11A56); (0x11A59, 0x11A5B); (0x11A8A, 0x11A96);
    (0x11A98, 0x11A99); (0x11C30, 0x11C36); (0x11C38, 0x11C3D); (0x11C3F, 0x11C3F);
    (0x11C92, 0x11CA7); (0x11CAA, 0x11CB0); (0x11CB2, 0x11CB3); (0x11CB5, 0x11CB6);
    (0x11D31, 0x11D36); (0x11D3A, 0x11D3A); (0x11D3C, 0x11D3D); (0x11D3F, 0x11D45);
    (0x11D47, 0x11D47); (0x11D90, 0x11D91); (0x11D95, 0x11D95); (0x11D97, 0x11D97);
    (0x11EF3, 0x11EF4); (0x13430, 0x13438); (0x16AF0, 0x16AF4); (0x16B30, 0x16B36);
    (0x16B40, 0x16B43); (0x16F4F, 0x16F4F); (0x16F8F, 0x16F9F); (0x16FE0, 0x16FE1);
    (0x16FE3, 0x16FE4); (0x1AFF0, 0x1AFF3); (0x1AFF5, 0x1AFFB); (0x1AFFD, 0x1AFFE);
    (0x1BC9D, 0x1BC9E); (0x1BCA0, 0x1BCA3); (0x1CF00, 0x1CF2D); (0x1CF30, 0x1CF46);
    (0x1D167, 0x1D169); (0x1D173, 0x1D182); (0x1D185, 0x1D18B); (0x1D1AA, 0x1D1AD);
    (0x1D242, 0x1D244); (0x1DA00, 0x1DA36); (0x1DA3B, 0x1DA6C); (0x1DA75, 0x1DA75);
    (0x1DA84, 0x1DA84); (0x1DA9B, 0x1DA9F); (0x1DAA1, 0x1DAAF); (0x1E000, 0x1E006);
    (0x1E008, 0x1E018); (0x1E01B, 0x1E021); (0x1E023, 0x1E024); (0x1E026, 0x1E02A);
    (0x1E130, 0x1E13D); (0x1E2AE, 0x1E2AE); (0x1E2EC, 0x1E2EF); (0x1E8D0, 0x1E8D6);
    (0x1E944, 0x1E94B); (0x1F3FB, 0x1F3FF); (0xE0001, 0xE0001); (0xE0020, 0xE007F);
    (0xE0100, 0xE01EF) ]%N.

(** The code points whose lowercase mapping is one other code point,
    in groups [(first, last, step, lower)]: the code points [first],
    [first + step], ... up to [last] are mapped to [lower],
    [lower + step], ... *)
Definition lowercase : list (N * N * N * N) :=
  [
    (0x41, 0x5A, 1, 0x61); (0xC0, 0xD6, 1, 0xE0); (0xD8, 0xDE, 1, 0xF8);
    (0x100, 0x12E, 2, 0x101); (0x132, 0x136, 2, 0x133); (0x139, 0x147, 2, 0x13A);
    (0x14A, 0x176, 2, 0x14B); (0x178, 0x178, 1, 0xFF); (0x179, 0x17D, 2, 0x17A);
    (0x181, 0x181, 1, 0x253); (0x182, 0x184, 2, 0x183); (0x186, 0x186, 1, 0x254);
    (0x187, 0x187, 1, 0x188); (0x189, 0x18A, 1, 0x256); (0x18B, 0x18B, 1, 0x18C);
    (0x18E, 0x18E, 1, 0x1DD); (0x18F, 0x18F, 1, 0x259); (0x190, 0x190, 1, 0x25B);
    (0x191, 0x191, 1, 0x192); (0x193, 0x193, 1, 0x260); (0x194, 0x194, 1, 0x263);
    (0x196, 0x196, 1, 0x269); (0x197, 0x197, 1, 0x268); (0x198, 0x198, 1, 0x199);
    (0x19C, 0x19C, 1, 0x26F); (0x19D, 0x19D, 1, 0x272); (0x19F, 0x19F, 1, 0x275);
    (0x1A0, 0x1A4, 2, 0x1A1); (0x1A6, 0x1A6, 1, 0x280); (0x1A7, 0x1A7, 1, 0x1A8);
    (0x1A9, 0x1A9, 1, 0x283); (0x1AC, 0x1AC, 1, 0x1AD); (0x1AE, 0x1AE, 1, 0x288);
    (0x1AF, 0x1AF, 1, 0x1B0); (0x1B1, 0x1B2, 1, 0x28A); (0x1B3, 0x1B5, 2, 0x1B4);
    (0x1B7, 0x1B7, 1, 0x292); (0x1B8, 0x1B8, 1, 0x1B9); (0x1BC, 0x1BC, 1, 0x1BD);
    (0x1C4, 0x1C4, 1, 0x1C6); (0x1C5, 0x1C5, 1, 0x1C6); (0x1C7, 0x1C7, 1, 0x1C9);
    (0x1C8, 0x1C8, 1, 0x1C9); (0x1CA, 0x1CA, 1, 0x1CC); (0x1CB, 0x1DB, 2, 0x1CC);
    (0x1DE, 0x1EE, 2, 0x1DF); (0x1F1, 0x1F1, 1, 0x1F3); (0x1F2, 0x1F4, 2, 0x1F3);
    (0x1F6, 0x1F6, 1, 0x195); (0x1F7, 0x1F7, 1, 0x1BF); (0x1F8, 0x21E, 2, 0x1F9);
    (0x220, 0x220, 1, 0x19E); (0x222, 0x232, 2, 0x223); (0x23A, 0x23A, 1, 0x2C65);
    (0x23B, 0x23B, 1, 0x23C); (0x23D, 0x23D, 1, 0x19A); (0x23E, 0x23E, 1, 0x2C66);
    (0x241, 0x241, 1, 0x242); (0x243, 0x243, 1, 0x180); (0x244, 0x244, 1, 0x289);
    (0x245, 0x245, 1, 0x28C); (0x246, 0x24E, 2, 0x247); (0x370, 0x372, 2, 0x371);
    (0x376, 0x376, 1, 0x377); (0x37F, 0x37F, 1, 0x3F3); (0x386, 0x386, 1, 0x3AC);
    (0x388, 0x38A, 1, 0x3AD); (0x38C, 0x38C, 1, 0x3CC); (0x38E, 0x38F, 1, 0x3CD);
    (0x391, 0x3A1, 1, 0x3B1); (0x3A3, 0x3AB, 1, 0x3C3); (0x3CF, 0x3CF, 1, 0x3D7);
    (0x3D8, 0x3EE, 2, 0x3D9); (0x3F4, 0x3F4, 1, 0x3B8); (0x3F7, 0x3F7, 1, 0x3F8);
    (0x3F9, 0x3F9, 1, 0x3F2); (0x3FA, 0x3FA, 1, 0x3FB); (0x3FD, 0x3FF, 1, 0x37B);
    (0x400, 0x40F, 1, 0x450); (0x410, 0x42F, 1, 0x430); (0x460, 0x480, 2, 0x461);
    (0x48A, 0x4BE, 2, 0x48B); (0x4C0, 0x4C0, 1, 0x4CF); (0x4C1, 0x4CD, 2, 0x4C2);
    (0x4D0, 0x52E, 2, 0x4D1); (0x531, 0x556, 1, 0x561); (0x10A0, 0x10C5, 1, 0x2D00);
    (0x10C7, 0x10C7, 1, 0x2D27); (0x10CD, 0x10CD, 1, 0x2D2D); (0x13A0, 0x13EF, 1, 0xAB70);
    (0x13F0, 0x13F5, 1, 0x13F8); (0x1C90, 0x1CBA, 1, 0x10D0); (0x1CBD, 0x1CBF, 1, 0x10FD);
    (0x1E00, 0x1E94, 2, 0x1E01); (0x1E9E, 0x1E9E, 1, 0xDF); (0x1EA0, 0x1EFE, 2, 0x1EA1);
    (0x1F08, 0x1F0F, 1, 0x1F00); (0x1F18, 0x1F1D, 1, 0x1F10); (0x1F28, 0x1F2F, 1, 0x1F20);
    (0x1F38, 0x1F3F, 1, 0x1F30); (0x1F48, 0x1F4D, 1, 0x1F40); (0x1F59, 0x1F5F, 2, 0x1F51);
    (0x1F68, 0x1F6F, 1, 0x1F60); (0x1F88, 0x1F8F, 1, 0x1F80); (0x1F98, 0x1F9F, 1, 0x1F90);
    (0x1FA8, 0x1FAF, 1, 0x1FA0); (0x1FB8, 0x1FB9, 1, 0x1FB0); (0x1FBA, 0x1FBB, 1, 0x1F70);
    (0x1FBC, 0x1FBC, 1, 0x1FB3); (0x1FC8, 0x1FCB, 1, 0x1F72); (0x1FCC, 0x1FCC, 1, 0x1FC3);
    (0x1FD8, 0x1FD9, 1, 0x1FD0); (0x1FDA, 0x1FDB, 1, 0x1F76); (0x1FE8, 0x1FE9, 1, 0x1FE0);
    (0x1FEA, 0x1FEB, 1, 0x1F7A); (0x1FEC, 0x1FEC, 1, 0x1FE5); (0x1FF8, 0x1FF9, 1, 0x1F78);
    (0x1FFA, 0x1FFB, 1, 0x1F7C); (0x1FFC, 0x1FFC, 1, 0x1FF3); (0x2126, 0x2126, 1, 0x3C9);
    (0x212A, 0x212A, 1, 0x6B); (0x212B, 0x212B, 1, 0xE5); (0x2132, 0x2132, 1, 0x214E);
    (0x2160, 0x216F, 1, 0x2170); (0x2183, 0x2183, 1, 0x2184); (0x24B6, 0x24CF, 1, 0x24D0);
    (0x2C00, 0x2C2F, 1, 0x2C30); (0x2C60, 0x2C60, 1, 0x2C61); (0x2C62, 0x2C62, 1, 0x26B);
    (0x2C63, 0x2C63, 1, 0x1D7D); (0x2C64, 0x2C64, 1, 0x27D); (0x2C67, 0x2C6B, 2, 0x2C68);
    (0x2C6D, 0x2C6D, 1, 0x251); (0x2C6E, 0x2C6E, 1, 0x271); (0x2C6F, 0x2C6F, 1, 0x250);
    (0x2C70, 0x2C70, 1, 0x252); (0x2C72, 0x2C72, 1, 0x2C73); (0x2C75, 0x2C75, 1, 0x2C76);
    (0x2C7E, 0x2C7F, 1, 0x23F); (0x2C80, 0x2CE2, 2, 0x2C81); (0x2CEB, 0x2CED, 2, 0x2CEC);
    (0x2CF2, 0x2CF2, 1, 0x2CF3); (0xA640, 0xA66C, 2, 0xA641); (0xA680, 0xA69A, 2, 0xA681);
    (0xA722, 0xA72E, 2, 0xA723); (0xA732, 0xA76E, 2, 0xA733); (0xA779, 0xA77B, 2, 0xA77A);
    (0xA77D, 0xA77D, 1, 0x1D79); (0xA77E, 0xA786, 2, 0xA77F); (0xA78B, 0xA78B, 1, 0xA78C);
    (0xA78D, 0xA78D, 1, 0x265); (0xA790, 0xA792, 2, 0xA791); (0xA796, 0xA7A8, 2, 0xA797);
    (0xA7AA, 0xA7AA, 1, 0x266); (0xA7AB, 0xA7AB, 1, 0x25C); (0xA7AC, 0xA7AC, 1, 0x261);
    (0xA7AD, 0xA7AD, 1, 0x26C); (0xA7AE, 0xA7AE, 1, 0x26A); (0xA7B0, 0xA7B0, 1, 0x29E);
    (0xA7B1, 0xA7B1, 1, 0x287); (0xA7B2, 0xA7B2, 1, 0x29D); (0xA7B3, 0xA7B3, 1, 0xAB53);
    (0xA7B4, 0xA7C2, 2, 0xA7B5); (0xA7C4, 0xA7C4, 1, 0xA794); (0xA7C5, 0xA7C5, 1, 0x282);
    (0xA7C6, 0xA7C6, 1, 0x1D8E); (0xA7C7, 0xA7C9, 2, 0xA7C8); (0xA7D0, 0xA7D0, 1, 0xA7D1);
    (0xA7D6, 0xA7D8, 2, 0xA7D7); (0xA7F5, 0xA7F5, 1, 0xA7F6); (0xFF21, 0xFF3A, 1, 0xFF41);
    (0x10400, 0x10427, 1, 0x10428); (0x104B0, 0x104D3, 1, 0x104D8);
    (0x10570, 0x1057A, 1, 0x10597); (0x1057C, 0x1058A, 1, 0x105A3);
    (0x1058C, 0x10592, 1, 0x105B3); (0x10594, 0x10595, 1, 0x105BB);
    (0x10C80, 0x10CB2, 1, 0x10CC0); (0x118A0, 0x118BF, 1, 0x118C0);
    (0x16E40, 0x16E5F, 1, 0x16E60); (0x1E900, 0x1E921, 1, 0x1E922) ]%N.

(** The code points whose lowercase mapping is longer than one code
    point (the table [_PyUnicode_ExtendedCase]). *)
Definition lowercase_extended : list (N * list N) :=
  [ (0x130, [0x69; 0x307]) ]%N.

Definition in_group (c : N) (group : N * N * N * N) : bool :=
  let '(first, last, step, _) := group in
  (first <=? c)%N && (c <=? last)%N && ((c - first) mod step =? 0)%N.

(** [_PyUnicode_ToLowercase] *)
Fixpoint tolower (c : N) (groups : list (N * N * N * N)) : N :=
  match groups with
  | [] => c
  | (first, last, step, lower) :: groups' =>
      if in_group c (first, last, step, lower) then (lower + (c - first))%N
      else tolower c groups'
  end.

Fixpoint extended (c : N) (table : list (N * list N)) : option (list N) :=
  match table with
  | [] => None
  | (c', mapped) :: table' => if (c' =? c)%N then Some mapped else extended c table'
  end.

End Unicode.

(** ** Characters *)

Module Char.

(** [ord(s)] for a string of one character. *)
Definition ord (s : str) : N := default 0%N (head s).
#[global] Arguments ord : simpl never.

(** [Py_UNICODE_ISSPACE], the class of [str.strip()] and of [\s]. *)
Definition isspace (c : N) : bool := Unicode.in_ranges c Unicode.whitespace.

(** [Py_UNICODE_ISALNUM], which is [str.isalnum] on one character. *)
Definition isalnum (c : N) : bool := Unicode.in_ranges c Unicode.alnum.

(** The class [\w] of a [str] pattern: alphanumeric or underscore. *)
Definition isword (c : N) : bool := isalnum c || (c =? ord "_")%N.

Definition iscased (c : N) : bool := Unicode.in_ranges c Unicode.cased.

Definition iscaseignorable (c : N) : bool :=
  Unicode.in_ranges c Unicode.case_ignorable.

(** [_PyUnicode_ToLowerFull]: the lowercase mapping of one code point,
    which can be longer than one code point. *)
Definition tolower_full (c : N) : str :=
  match Unicode.extended c Unicode.lowercase_extended with
  | Some mapped => mapped
  | None => [Unicode.tolower c Unicode.lowercase]
  end.

End Char.

Module Str.

(** The first character of [s] that is not case-ignorable. *)
Fixpoint skip_case_ignorable (s : str) : option N :=
  match s with
  | [] => None
  | c :: s' => if Char.iscaseignorable c then skip_case_ignorable s' else Some c
  end.

(** [final_sigma]: a capital sigma is in final position when a cased
    letter comes before it and none comes after it, case-ignorable
    characters not counting.  [before] has the characters before the
    sigma, the nearest first, and [after] those after it. *)
Definition final_sigma (before after : str) : bool :=
  match skip_case_ignorable before with
  | Some c =>
      Char.iscased c
      && match skip_case_ignorable after with
         | Some c' => negb (Char.iscased c')
         | None => true
         end
  | None => false
  end.

(** [lower_ucs4]: what the character [c] becomes between [before] and
    [after].  The capital sigma, U+03A3, becomes the final sigma,
    U+03C2, or the small sigma, U+03C3. *)
Definition lower_ucs4 (before : str) (c : N) (after : str) : str :=
  if (c =? 0x3A3)%N
  then [if final_sigma before after then 0x3C2%N else 0x3C3%N]
  else Char.tolower_full c.

(** [do_lower], from the position that has [before] behind it. *)
Fixpoint do_lower (before s : str) : str :=
  match s with
  | [] => []
  | c :: s' => lower_ucs4 before c s' ++ do_lower (c :: before) s'
  end.

(** [s.lower()] *)
Definition lower (s : str) : str := do_lower [] s.

Fixpoint lstrip (s : str) : str :=
  match s with
  | [] => []
  | c :: s' => if Char.isspace c then lstrip s' else s
  end.

Fixpoint rstrip (s : str) : str :=
  match s with
  | [] => []
  | c :: s' =>
      match rstrip s' with
      | [] => if Char.isspace c then [] else [c]
      | r => c :: r
      end
  end.

(** [s.strip()] *)
Definition strip (s : str) : str := rstrip (lstrip s).

Fixpoint filter (keep : N -> bool) (s : str) : str :=
  match s with
  | [] => []
  | c :: s' => if keep c then c :: filter keep s' else filter keep s'
  end.

(** [re.sub(r'[^\w\s]', '', s)]: every character that is neither a word
    character nor whitespace is deleted. *)
Definition re_sub_not_word_space (s : str) : str :=
  filter (fun c => Char.isword c || Char.isspace c) s.

Fixpoint startswith (s k : str) : bool :=
  match k, s with
  | [], _ => true
  | _ :: _, [] => false
  | a :: k', b :: s' => if (a =? b)%N then startswith s' k' else false
  end.

(** [k in s] on strings: [k] occurs in [s] as a substring. *)
Fixpoint contains (k s : str) : bool :=
  startswith s k
  || match s with
     | [] => false
     | _ :: s' => contains k s'
     end.

(** [any(word in s for word in words)] *)
Definition any_in (words : list str) (s : str) : bool :=
  existsb (fun word => contains word s) words.

(** The order of [str]: that of the first code points that differ, a
    proper prefix coming first. *)
Fixpoint compare (s t : str) : comparison :=
  match s, t with
  | [], [] => Eq
  | [], _ :: _ => Lt
  | _ :: _, [] => Gt
  | a :: s', b :: t' =>
      match (a ?= b)%N with
      | Eq => compare s' t'
      | o => o
      end
  end.

(** [s <= t] *)
Definition le (s t : str) : Prop := compare s t ≠ Gt.

Fixpoint Forall (P : N -> Prop) (s : str) : Prop :=
  match s with
  | [] => True
  | c :: s' => P c /\ Forall P s'
  end.

Definition newline : str := [10%N].

End Str.

Definition preprocess_text (text : str) : str :=
  Str.re_sub_not_word_space (Str.strip (Str.lower text)).


(** ** The part of Python's [difflib] that [get_close_matches] runs

    [SequenceMatcher] is created with [isjunk=None] and [autojunk=True]:
    the set [bjunk] stays empty, so the tests [isbjunk(...)] are false and
    the two loops of [find_longest_match] that absorb junk never run. *)

Module Difflib.

(** A matching block [Match(a=i, b=j, size=k)]. *)
Definition Match : Type := nat * nat * nat.

Definition size (x : Match) : nat := x.2.

(** The order of Python tuples of integers, used by [list.sort]. *)
Definition Match_le (x y : Match) : Prop :=
  let '(i1, j1, k1) := x in
  let '(i2, j2, k2) := y in
  i1 < i2 ∨ (i1 = i2 ∧ (j1 < j2 ∨ (j1 = j2 ∧ k1 ≤ k2))).

#[global] Instance Match_le_dec : RelDecision Match_le.
Proof. intros [[i1 j1] k1] [[i2 j2] k2]. unfold Match_le. apply _. Defined.

(** [_calculate_ratio(matches, length)] *)
Definition calculate_ratio (matches length : nat) : Q :=
  match length with
  | 0 => 1
  | S _ => Z.of_nat (2 * matches) # Pos.of_nat length
  end.

Section SequenceMatcher.
Context `{Countable A}.

(** The loop of [__chain_b] over [enumerate(b)], from index [i] on. *)
Fixpoint index_elements (i : nat) (b : list A) (b2j : gmap A (list nat))
  : gmap A (list nat) :=
  match b with
  | [] => b2j
  | elt :: b' =>
      index_elements (S i) b' (<[elt := default [] (b2j !! elt) ++ [i]]> b2j)
  end.

(** [__chain_b]: the positions of every element of [b], without the
    elements that are "popular" in a [b] of 200 elements or more. *)
Definition chain_b (b : list A) : gmap A (list nat) :=
  let b2j := index_elements 0 b ∅ in
  let n := length b in
  if 200 <=? n then
    let ntest := n / 100 + 1 in
    filter (λ entry : A * list nat, ¬ ntest < length entry.2) b2j
  else b2j.

(** [x == y] for two elements read from the sequences. *)
Definition same_element (x y : option A) : bool :=
  match x, y with
  | Some u, Some v => bool_decide (u = v)
  | _, _ => false
  end.

Section find_longest_match.
Variables (a b : list A) (b2j : gmap A (list nat)).
Variables (alo ahi blo bhi : nat).

(** [j2lenget(j-1, 0)]: no key is negative, so at [j = 0] the
    default is returned. *)
Definition j2lenget_pred (j2len : gmap nat nat) (j : nat) : nat :=
  match j with
  | 0 => 0
  | S j' => default 0 (j2len !! j')
  end.

(** The inner loop [for j in b2j.get(a[i], nothing)].  The positions
    [i-k+1] and [j-k+1] are written [i + 1 - k] and [j + 1 - k]:
    [k] never exceeds [i + 1 - alo] nor [j + 1 - blo]. *)
Fixpoint scan_row (i : nat) (j2len : gmap nat nat) (js : list nat)
    (newj2len : gmap nat nat) (best : Match) : gmap nat nat * Match :=
  match js with
  | [] => (newj2len, best)
  | j :: js' =>
      if j <? blo then scan_row i j2len js' newj2len best
      else if bhi <=? j then (newj2len, best)
      else
        let k := j2lenget_pred j2len j + 1 in
        let newj2len := <[j := k]> newj2len in
        let best := if size best <? k then (i + 1 - k, j + 1 - k, k) else best in
        scan_row i j2len js' newj2len best
  end.

(** One turn of [for i in range(alo, ahi)].  [a[i]] is in range for
    every [ahi <= len(a)]; outside, the row has no match. *)
Definition scan_step (state : gmap nat nat * Match) (i : nat)
  : gmap nat nat * Match :=
  let '(j2len, best) := state in
  let js := match a !! i with
            | Some elt => default [] (b2j !! elt)
            | None => []
            end in
  scan_row i j2len js ∅ best.

(** [while besti > alo and bestj > blo and a[besti-1] == b[bestj-1]] *)
Fixpoint extend_left (besti bestj bestsize : nat) {struct besti} : Match :=
  match besti with
  | 0 => (besti, bestj, bestsize)
  | S i' =>
      if (alo <? besti) && (blo <? bestj)
         && same_element (a !! i') (b !! (bestj - 1))
      then extend_left i' (bestj - 1) (bestsize + 1)
      else (besti, bestj, bestsize)
  end.

(** [while besti+bestsize < ahi and bestj+bestsize < bhi and
    a[besti+bestsize] == b[bestj+bestsize]]; [room] counts the
    positions left below [ahi]. *)
Fixpoint extend_right (room besti bestj bestsize : nat) : nat :=
  match room with
  | 0 => bestsize
  | S room' =>
      if (besti + bestsize <? ahi) && (bestj + bestsize <? bhi)
         && same_element (a !! (besti + bestsize)) (b !! (bestj + bestsize))
      then extend_right room' besti bestj (bestsize + 1)
      else bestsize
  end.

Definition find_longest_match : Match :=
  let '(_, (besti, bestj, bestsize)) :=
    foldl scan_step (∅, (alo, blo, 0)) (seq alo (ahi - alo)) in
  let '(besti, bestj, bestsize) := extend_left besti bestj bestsize in
  let bestsize := extend_right (ahi - (besti + bestsize)) besti bestj bestsize in
  (besti, bestj, bestsize).

End find_longest_match.

(** A pending range [(alo, ahi, blo, bhi)] of [get_matching_blocks]. *)
Definition Range : Type := nat * nat * nat * nat.

(** The loop [while queue:].  The head of the list is the end of the
    Python list, where [pop] and [append] work.  The loop is run for
    at most [fuel] turns; [None] means the fuel ran out. *)
Fixpoint blocks_loop (a b : list A) (b2j : gmap A (list nat)) (fuel : nat)
    (queue : list Range) (matching_blocks : list Match) : option (list Match) :=
  match fuel with
  | 0 => None
  | S fuel' =>
      match queue with
      | [] => Some matching_blocks
      | (alo, ahi, blo, bhi) :: queue =>
          let '(i, j, k) := find_longest_match a b b2j alo ahi blo bhi in
          if k =? 0 then blocks_loop a b b2j fuel' queue matching_blocks
          else
            let queue :=
              if (alo <? i) && (blo <? j) then (alo, i, blo, j) :: queue else queue in
            let queue :=
              if (i + k <? ahi) && (j + k <? bhi) then (i + k, ahi, j + k, bhi) :: queue
              else queue in
            blocks_loop a b b2j fuel' queue (matching_blocks ++ [(i, j, k)])
      end
  end.

(** The loop that merges adjacent blocks; the state is
    [(i1, j1, k1)] and [non_adjacent]. *)
Definition collapse_step (state : Match * list Match) (x : Match)
  : Match * list Match :=
  let '((i1, j1, k1), non_adjacent) := state in
  let '(i2, j2, k2) := x in
  if (i1 + k1 =? i2) && (j1 + k1 =? j2) then ((i1, j1, k1 + k2), non_adjacent)
  else
    ((i2, j2, k2),
     if k1 =? 0 then non_adjacent else non_adjacent ++ [(i1, j1, k1)]).

Definition collapse (la lb : nat) (matching_blocks : list Match) : list Match :=
  let '((i1, j1, k1), non_adjacent) :=
    foldl collapse_step ((0, 0, 0), []) matching_blocks in
  let non_adjacent :=
    if k1 =? 0 then non_adjacent else non_adjacent ++ [(i1, j1, k1)] in
  non_adjacent ++ [(la, lb, 0)].

(** [get_matching_blocks].  With the [b2j] of [chain_b] the fuel
    [2 * la + 2] is never used up (lemma
    [get_matching_blocks_terminates]). *)
Definition get_matching_blocks (a b : list A) (b2j : gmap A (list nat))
  : list Match :=
  let la := length a in
  let lb := length b in
  match blocks_loop a b b2j (2 * la + 2) [(0, la, 0, lb)] [] with
  | Some matching_blocks => collapse la lb (merge_sort Match_le matching_blocks)
  | None => []
  end.

(** [ratio()] *)
Definition ratio (a b : list A) (b2j : gmap A (list nat)) : Q :=
  let matches := sum_list_with size (get_matching_blocks a b b2j) in
  calculate_ratio matches (length a + length b).

(** The loop of [quick_ratio] that fills [fullbcount]. *)
Definition count_elements (b : list A) : gmap A nat :=
  foldl (λ fullbcount elt, <[elt := default 0 (fullbcount !! elt) + 1]> fullbcount)
        ∅ b.

(** One turn of [for elt in self.a] in [quick_ratio]; the state is
    [avail] and [matches]. *)
Definition quick_step (fullbcount : gmap A nat) (state : gmap A Z * nat) (elt : A)
  : gmap A Z * nat :=
  let '(avail, matches) := state in
  let numb := match avail !! elt with
              | Some numb => numb
              | None => Z.of_nat (default 0 (fullbcount !! elt))
              end in
  (<[elt := (numb - 1)%Z]> avail, if (0 <? numb)%Z then matches + 1 else matches).

Definition quick_matches (a b : list A) : nat :=
  (foldl (quick_step (count_elements b)) (∅, 0) a).2.

(** [quick_ratio()] *)
Definition quick_ratio (a b : list A) : Q :=
  calculate_ratio (quick_matches a b) (length a + length b).

(** [real_quick_ratio()] *)
Definition real_quick_ratio (a b : list A) : Q :=
  let la := length a in
  let lb := length b in
  calculate_ratio (la `min` lb) (la + lb).

End SequenceMatcher.

(** A pair [(score, x)] of the list [result]. *)
Definition Scored : Type := Q * str.

(** [item > best] on the tuples [(score, x)]: the scores decide, and
    equal scores leave the decision to the order of [str]. *)
Definition scored_gt (item best : Scored) : bool :=
  match (item.1 ?= best.1)%Q with
  | Gt => true
  | Lt => false
  | Eq => match Str.compare item.2 best.2 with Gt => true | _ => false end
  end.

(** [heapq.nlargest(1, result)], which is [max(result)] when [result]
    has an element: the first item is kept until a greater one comes. *)
Definition nlargest1 (result : list Scored) : list Scored :=
  match result with
  | [] => []
  | first :: rest =>
      [foldl (λ best item, if scored_gt item best then item else best) first rest]
  end.

(** [get_close_matches(word, possibilities, n=1, cutoff)]: [word] is
    sequence 2, each possibility in turn is sequence 1. *)
Definition get_close_matches (word : str) (possibilities : list str)
    (cutoff : Q) : list str :=
  let b := word in
  let b2j := chain_b b in
  let result :=
    omap (λ x : str,
            let a := x in
            if Qle_bool cutoff (real_quick_ratio a b)
               && Qle_bool cutoff (quick_ratio a b)
               && Qle_bool cutoff (ratio a b b2j)
            then Some (ratio a b b2j, x)
            else None)
         possibilities in
  snd <$> nlargest1 result.

End Difflib.

(** ** Python built-ins used by the chatbot *)

Module Py.

(** [l[start:]] for an integer [start] of either sign. *)
Definition slice_from {A} (start : Z) (l : list A) : list A :=
  let len := Z.of_nat (length l) in
  let start := if (start <? 0)%Z then Z.max (start + len) 0 else Z.min start len in
  drop (Z.to_nat start) l.

(** [random.choice(seq)] is [seq[i]] for the index [i] below [len(seq)]
    that the generator draws; the draw [r] is reduced to that range.
    On an empty [seq] Python raises [IndexError]; the lists of templates
    are not empty. *)
Definition choice (r : nat) (seq : list str) : str :=
  default "" (seq !! (r mod length seq)).

(** [str(n)] for a natural number [n]. *)
Definition str_of_nat (n : nat) : str :=
  Literal.to_str (Literal.parse (String.list_byte_of_string (pretty n))).

End Py.

(** ** The chatbot *)

Abbreviation nl := Str.newline.

(** A value of [product_data]. *)
Record ProductEntry := {
  name : str;
  price : str;
  original_price : str;
  discount : str;
  description : str;
  whatsapp : str
}.

(** An entry of [conversation_history]. *)
Record Message := { role : str; content : str }.

(** The dictionary [responses], one field for each of its keys. *)
Record Responses := {
  greeting : list str;
  mission : list str;
  care : list str;
  ordering : list str;
  thanks : list str;
  fallback : list str
}.

(** The attributes of an instance.  A [dict] keeps its keys apart and in
    insertion order: [product_data] is the list of its items. *)
Record LuxeloomChatbot := {
  product_data : list (str * ProductEntry);
  conversation_history : list Message;
  max_history : Z;
  responses : Responses
}.

(** [LuxeloomChatbot()], that is [__init__]. *)
Definition init : LuxeloomChatbot := {|
  product_data :=
    [ ("snoopy tote",
       {| name := "Snoopy Tote";
          price := "PKR 2,125";
          original_price := "PKR 2,500";
          discount := "15% OFF";
          description := "Tote bag for all the snoopy lovers ❤️ started out rough but we got there in the end.";
          whatsapp := "+92 307 4674619" |});
      ("sunny tote",
       {| name := "Sunny Tote";
          price := "PKR 2,125";
          original_price := "PKR 2,500";
          discount := "15% OFF";
          description := "Sunny tote! took ages but worth it because she's literally glowing ☀️";
          whatsapp := "+92 307 4674619" |});
      ("strawberry miffi tote",
       {| name := "Strawberry Miffi Tote";
          price := "PKR 2,125";
          original_price := "PKR 2,500";
          discount := "15% OFF";
          description := "Watch how this strawberry miffy tote bag came together! love the outcome 🍓";
          whatsapp := "+92 307 4674619" |});
      ("miffy",
       {| name := "Strawberry Miffi Tote";
          price := "PKR 2,125";
          original_price := "PKR 2,500";
          discount := "15% OFF";
          description := "Watch how this strawberry miffy tote bag came together! love the outcome 🍓";
          whatsapp := "+92 307 4674619" |}) ];
  conversation_history := [];
  max_history := 5;
  responses := {|
    greeting :=
      [ "Hello! 👋 Welcome to Luxeloom! I'm here to help you with our handmade accessories. What would you like to know?";
        "Hi there! ✨ I'm your Luxeloom assistant. How can I help you today?";
        "Welcome to Luxeloom! 🎀 I'm here to assist you with our collection. What can I help you with?";
        "Hello! 🌸 Ready to explore our handmade accessories? What interests you today?" ];
    mission :=
      [ "At Luxeloom, we believe in shopping with purpose! All proceeds from our handmade accessories support Edhi Foundation, Pakistan's largest welfare organization. When you shop with us, you're making a difference! 💙";
        "Every purchase you make at Luxeloom directly supports Edhi Foundation! We donate 100% of our profits to help families in need. Shop with your heart! ❤️";
        "Our mission is simple: beautiful handmade accessories that give back! All profits go to Edhi Foundation to support those in need across Pakistan. 💝" ];
    care :=
      [ "Here's how to care for your Luxeloom tote bags:" ++ nl ++ nl
        ++ "• Hand wash in cold water only" ++ nl
        ++ "• Use mild detergent; avoid bleach" ++ nl
        ++ "• Do not machine wash or tumble dry" ++ nl
        ++ "• Air dry flat or hang in the shade (avoid direct sunlight)" ++ nl
        ++ "• Iron inside out on low heat if needed" ++ nl
        ++ "• The hand-painted design may soften over time, adding to its unique character ✨" ];
    ordering :=
      [ "To place an order, simply message us on WhatsApp at +92 307 4674619! 📱 We'll be happy to help you with your purchase. Thank you for supporting Luxeloom! 💙";
        "Ready to order? Send us a WhatsApp message at +92 307 4674619 and we'll assist you right away! 🌸" ];
    thanks :=
      [ "You're very welcome! Happy to help! 💙";
        "Anytime! Feel free to ask if you have more questions! ✨";
        "My pleasure! I'm here whenever you need me! 🌸";
        "You're welcome! Thanks for choosing Luxeloom! 💝" ];
    fallback :=
      [ "I'm not sure I understand that. Could you ask about our products, mission, care instructions, or how to order? 😊";
        "I'm here to help with Luxeloom! Ask me about our products, our mission, care instructions, or ordering! ✨";
        "Let me help you! I can tell you about our tote bags, our mission, care instructions, or how to place an order! 💙" ]
  |}
|}.

(** The loop [for key, product in self.product_data.items()] of
    [find_product]. *)
Fixpoint direct_match (items : list (str * ProductEntry)) (query_lower : str)
  : option ProductEntry :=
  match items with
  | [] => None
  | (key, product) :: items' =>
      if Str.contains key query_lower then Some product
      else direct_match items' query_lower
  end.

(** [self.product_data[key]].  [find_product] asks for a key that
    [get_close_matches] took from the keys, so no [KeyError] is raised;
    the model has [None] for a missing key. *)
Fixpoint getitem (items : list (str * ProductEntry)) (key : str)
  : option ProductEntry :=
  match items with
  | [] => None
  | (key', product) :: items' =>
      if bool_decide (key' = key) then Some product else getitem items' key
  end.

(** The fuzzy pass of [find_product]. *)
Definition fuzzy_match (items : list (str * ProductEntry)) (query_lower : str)
  : option ProductEntry :=
  let product_names := fst <$> items in
  let matches := Difflib.get_close_matches query_lower product_names (4 # 10) in
  match matches with
  | key :: _ => getitem items key
  | [] => None
  end.

Definition find_product (self : LuxeloomChatbot) (query : str)
  : option ProductEntry :=
  let query_lower := preprocess_text query in
  match direct_match (product_data self) query_lower with
  | Some product => Some product
  | None => fuzzy_match (product_data self) query_lower
  end.

(** The product card of the ordering branch. *)
Definition order_card (product : ProductEntry) : str :=
  "✨ " ++ name product ++ " ✨" ++ nl ++ nl
  ++ "Price: " ++ price product
  ++ " (Original: " ++ original_price product ++ ") - " ++ discount product
  ++ nl ++ nl ++ description product ++ nl ++ nl
  ++ "To order, WhatsApp us at " ++ whatsapp product ++ "! 📱".

(** The product card of the branch for a product named in the query. *)
Definition product_card (product : ProductEntry) : str :=
  "✨ " ++ name product ++ " ✨" ++ nl ++ nl
  ++ "Price: " ++ price product
  ++ " (Original: " ++ original_price product ++ ") - " ++ discount product
  ++ nl ++ nl ++ description product ++ nl ++ nl
  ++ "To order: WhatsApp +92 307 4674619 📱".

Definition collection_suffix : str :=
  nl ++ nl ++ "Our current collection includes:" ++ nl
  ++ "• Snoopy Tote - PKR 2,125" ++ nl
  ++ "• Sunny Tote - PKR 2,125" ++ nl
  ++ "• Strawberry Miffi Tote - PKR 2,125" ++ nl ++ nl
  ++ "All with 15% OFF!".

Definition collection_listing : str :=
  "🌟 Our Handmade Collection 🌟" ++ nl ++ nl
  ++ "1. Snoopy Tote - PKR 2,125 (15% OFF)" ++ nl
  ++ "2. Sunny Tote - PKR 2,125 (15% OFF)" ++ nl
  ++ "3. Strawberry Miffi Tote - PKR 2,125 (15% OFF)" ++ nl ++ nl
  ++ "Click 'View Details' on any product or ask me about a specific one! 💙".

Definition greeting_words : list str :=
  ["hello"; "hi"; "hey"; "greetings"; "good morning"; "good afternoon"].
Definition thanks_words : list str :=
  ["thanks"; "thank you"; "thx"; "thankyou"; "appreciate"].
Definition mission_words : list str :=
  ["mission"; "purpose"; "about"; "story"; "edhi"; "charity"; "donate"; "proceeds"].
Definition care_words : list str :=
  ["care"; "wash"; "clean"; "maintain"; "instructions"; "how to care"].
Definition ordering_words : list str :=
  ["order"; "buy"; "purchase"; "how to buy"; "how to order"; "price"; "cost";
   "where to buy"].
Definition listing_words : list str :=
  ["products"; "items"; "collection"; "what do you have"; "what's available";
   "show me"].

(** The first statements of [handle_query]: the query is appended to
    [conversation_history], which is cut to its last [max_history * 2]
    entries once it is longer than that. *)
Definition add_to_history (self : LuxeloomChatbot) (query : str) : LuxeloomChatbot :=
  let history := conversation_history self ++ [{| role := "user"; content := query |}] in
  let history :=
    if (max_history self * 2 <? Z.of_nat (length history))%Z
    then Py.slice_from (- max_history self * 2) history
    else history in
  {| product_data := product_data self;
     conversation_history := history;
     max_history := max_history self;
     responses := responses self |}.

(** [handle_query(query)] with the draw [r] of [random.choice]: the
    response and the instance after the call. *)
Definition handle_query (self : LuxeloomChatbot) (r : nat) (query : str)
  : str * LuxeloomChatbot :=
  let query_proc := preprocess_text query in
  let self := add_to_history self query in
  if Str.any_in greeting_words query_proc then
    (Py.choice r (greeting (responses self)), self)
  else if Str.any_in thanks_words query_proc then
    (Py.choice r (thanks (responses self)), self)
  else if Str.any_in mission_words query_proc then
    (Py.choice r (mission (responses self)), self)
  else if Str.any_in care_words query_proc then
    (Py.choice r (care (responses self)), self)
  else if Str.any_in ordering_words query_proc then
    match find_product self query with
    | Some product => (order_card product, self)
    | None => (Py.choice r (ordering (responses self)) ++ collection_suffix, self)
    end
  else
    match find_product self query with
    | Some product => (product_card product, self)
    | None =>
        if Str.any_in listing_words query_proc then (collection_listing, self)
        else (Py.choice r (fallback (responses self)), self)
    end.

(** The loop of [get_products] over [products]; the state is [seen] and
    [unique_products]. *)
Definition unique_step (state : gset str * list ProductEntry) (p : ProductEntry)
  : gset str * list ProductEntry :=
  let '(seen, unique_products) := state in
  if decide (name p ∈ seen) then (seen, unique_products)
  else ({[name p]} ∪ seen, unique_products ++ [p]).

(** The list [unique_products] that the route [/api/products] returns
    under the key ["products"]. *)
Definition get_products (chatbot : LuxeloomChatbot) : list ProductEntry :=
  let products := snd <$> product_data chatbot in
  (foldl unique_step (∅, []) products).2.


(** ** The route [/api/chat] *)

(** What a route returns: the status code and the members of the JSON
    object that [jsonify] is given, in the order of the source. *)
Record HttpResponse := {
  status_code : nat;
  body : list (str * str)
}.

(** [chat()] on the global instance [chatbot], for a request whose JSON
    body is an object in which ["message"], when it is present, is a
    string; [message] is [None] when the key is absent, so that
    [data.get('message', '')] is the empty string.  [handle_query] raises
    nothing on a string, so the [except] branch is not reached from such
    a request. *)
Definition chat (chatbot : LuxeloomChatbot) (r : nat) (message : option str)
  : HttpResponse * LuxeloomChatbot :=
  let user_message := Str.strip (default "" message) in
  if bool_decide (user_message = "") then
    ({| status_code := 400; body := [("error", "Message is required")] |}, chatbot)
  else
    let '(bot_response, chatbot) := handle_query chatbot r user_message in
    ({| status_code := 200;
        body := [("response", bot_response); ("status", "success")] |}, chatbot).

(** ** Vocabulary of the specification *)

(** A lowercase character: one that [lower()] leaves as it is. *)
Definition lowercase (c : N) : Prop := Str.lower [c] = [c].

(** The normalised form as section 4.1 describes it: nothing but lowercase
    alphanumeric characters and whitespace, and no whitespace at either
    end. *)
Definition alnum_and_space_only (r : str) : Prop :=
  Str.Forall (λ c, (Char.isalnum c || Char.isspace c = true) ∧ lowercase c) r.

Definition trimmed (r : str) : Prop := Str.strip r = r.

(** The entry that one call adds to the log. *)
Definition user_message (query : str) : Message :=
  {| role := "user"; content := query |}.

(** The last [n] elements of a list, in their order. *)
Definition most_recent {A} (n : nat) (l : list A) : list A :=
  drop (length l - n) l.

(** A sequence of calls of [handle_query] on one instance, each with its
    draw and its query; the responses are dropped. *)
Definition run (self : LuxeloomChatbot) (calls : list (nat * str)) : LuxeloomChatbot :=
  foldl (λ self call, (handle_query self call.1 call.2).2) self calls.

(** The instance [self] with another log. *)
Definition with_history (self : LuxeloomChatbot) (history : list Message)
  : LuxeloomChatbot :=
  {| product_data := product_data self;
     conversation_history := history;
     max_history := max_history self;
     responses := responses self |}.

(** The intents of section 4.3, in the priority order it gives. *)
Inductive Intent :=
  | Greeting | Thanks | Mission | Care | Ordering | Product | Listing | Fallback.

Definition priority_order : list Intent :=
  [Greeting; Thanks; Mission; Care; Ordering; Product; Listing; Fallback].

(** The keywords of each rule that has keywords. *)
Definition keywords (intent : Intent) : list str :=
  match intent with
  | Greeting => greeting_words
  | Thanks => thanks_words
  | Mission => mission_words
  | Care => care_words
  | Ordering => ordering_words
  | Listing => listing_words
  | Product | Fallback => []
  end.

(** The condition of each rule. *)
Definition rule_matches (self : LuxeloomChatbot) (query : str) (intent : Intent)
  : bool :=
  let query_proc := preprocess_text query in
  match intent with
  | Greeting => Str.any_in greeting_words query_proc
  | Thanks => Str.any_in thanks_words query_proc
  | Mission => Str.any_in mission_words query_proc
  | Care => Str.any_in care_words query_proc
  | Ordering => Str.any_in ordering_words query_proc
  | Product => match find_product self query with Some _ => true | None => false end
  | Listing => Str.any_in listing_words query_proc
  | Fallback => true
  end.

(** The response of each rule. *)
Definition rule_response (self : LuxeloomChatbot) (r : nat) (query : str)
    (intent : Intent) : str :=
  match intent with
  | Greeting => Py.choice r (greeting (responses self))
  | Thanks => Py.choice r (thanks (responses self))
  | Mission => Py.choice r (mission (responses self))
  | Care => Py.choice r (care (responses self))
  | Ordering =>
      match find_product self query with
      | Some product => order_card product
      | None => Py.choice r (ordering (responses self)) ++ collection_suffix
      end
  | Product => from_option product_card "" (find_product self query)
  | Listing => collection_listing
  | Fallback => Py.choice r (fallback (responses self))
  end.

(** The first rule of the priority order whose condition holds. *)
Definition first_match (self : LuxeloomChatbot) (query : str) : Intent :=
  default Fallback (List.find (rule_matches self query) priority_order).

(** The products of [l], in order, whose name is not in [seen] and does
    not occur earlier in [l]. *)
Fixpoint first_by_name (seen : gset str) (l : list ProductEntry)
  : list ProductEntry :=
  match l with
  | [] => []
  | p :: l' =>
      if decide (name p ∈ seen) then first_by_name seen l'
      else p :: first_by_name ({[name p]} ∪ seen) l'
  end.

(** Punctuation as section 4.1 describes it: what is neither
    alphanumeric nor whitespace. *)
Definition punctuation (c : N) : bool :=
  negb (Char.isalnum c || Char.isspace c).

(** The characters that the pattern of [preprocess_text] keeps, and
    those that it deletes: all punctuation but the underscore. *)
Definition kept (c : N) : bool := Char.isword c || Char.isspace c.

Definition deleted (c : N) : bool := negb (kept c).

(** [exposed s]: [s] starts with one or more characters that the pattern
    deletes, and whitespace follows them. *)
Fixpoint exposed (s : str) : bool :=
  match s with
  | [] => false
  | c :: s' => deleted c && (from_option Char.isspace false (head s') || exposed s')
  end.

(** [decorated punct alias query]: [query] is [alias] with the case of
    its characters varied and characters of the class [punct] added
    anywhere. *)
Inductive decorated (punct : N → bool) : str → str → Prop :=
  | decorated_end : decorated punct "" ""
  | decorated_punctuation c alias query :
      punct c = true →
      decorated punct alias query → decorated punct alias (c :: query)
  | decorated_case c c' alias query :
      Str.lower [c'] = [c] →
      decorated punct alias query → decorated punct (c :: alias) (c' :: query).

(** *** The code points that [lower()] changes *)

(** The code points from [first] to [last]. *)
Definition range_points (first last : N) : list N :=
  Z.to_N <$> seqZ (Z.of_N first) (Z.of_N last - Z.of_N first + 1).

(** The code points of a list of ranges. *)
Definition points (ranges : list (N * N)) : list N :=
  range ← ranges; range_points range.1 range.2.

(** The code points of a group of the table [Unicode.lowercase]. *)
Definition group_points (group : N * N * N * N) : list N :=
  List.filter (λ c, Unicode.in_group c group) (range_points group.1.1.1 group.1.1.2).

(** The code points that have a lowercase mapping, and the capital
    sigma: [lower()] leaves every other character as it is. *)
Definition changed_by_lower : list N :=
  0x3A3%N :: Unicode.lowercase_extended.*1 ++ (Unicode.lowercase ≫= group_points).

(** What a character can become in [lower()]. *)
Definition lowerings (c : N) : list str :=
  if (c =? 0x3A3)%N then [[0x3C2%N]; [0x3C3%N]] else [Char.tolower_full c].

(** What [lower()] does to the characters it changes, in the terms of
    the normaliser: the result is in lowercase; a character that is not
    whitespace does not vanish and gives no whitespace; a character that
    the pattern deletes gives only such characters; and at most one
    character of the result is kept by the pattern. *)
Definition lowering_ok (c : N) (l : str) : Prop :=
  Forall (λ x, x ≠ 0x3A3%N ∧ Char.tolower_full x = [x]) l
  ∧ (Char.isspace c = false → l ≠ [] ∧ Forall (λ x, Char.isspace x = false) l)
  ∧ (deleted c = true → Forall (λ x, deleted x = true) l)
  ∧ length (Str.filter kept l) ≤ 1.

Definition lowering_okb (c : N) (l : str) : bool :=
  forallb (λ x, negb (x =? 0x3A3)%N && bool_decide (Char.tolower_full x = [x])) l
  && (Char.isspace c
      || negb (bool_decide (l = [])) && forallb (λ x, negb (Char.isspace x)) l)
  && (negb (deleted c) || forallb deleted l)
  && (length (Str.filter kept l) <=? 1).

(** Whitespace is left as it is by [lower()], is not a word character,
    and is neither cased nor case-ignorable. *)
Definition whitespace_ok (c : N) : Prop :=
  c ≠ 0x3A3%N ∧ Char.tolower_full c = [c]
  ∧ Char.isword c = false
  ∧ Char.iscased c = false ∧ Char.iscaseignorable c = false.

#[global] Instance whitespace_ok_dec c : Decision (whitespace_ok c).
Proof. unfold whitespace_ok. apply _. Defined.

(** Vocabulary for the matching blocks of [difflib]. *)

Section difflib_vocabulary.
Context `{Countable A}.
Implicit Types (a b : list A) (b2j : gmap A (list nat)).

(** The block [x] pairs equal elements of [a] and [b]. *)
Definition matched a b (x : Difflib.Match) : Prop :=
  ∀ t, t < x.2 → ∃ c, a !! (x.1.1 + t) = Some c ∧ b !! (x.1.2 + t) = Some c.

(** [b2j] lists, for an element, positions of [b] that hold it. *)
Definition b2j_sound b b2j : Prop :=
  ∀ c js j, b2j !! c = Some js → j ∈ js → b !! j = Some c.

(** [l[lo:hi]] *)
Definition segment (l : list A) (lo hi : nat) : list A :=
  take (hi - lo) (drop lo l).

(** The number of elements that two sequences have in common, counted
    with multiplicity. *)
Definition common (x y : list A) : nat :=
  size (list_to_set_disj x ∩ list_to_set_disj y : gmultiset A).

Definition range_common a b (r : Difflib.Range) : nat :=
  let '(alo, ahi, blo, bhi) := r in
  common (segment a alo ahi) (segment b blo bhi).

(** The measure that decreases at every turn of the loop of
    [get_matching_blocks]. *)
Definition queue_measure (queue : list Difflib.Range) : nat :=
  sum_list_with (λ r : Difflib.Range, 2 * (r.1.1.2 - r.1.1.1) + 1) queue.

(** The invariants of [find_longest_match] in the range
    [(alo, ahi, blo, bhi)]: [j2len] maps [j] to the length of a match
    that ends before row [i] and at [j]; [best] lies in the range, above
    row [n]. *)
Definition row_ok a b (alo blo bhi i : nat) (j2len : gmap nat nat) : Prop :=
  ∀ j k, j2len !! j = Some k →
    0 < k ∧ k + alo ≤ i ∧ k + blo ≤ j + 1 ∧ j < bhi
    ∧ matched a b (i - k, j + 1 - k, k).

Definition best_ok a b (alo blo bhi n : nat) (best : Difflib.Match) : Prop :=
  let '(besti, bestj, bestsize) := best in
  alo ≤ besti ∧ blo ≤ bestj
  ∧ ((bestsize = 0 ∧ besti = alo ∧ bestj = blo)
     ∨ (0 < bestsize ∧ besti + bestsize ≤ n ∧ bestj + bestsize ≤ bhi))
  ∧ matched a b best.

(** The number that [quick_ratio] reads for [elt]: [avail[elt]] when it
    is there, and [fullbcount.get(elt, 0)] when not. *)
Definition available (fullbcount : gmap A nat) (avail : gmap A Z) (elt : A) : Z :=
  match avail !! elt with
  | Some numb => numb
  | None => Z.of_nat (default 0 (fullbcount !! elt))
  end.

End difflib_vocabulary.

(** The order of the pairs [(score, x)]: by score, and by the order of
    strings at equal scores. *)
Definition scored_le (x y : Difflib.Scored) : Prop :=
  (x.1 < y.1)%Q ∨ ((x.1 == y.1)%Q ∧ Str.le x.2 y.2).

(** The similarity ratio that [get_close_matches] computes for a
    possibility [x] and the word [word]. *)
Definition similarity (x word : str) : Q :=
  Difflib.ratio x word (Difflib.chain_b word).

(** * Properties *)

(** ** The Unicode tables *)

Section unicode_facts.
Implicit Types (c x : N) (l s : str).
#[local] Arguments Unicode.in_group : simpl never.

Lemma elem_of_range_points first last c :
  (first ≤ c)%N → (c ≤ last)%N → c ∈ range_points first last.
Proof.
  intros ??. unfold range_points. apply list_elem_of_fmap. exists (Z.of_N c).
  split; [by rewrite N2Z.id|]. apply elem_of_seqZ. lia.
Qed.

Lemma in_ranges_points c ranges :
  Unicode.in_ranges c ranges = true → c ∈ points ranges.
Proof.
  unfold points. induction ranges as [|[first last] ranges IH]; [done|].
  rewrite bind_cons, elem_of_app. simpl.
  destruct (N.ltb_spec c first); [done|].
  destruct (N.leb_spec c last); [|by auto].
  intros _. left. by apply elem_of_range_points.
Qed.

Lemma in_group_points c group :
  Unicode.in_group c group = true → c ∈ group_points group.
Proof.
  destruct group as [[[first last] step] lower]. intros H.
  unfold group_points. apply list_elem_of_In, filter_In. split; [|done].
  apply list_elem_of_In. simpl.
  apply andb_true_iff in H as [[H1 H2]%andb_true_iff _].
  apply elem_of_range_points; by apply N.leb_le.
Qed.

Lemma tolower_changed c groups :
  Unicode.tolower c groups ≠ c → c ∈ groups ≫= group_points.
Proof.
  induction groups as [|[[[first last] step] lower] groups IH]; [done|].
  rewrite bind_cons, elem_of_app. simpl.
  destruct (Unicode.in_group c (first, last, step, lower)) eqn:E.
  - intros _. left. by apply in_group_points.
  - intros H. right. auto.
Qed.

Lemma extended_changed c table mapped :
  Unicode.extended c table = Some mapped → c ∈ table.*1.
Proof.
  induction table as [|[c' mapped'] table IH]; simpl; [done|].
  destruct (N.eqb_spec c' c) as [->|_]; [by left|]. right. auto.
Qed.

(** The characters that [lower()] leaves as they are. *)
Lemma unchanged_by_lower c :
  c ∉ changed_by_lower → c ≠ 0x3A3%N ∧ Char.tolower_full c = [c].
Proof.
  unfold changed_by_lower. rewrite not_elem_of_cons, not_elem_of_app.
  intros (? & H1 & H2). split; [done|]. unfold Char.tolower_full.
  destruct (Unicode.extended c _) eqn:E; [by apply extended_changed in E|].
  f_equal. destruct (decide (Unicode.tolower c Unicode.lowercase = c)) as [|Hne]; [done|].
  by apply tolower_changed in Hne.
Qed.

Lemma lowering_okb_ok c l : lowering_okb c l = true → lowering_ok c l.
Proof.
  unfold lowering_okb, lowering_ok.
  rewrite !andb_true_iff, !orb_true_iff, andb_true_iff, !negb_true_iff.
  rewrite !forallb_forall, Nat.leb_le, bool_decide_eq_false.
  intros (((Hl & Hs) & Hd) & Hk). repeat split.
  - apply Forall_forall. intros x Hx%list_elem_of_In. specialize (Hl x Hx).
    apply andb_true_iff in Hl as [Hx1%negb_true_iff%N.eqb_neq Hx2%bool_decide_eq_true].
    done.
  - destruct Hs as [?|[? _]]; [congruence|done].
  - destruct Hs as [?|[_ Hs]]; [congruence|].
    apply Forall_forall. intros x Hx%list_elem_of_In.
    by apply negb_true_iff, Hs.
  - intros Hc. destruct Hd as [?|Hd]; [congruence|].
    apply Forall_forall. intros x Hx%list_elem_of_In. by apply Hd.
  - done.
Qed.

(** The characters that it changes, one by one. *)
Lemma lowerings_ok : Forall (λ c, Forall (lowering_ok c) (lowerings c)) changed_by_lower.
Proof.
  assert (H : forallb (λ c, forallb (lowering_okb c) (lowerings c)) changed_by_lower
              = true) by (vm_compute; reflexivity).
  rewrite forallb_forall in H. apply Forall_forall. intros c Hc%list_elem_of_In.
  specialize (H c Hc). rewrite forallb_forall in H.
  apply Forall_forall. intros l Hl%list_elem_of_In. by apply lowering_okb_ok, H.
Qed.

Lemma whitespace_points_ok : Forall whitespace_ok (points Unicode.whitespace).
Proof. apply (bool_decide_unpack _). vm_compute. exact I. Qed.

Lemma lower_ucs4_ok before c after : lowering_ok c (Str.lower_ucs4 before c after).
Proof.
  destruct (decide (c ∈ changed_by_lower)) as [Hc|Hc].
  - assert (H := proj1 (Forall_forall _ _) lowerings_ok c Hc).
    apply (proj1 (Forall_forall _ _) H). unfold Str.lower_ucs4, lowerings.
    destruct (c =? 0x3A3)%N; [|by left].
    destruct (Str.final_sigma before after); [left|right; left].
  - apply unchanged_by_lower in Hc as [Hs Hl].
    unfold Str.lower_ucs4. rewrite (proj2 (N.eqb_neq _ _) Hs), Hl.
    split; [by repeat constructor|]. split; [by repeat constructor|].
    split; [by repeat constructor|]. simpl. destruct (kept c); simpl; lia.
Qed.

Lemma isspace_ok c : Char.isspace c = true → whitespace_ok c.
Proof.
  intros H. apply (proj1 (Forall_forall _ _) whitespace_points_ok).
  by apply in_ranges_points.
Qed.

Lemma isword_not_isspace c : Char.isword c = true → Char.isspace c = false.
Proof.
  intros Hw. destruct (Char.isspace c) eqn:Hs; [|done].
  apply isspace_ok in Hs as (_ & _ & Hw' & _). congruence.
Qed.

Lemma isword_alnum_or_underscore c :
  Char.isword c = true ↔ Char.isalnum c = true ∨ c = Char.ord "_".
Proof. unfold Char.isword. by rewrite orb_true_iff, N.eqb_eq. Qed.

Lemma deleted_not_isspace c : deleted c = true → Char.isspace c = false.
Proof. unfold deleted, kept. rewrite negb_true_iff, orb_false_iff. tauto. Qed.

End unicode_facts.

(** ** Strings *)

Section string_facts.
Implicit Types (s t k before after : str) (c : N).

(** A literal is the list of the code points of its text. *)
Lemma literal_code_points :
  "hi 👋" = [0x68; 0x69; 0x20; 0x1F44B]%N ∧ Char.ord "_" = 0x5F%N.
Proof. split; reflexivity. Qed.

Lemma str_Forall_impl (P Q : N → Prop) s :
  (∀ c, P c → Q c) → Str.Forall P s → Str.Forall Q s.
Proof. intros HPQ. induction s; simpl; [done|]. intros [??]; auto. Qed.

Lemma str_Forall_app P s t :
  Str.Forall P (s ++ t) ↔ Str.Forall P s ∧ Str.Forall P t.
Proof. induction s as [|c s IH]; simpl; [tauto|]. rewrite IH. tauto. Qed.

Lemma str_Forall_Forall P s : Str.Forall P s ↔ Forall P s.
Proof. induction s as [|c s IH]; simpl; [by split|]. by rewrite Forall_cons, IH. Qed.

(** A character is in lowercase when it has no lowercase mapping and
    is not the capital sigma. *)
Lemma lowercase_spec c : lowercase c ↔ c ≠ 0x3A3%N ∧ Char.tolower_full c = [c].
Proof.
  unfold lowercase, Str.lower. simpl. rewrite app_nil_r. unfold Str.lower_ucs4.
  destruct (N.eqb_spec c 0x3A3) as [->|Hne].
  - split; [discriminate|by intros [? _]].
  - tauto.
Qed.

Lemma lower_ucs4_lowercase before c after :
  Str.Forall lowercase (Str.lower_ucs4 before c after).
Proof.
  apply str_Forall_Forall. destruct (lower_ucs4_ok before c after) as [H _].
  eapply Forall_impl; [exact H|]. intros x. by rewrite lowercase_spec.
Qed.

Lemma lower_ucs4_fixed before c after :
  lowercase c → Str.lower_ucs4 before c after = [c].
Proof.
  intros [Hne E]%lowercase_spec. unfold Str.lower_ucs4.
  by rewrite (proj2 (N.eqb_neq _ _) Hne).
Qed.

Lemma do_lower_lowercase before s : Str.Forall lowercase (Str.do_lower before s).
Proof.
  revert before. induction s as [|c s IH]; intros before; simpl; [done|].
  apply str_Forall_app. split; [apply lower_ucs4_lowercase|apply IH].
Qed.

Lemma str_Forall_lower s : Str.Forall lowercase (Str.lower s).
Proof. apply do_lower_lowercase. Qed.

Lemma do_lower_fixed before s : Str.Forall lowercase s → Str.do_lower before s = s.
Proof.
  revert before. induction s as [|c s IH]; intros before; simpl; [done|].
  intros [Hc Hs]. by rewrite lower_ucs4_fixed, IH.
Qed.

Lemma str_lower_fixed s : Str.Forall lowercase s → Str.lower s = s.
Proof. apply do_lower_fixed. Qed.

Lemma str_Forall_lstrip P s : Str.Forall P s → Str.Forall P (Str.lstrip s).
Proof.
  induction s as [|c s IH]; simpl; [done|]. intros [??].
  destruct (Char.isspace c); simpl; auto.
Qed.

Lemma str_Forall_rstrip P s : Str.Forall P s → Str.Forall P (Str.rstrip s).
Proof.
  induction s as [|c s IH]; simpl; [done|]. intros [? Hs].
  specialize (IH Hs). destruct (Str.rstrip s); [|by simpl].
  destruct (Char.isspace c); by simpl.
Qed.

Lemma str_Forall_strip P s : Str.Forall P s → Str.Forall P (Str.strip s).
Proof. intros. by apply str_Forall_rstrip, str_Forall_lstrip. Qed.

Lemma str_Forall_filter P keep s : Str.Forall P s → Str.Forall P (Str.filter keep s).
Proof.
  induction s as [|c s IH]; simpl; [done|]. intros [??].
  destruct (keep c); simpl; auto.
Qed.

Lemma str_Forall_filter_keep keep s : Str.Forall (λ c, keep c = true) (Str.filter keep s).
Proof.
  induction s as [|c s IH]; simpl; [done|].
  destruct (keep c) eqn:?; simpl; auto.
Qed.

Lemma str_filter_all keep s : Str.Forall (λ c, keep c = true) s → Str.filter keep s = s.
Proof. induction s; simpl; [done|]. intros [E ?]. rewrite E. f_equal; auto. Qed.

Lemma str_filter_none keep s :
  Str.Forall (λ c, keep c = false) s → Str.filter keep s = [].
Proof. induction s; simpl; [done|]. intros [E ?]. rewrite E. auto. Qed.

Lemma str_filter_app keep s t :
  Str.filter keep (s ++ t) = Str.filter keep s ++ Str.filter keep t.
Proof.
  induction s as [|c s IH]; simpl; [done|]. destruct (keep c); by rewrite IH.
Qed.

Lemma str_filter_filter keep1 keep2 s :
  Str.filter keep1 (Str.filter keep2 s) = Str.filter (λ c, keep2 c && keep1 c) s.
Proof.
  induction s as [|c s IH]; simpl; [done|].
  destruct (keep2 c); simpl; [|done]. destruct (keep1 c); by rewrite IH.
Qed.

Lemma str_filter_ext keep1 keep2 s :
  (∀ c, keep1 c = keep2 c) → Str.filter keep1 s = Str.filter keep2 s.
Proof. intros E. induction s as [|c s IH]; simpl; [done|]. by rewrite E, IH. Qed.

(** What [rstrip] leaves starts like the string it was given. *)
Lemma rstrip_cons c s :
  Str.rstrip (c :: s) = [] ∨ ∃ r, Str.rstrip (c :: s) = c :: r.
Proof.
  simpl. destruct (Str.rstrip s); [|eauto]. destruct (Char.isspace c); eauto.
Qed.

Lemma rstrip_rstrip s : Str.rstrip (Str.rstrip s) = Str.rstrip s.
Proof.
  induction s as [|c s IH]; simpl; [done|].
  destruct (Str.rstrip s) as [|c' r] eqn:E.
  - destruct (Char.isspace c) eqn:Ec; simpl; [done|]. by rewrite Ec.
  - simpl in *. by rewrite IH.
Qed.

Lemma lstrip_head s :
  Str.lstrip s = [] ∨ ∃ c r, Str.lstrip s = c :: r ∧ Char.isspace c = false.
Proof.
  induction s as [|c s IH]; simpl; [by left|].
  destruct (Char.isspace c) eqn:?; [done|]. right; eauto.
Qed.

Lemma lstrip_nonspace c s : Char.isspace c = false → Str.lstrip (c :: s) = c :: s.
Proof. simpl. by intros ->. Qed.

(** A stripped string has no whitespace at either end: stripping it
    again changes nothing. *)
Lemma strip_strip s : Str.strip (Str.strip s) = Str.strip s.
Proof.
  unfold Str.strip.
  destruct (lstrip_head s) as [->|(c & r & -> & Hc)]; [done|].
  destruct (rstrip_cons c r) as [->|[r' E]]; [done|].
  by rewrite E, lstrip_nonspace, <- E, rstrip_rstrip.
Qed.

Lemma preprocess_text_chars s :
  Str.Forall (λ c, (Char.isword c || Char.isspace c = true) ∧ lowercase c)
             (preprocess_text s).
Proof.
  unfold preprocess_text, Str.re_sub_not_word_space.
  set (keep := λ c, Char.isword c || Char.isspace c).
  assert (Hk := str_Forall_filter_keep keep (Str.strip (Str.lower s))).
  assert (Hl : Str.Forall lowercase (Str.filter keep (Str.strip (Str.lower s)))).
  { apply str_Forall_filter, str_Forall_strip, str_Forall_lower. }
  revert Hk Hl. generalize (Str.filter keep (Str.strip (Str.lower s))).
  intros t. induction t; simpl; [done|]. intros [??] [??]. auto.
Qed.

(** Normalising a normalised string only strips it. *)
Lemma preprocess_text_twice s :
  preprocess_text (preprocess_text s) = Str.strip (preprocess_text s).
Proof.
  assert (Hc := preprocess_text_chars s).
  unfold preprocess_text at 1.
  rewrite str_lower_fixed by (eapply str_Forall_impl; [|exact Hc]; by intros c [_ ?]).
  apply str_filter_all, str_Forall_strip.
  eapply str_Forall_impl; [|exact Hc]. by intros c [? _].
Qed.

End string_facts.

(** ** The text normaliser *)

Section normalizer.
Implicit Types (s t r sp : str) (c x : N).

Lemma rstrip_last s c :
  last s = Some c → Char.isspace c = false → Str.rstrip s = s.
Proof.
  induction s as [|c' s IH]; [done|]. intros Hl Hc.
  destruct s as [|c'' s].
  - simpl in *. injection Hl as ->. by rewrite Hc.
  - rewrite last_cons_cons in Hl.
    change (Str.rstrip (c' :: c'' :: s))
      with (match Str.rstrip (c'' :: s) with
            | [] => if Char.isspace c' then [] else [c']
            | r => c' :: r
            end).
    by rewrite (IH Hl Hc).
Qed.

Lemma rstrip_last_nonspace s c :
  last (Str.rstrip s) = Some c → Char.isspace c = false.
Proof.
  induction s as [|c' s IH]; simpl; [done|].
  destruct (Str.rstrip s) as [|c'' r].
  - destruct (Char.isspace c') eqn:E; [done|]. by intros [= <-].
  - rewrite last_cons_cons. exact IH.
Qed.

Lemma strip_head_nonspace s c :
  head (Str.strip s) = Some c → Char.isspace c = false.
Proof.
  unfold Str.strip.
  destruct (lstrip_head s) as [->|(c' & r & -> & Hc)]; [done|].
  destruct (rstrip_cons c' r) as [->|[r' ->]]; [done|]. by intros [= <-].
Qed.

Lemma strip_last_nonspace s c :
  last (Str.strip s) = Some c → Char.isspace c = false.
Proof. apply rstrip_last_nonspace. Qed.

(** A string with no whitespace at its two ends is left as it is by
    [strip()]. *)
Lemma strip_edges s :
  (∀ c, head s = Some c → Char.isspace c = false) →
  (∀ c, last s = Some c → Char.isspace c = false) →
  Str.strip s = s.
Proof.
  intros Hh Hl. unfold Str.strip. destruct s as [|c s]; [done|].
  rewrite lstrip_nonspace by (by apply Hh).
  destruct (last (c :: s)) as [c'|] eqn:E.
  - eapply rstrip_last; [done|]. by apply Hl.
  - by apply last_None in E.
Qed.

Lemma lstrip_spaces sp : Str.Forall (λ c, Char.isspace c = true) sp → Str.lstrip sp = [].
Proof. induction sp as [|c sp IH]; simpl; [done|]. intros [-> ?]. auto. Qed.

Lemma rstrip_spaces sp : Str.Forall (λ c, Char.isspace c = true) sp → Str.rstrip sp = [].
Proof. induction sp as [|c sp IH]; simpl; [done|]. intros [-> ?]. by rewrite IH. Qed.

Lemma lstrip_empty s : Str.lstrip s = [] ↔ Str.Forall (λ c, Char.isspace c = true) s.
Proof.
  induction s as [|c s IH]; simpl; [tauto|].
  destruct (Char.isspace c); [rewrite IH; tauto|]. split; [done|]. by intros [? _].
Qed.

Lemma lstrip_app s t :
  Str.lstrip (s ++ t) = match Str.lstrip s with [] => Str.lstrip t | r => r ++ t end.
Proof.
  induction s as [|c s IH]; simpl; [done|]. by destruct (Char.isspace c).
Qed.

Lemma rstrip_app_spaces s sp :
  Str.Forall (λ c, Char.isspace c = true) sp → Str.rstrip (s ++ sp) = Str.rstrip s.
Proof.
  intros Hsp. induction s as [|c s IH]; simpl; [by apply rstrip_spaces|].
  by rewrite IH.
Qed.

(** What [rstrip] takes away is whitespace. *)
Lemma rstrip_split s :
  ∃ sp, s = Str.rstrip s ++ sp ∧ Str.Forall (λ c, Char.isspace c = true) sp.
Proof.
  induction s as [|c s (sp & E & Hsp)]; simpl; [by exists []|].
  destruct (Str.rstrip s) as [|c' r].
  - destruct (Char.isspace c) eqn:Hc.
    + exists (c :: sp). simpl in E. subst sp. simpl. auto.
    + exists sp. simpl in E. subst sp. auto.
  - exists sp. split; [|done]. simpl. f_equal. exact E.
Qed.

Lemma lstrip_split s :
  ∃ sp, s = sp ++ Str.lstrip s ∧ Str.Forall (λ c, Char.isspace c = true) sp.
Proof.
  induction s as [|c s (sp & E & Hsp)]; simpl; [by exists []|].
  destruct (Char.isspace c) eqn:Hc.
  - exists (c :: sp). simpl. by rewrite <- E.
  - by exists [].
Qed.

Lemma strip_app_spaces s sp :
  Str.Forall (λ c, Char.isspace c = true) sp → Str.strip (s ++ sp) = Str.strip s.
Proof.
  intros Hsp. unfold Str.strip. rewrite lstrip_app.
  destruct (Str.lstrip s) as [|c r] eqn:E.
  - by rewrite lstrip_spaces.
  - by rewrite rstrip_app_spaces.
Qed.

Lemma strip_spaces_app s sp :
  Str.Forall (λ c, Char.isspace c = true) sp → Str.strip (sp ++ s) = Str.strip s.
Proof. intros Hsp. unfold Str.strip. by rewrite lstrip_app, lstrip_spaces. Qed.

Lemma filter_kept_spaces sp :
  Str.Forall (λ c, Char.isspace c = true) sp → Str.filter kept sp = sp.
Proof.
  intros Hsp. apply str_filter_all. eapply str_Forall_impl; [|exact Hsp].
  intros c Hc. unfold kept. by rewrite Hc, orb_true_r.
Qed.

(** Deleting before stripping and stripping before deleting give the
    same string once it is stripped. *)
Lemma strip_filter_strip s :
  Str.strip (Str.filter kept (Str.strip s)) = Str.strip (Str.filter kept s).
Proof.
  destruct (lstrip_split s) as (sp1 & E1 & Hsp1).
  destruct (rstrip_split (Str.lstrip s)) as (sp2 & E2 & Hsp2).
  fold (Str.strip s) in E2. rewrite E1 at 2. rewrite E2.
  rewrite !str_filter_app.
  rewrite (filter_kept_spaces sp1), (filter_kept_spaces sp2) by done.
  by rewrite strip_spaces_app, strip_app_spaces.
Qed.

Lemma str_filter_reverse keep s :
  Str.filter keep (reverse s) = reverse (Str.filter keep s).
Proof.
  induction s as [|c s IH]; simpl; [done|].
  rewrite reverse_cons, str_filter_app, IH. simpl.
  destruct (keep c); [by rewrite reverse_cons|by rewrite app_nil_r].
Qed.

(** When what the pattern leaves starts with whitespace, the string
    itself does, or the whitespace was behind deleted characters. *)
Lemma filter_head_exposed t x :
  head (Str.filter kept t) = Some x → Char.isspace x = true →
  from_option Char.isspace false (head t) = true ∨ exposed t = true.
Proof.
  induction t as [|c t IH]; simpl; [done|]. unfold deleted.
  destruct (kept c); simpl.
  - intros [= ->] ?. by left.
  - intros Hx Hs. right. destruct (IH Hx Hs) as [->| ->]; [done|].
    by rewrite orb_true_r.
Qed.

Lemma not_exposed_trimmed t :
  exposed (Str.strip t) = false → exposed (reverse (Str.strip t)) = false →
  trimmed (Str.filter kept (Str.strip t)).
Proof.
  intros He1 He2. apply strip_edges.
  - intros x Hx. destruct (Char.isspace x) eqn:Hs; [|done].
    destruct (filter_head_exposed _ _ Hx Hs) as [Hh|?]; [|congruence].
    destruct (head (Str.strip t)) as [c|] eqn:Ec; [|done].
    apply strip_head_nonspace in Ec. simpl in Hh. congruence.
  - intros x Hx. destruct (Char.isspace x) eqn:Hs; [|done].
    rewrite <- head_reverse, <- str_filter_reverse in Hx.
    destruct (filter_head_exposed _ _ Hx Hs) as [Hh|?]; [|congruence].
    rewrite head_reverse in Hh.
    destruct (last (Str.strip t)) as [c|] eqn:Ec; [|done].
    apply strip_last_nonspace in Ec. simpl in Hh. congruence.
Qed.

Lemma exposed_filter_head t :
  exposed t = true →
  ∃ x, head (Str.filter kept t) = Some x ∧ Char.isspace x = true.
Proof.
  induction t as [|c t IH]; simpl; [done|]. unfold deleted.
  destruct (kept c) eqn:Hc; simpl; [done|].
  intros [Hh|He]%orb_true_iff; [|by apply IH].
  destruct t as [|x t]; simpl in *; [done|]. exists x.
  unfold kept. by rewrite Hh, orb_true_r.
Qed.

(** The condition is exact: the result has whitespace at an end
    exactly when whitespace comes next to a run of deleted characters
    at that end of the stripped string. *)
Lemma trimmed_iff_not_exposed t :
  trimmed (Str.filter kept (Str.strip t))
  ↔ exposed (Str.strip t) = false ∧ exposed (reverse (Str.strip t)) = false.
Proof.
  split; [|intros [??]; by apply not_exposed_trimmed].
  unfold trimmed. intros Ht. split.
  - destruct (exposed (Str.strip t)) eqn:He; [|done].
    apply exposed_filter_head in He as (x & Hx & Hs).
    rewrite <- Ht in Hx. apply strip_head_nonspace in Hx. congruence.
  - destruct (exposed (reverse (Str.strip t))) eqn:He; [|done].
    apply exposed_filter_head in He as (x & Hx & Hs).
    rewrite str_filter_reverse, head_reverse, <- Ht in Hx.
    apply strip_last_nonspace in Hx. congruence.
Qed.

(** C1 fails in the code: the leading dash of ["- hi"] is deleted after
    the string was stripped, which leaves [" hi"] with the blank that
    followed the dash, and normalising [" hi"] gives ["hi"]. *)
Lemma preprocess_text_not_idempotent :
  preprocess_text "- hi" = " hi"
  ∧ preprocess_text " hi" = "hi"
  ∧ preprocess_text (preprocess_text "- hi") ≠ preprocess_text "- hi".
Proof.
  split; [vm_compute; reflexivity|]. split; [vm_compute; reflexivity|].
  vm_compute. discriminate.
Qed.

(** Normalising a normalised string strips it and does nothing else, so
    a third application changes nothing any more. *)
Lemma preprocess_text_thrice s :
  preprocess_text (preprocess_text s) = Str.strip (preprocess_text s)
  ∧ preprocess_text (preprocess_text (preprocess_text s))
    = preprocess_text (preprocess_text s).
Proof.
  split; [apply preprocess_text_twice|].
  by rewrite !preprocess_text_twice, strip_strip.
Qed.

(** C2, as the specification states it, fails twice: the underscore is
    a word character of the pattern and stays, though it is not
    alphanumeric; and the blank before the exclamation mark of
    ["Snoopy_Tote !"] stays at the end of the result, because the
    string is stripped before the exclamation mark is deleted. *)
Lemma preprocess_text_keeps_underscore :
  preprocess_text "Snoopy_Tote!" = "snoopy_tote"
  ∧ ¬ alnum_and_space_only (preprocess_text "Snoopy_Tote!")
  ∧ preprocess_text "Snoopy_Tote !" = "snoopy_tote "
  ∧ ¬ trimmed (preprocess_text "Snoopy_Tote !").
Proof.
  split; [vm_compute; reflexivity|]. split.
  { vm_compute. intros (_ & _ & _ & _ & _ & _ & [E _] & _). discriminate. }
  split; [vm_compute; reflexivity|]. vm_compute. discriminate.
Qed.

(** C2, amended: the result consists of lowercase alphanumeric
    characters, underscores and whitespace; stripped of the whitespace
    at its ends, it is the normal form of the input: the input in
    lowercase, without the characters that are neither alphanumeric,
    nor the underscore, nor whitespace, and stripped; and the result is
    that normal form, with no whitespace at its ends, for every input
    that, in lowercase and stripped, has at neither end a run of
    deleted characters with whitespace next to it. *)
Theorem preprocess_text_spec s :
  let normal :=
    Str.strip
      (Str.filter (λ c, Char.isalnum c || bool_decide (c = Char.ord "_")
                        || Char.isspace c)
                  (Str.lower s)) in
  Str.Forall (λ c, (Char.isalnum c = true ∨ c = Char.ord "_" ∨ Char.isspace c = true)
                   ∧ lowercase c)
             (preprocess_text s)
  ∧ Str.strip (preprocess_text s) = normal
  ∧ (exposed (Str.strip (Str.lower s)) = false →
     exposed (reverse (Str.strip (Str.lower s))) = false →
     preprocess_text s = normal ∧ trimmed (preprocess_text s)).
Proof.
  intros normal.
  assert (Hn : Str.strip (preprocess_text s) = normal).
  { unfold normal, preprocess_text, Str.re_sub_not_word_space. fold kept.
    rewrite strip_filter_strip. f_equal. apply str_filter_ext. intros c.
    unfold kept, Char.isword. do 2 f_equal.
    apply eq_true_iff_eq. by rewrite N.eqb_eq, bool_decide_eq_true. }
  split; [|split; [exact Hn|]].
  - eapply str_Forall_impl; [|apply preprocess_text_chars].
    intros c [Hk ?]. split; [|done].
    apply orb_true_iff in Hk as [Hw|?]; [|by auto].
    apply isword_alnum_or_underscore in Hw. tauto.
  - intros He1 He2.
    assert (Ht : trimmed (preprocess_text s)) by (by apply not_exposed_trimmed).
    split; [|exact Ht]. by rewrite <- Hn, Ht.
Qed.

Lemma preprocess_text_spec_witness :
  preprocess_text "Hello!" = "hello" ∧ trimmed (preprocess_text "Hello!").
Proof.
  destruct (preprocess_text_spec "Hello!") as (_ & _ & H).
  destruct H as [H1 H2]; [vm_compute; reflexivity..|].
  split; [|exact H2]. rewrite H1. vm_compute. reflexivity.
Defined.

End normalizer.

(** ** The interaction log *)

Section log.
Implicit Types (self : LuxeloomChatbot) (h : list Message).

Lemma handle_query_state self r query :
  (handle_query self r query).2 = add_to_history self query.
Proof.
  unfold handle_query.
  repeat match goal with
         | |- context [if ?c then _ else _] => destruct c
         | |- context [match ?o with Some _ => _ | None => _ end] => destruct o
         end; reflexivity.
Qed.

Lemma find_product_add_to_history self query query' :
  find_product (add_to_history self query) query' = find_product self query'.
Proof. reflexivity. Qed.

(** The response is a function of the catalog, the templates, the draw
    and the query. *)
Lemma handle_query_response self1 self2 r query :
  product_data self1 = product_data self2 →
  responses self1 = responses self2 →
  (handle_query self1 r query).1 = (handle_query self2 r query).1.
Proof.
  intros Hp Hr. unfold handle_query.
  rewrite !find_product_add_to_history.
  replace (find_product self2 query) with (find_product self1 query)
    by (unfold find_product; by rewrite Hp).
  change (responses (add_to_history self1 query)) with (responses self1).
  change (responses (add_to_history self2 query)) with (responses self2).
  rewrite Hr.
  repeat match goal with
         | |- context [if ?c then _ else _] => destruct c
         | |- context [match ?o with Some _ => _ | None => _ end] => destruct o
         end; reflexivity.
Qed.

Lemma slice_from_neg {A} (n : nat) (l : list A) :
  0 < n → Py.slice_from (- Z.of_nat n) l = most_recent n l.
Proof.
  intros Hn. unfold Py.slice_from, most_recent. f_equal.
  destruct (Z.ltb_spec (- Z.of_nat n) 0); lia.
Qed.

Lemma add_to_history_log self query :
  (0 < max_history self)%Z →
  conversation_history (add_to_history self query)
  = most_recent (Z.to_nat (2 * max_history self))
                (conversation_history self ++ [user_message query]).
Proof.
  intros Hm. unfold add_to_history; simpl. fold (user_message query).
  set (h := conversation_history self ++ [user_message query]).
  destruct (Z.ltb_spec (max_history self * 2) (Z.of_nat (length h))).
  - replace (- max_history self * 2)%Z
      with (- Z.of_nat (Z.to_nat (2 * max_history self)))%Z by lia.
    apply slice_from_neg. lia.
  - unfold most_recent. replace (length h - _) with 0 by lia. done.
Qed.

Lemma most_recent_length {A} n (l : list A) : length (most_recent n l) ≤ n.
Proof. unfold most_recent. rewrite length_drop. lia. Qed.

Lemma most_recent_all {A} n (l : list A) : length l ≤ n → most_recent n l = l.
Proof. intros. unfold most_recent. by replace (length l - n) with 0 by lia. Qed.

Lemma most_recent_snoc {A} n (l : list A) x :
  0 < n → most_recent n (most_recent n l ++ [x]) = most_recent n (l ++ [x]).
Proof.
  intros Hn. unfold most_recent.
  rewrite !length_app, length_drop; simpl.
  destruct (decide (length l ≤ n)) as [Hl|Hl].
  - replace (length l - n) with 0 by lia. simpl. by rewrite Nat.sub_0_r.
  - rewrite !drop_app.
    rewrite drop_drop, length_drop. f_equal.
    + f_equal. lia.
    + f_equal. lia.
Qed.

Lemma run_snoc self calls call :
  run self (calls ++ [call])
  = (handle_query (run self calls) call.1 call.2).2.
Proof. unfold run. by rewrite foldl_app. Qed.

Lemma run_max_history self calls : max_history (run self calls) = max_history self.
Proof.
  induction calls as [|call calls IH] using rev_ind; [done|].
  by rewrite run_snoc, handle_query_state.
Qed.

(** C4: with a positive [max_history], every call appends exactly one
    entry, the raw query, and keeps the last [2 * max_history] entries;
    so after any sequence of calls on a log within the cap, the log holds
    the most recent [2 * max_history] entries in arrival order and is
    never longer than that. *)
Theorem log_capped self calls :
  (0 < max_history self)%Z →
  length (conversation_history self) ≤ Z.to_nat (2 * max_history self) →
  let cap := Z.to_nat (2 * max_history self) in
  (∀ r query,
      conversation_history (handle_query self r query).2
      = most_recent cap (conversation_history self ++ [user_message query]))
  ∧ conversation_history (run self calls)
    = most_recent cap (conversation_history self ++ (user_message ∘ snd <$> calls))
  ∧ length (conversation_history (run self calls)) ≤ cap.
Proof.
  intros Hm Hlen cap.
  assert (Hrun : conversation_history (run self calls)
    = most_recent cap (conversation_history self ++ (user_message ∘ snd <$> calls))).
  { induction calls as [|call calls IH] using rev_ind.
    - simpl. by rewrite app_nil_r, most_recent_all.
    - rewrite run_snoc, handle_query_state, add_to_history_log
        by (by rewrite run_max_history).
      rewrite run_max_history. fold cap. rewrite IH, fmap_app, app_assoc.
      apply most_recent_snoc. unfold cap. lia. }
  split; [|split].
  - intros r query. rewrite handle_query_state. by apply add_to_history_log.
  - exact Hrun.
  - rewrite Hrun. apply most_recent_length.
Qed.

Lemma log_capped_witness :
  let calls := (λ n, (n, Py.str_of_nat n)) <$> seq 0 100 in
  conversation_history (run init calls)
  = user_message ∘ Py.str_of_nat <$> seq 90 10.
Proof.
  intros calls.
  assert (Hm : (0 < max_history init)%Z) by reflexivity.
  assert (Hl : length (conversation_history init) ≤ Z.to_nat (2 * max_history init))
    by (simpl; lia).
  rewrite (proj1 (proj2 (log_capped init calls Hm Hl))).
  vm_compute. reflexivity.
Defined.

(** C5: the response does not depend on the log the call starts from. *)
Theorem response_independent_of_log self r query (h1 h2 : list Message) :
  (handle_query (with_history self h1) r query).1
  = (handle_query (with_history self h2) r query).1.
Proof. by apply handle_query_response. Qed.

End log.

(** ** The intent classifier *)

Section intents.
Implicit Types (self : LuxeloomChatbot) (s k : str).
#[local] Arguments Str.any_in : simpl never.
#[local] Arguments find_product : simpl never.

Lemma startswith_spec s k : Str.startswith s k = true ↔ ∃ post, s = k ++ post.
Proof.
  revert s. induction k as [|a k IH]; intros s.
  - split; [by exists s|by destruct s].
  - destruct s as [|b s]; simpl.
    + split; [done|]. by intros [post ?].
    + destruct (N.eqb_spec a b) as [->|Hab].
      * rewrite IH. split; intros [post E]; exists post.
        -- by rewrite E.
        -- by injection E.
      * split; [done|]. intros [post E]. injection E as ??. congruence.
Qed.

(** [k in s] holds exactly when [k] lies somewhere inside [s]. *)
Lemma contains_spec k s :
  Str.contains k s = true ↔ ∃ pre post, s = pre ++ k ++ post.
Proof.
  induction s as [|c s IH].
  - change (Str.contains k []) with (Str.startswith [] k || false).
    rewrite orb_false_r, startswith_spec. split.
    + intros [post E]. by exists [], post.
    + intros (pre & post & E). exists post. by destruct pre.
  - change (Str.contains k (c :: s))
      with (Str.startswith (c :: s) k || Str.contains k s).
    rewrite orb_true_iff, startswith_spec, IH. split.
    + intros [[post E]|(pre & post & E)].
      * by exists [], post.
      * exists (c :: pre), post. by rewrite E.
    + intros (pre & post & E). destruct pre as [|c' pre].
      * left. by exists post.
      * right. exists pre, post. by injection E.
Qed.

Lemma any_in_spec (words : list str) s :
  Str.any_in words s = true
  ↔ ∃ word pre post, word ∈ words ∧ s = pre ++ word ++ post.
Proof.
  unfold Str.any_in. rewrite existsb_exists. split.
  - intros (word & Hin & Hc). apply contains_spec in Hc as (pre & post & E).
    exists word, pre, post. by rewrite list_elem_of_In.
  - intros (word & pre & post & Hin & E). exists word.
    rewrite <- list_elem_of_In. split; [done|]. apply contains_spec; eauto.
Qed.

Lemma choice_elem_of r (seq : list str) : seq ≠ [] → Py.choice r seq ∈ seq.
Proof.
  intros Hne. unfold Py.choice.
  assert (Hlt : r mod length seq < length seq).
  { apply Nat.mod_upper_bound. by destruct seq. }
  destruct (lookup_lt_is_Some_2 _ _ Hlt) as [x Hx].
  rewrite Hx. simpl. by eapply list_elem_of_lookup_2.
Qed.

Lemma greeting_not_mission :
  Forall (λ x, x ∉ mission (responses init)) (greeting (responses init)).
Proof. apply (bool_decide_unpack _). vm_compute. exact I. Qed.

(** The chain of tests of [handle_query] answers with the first rule of
    the priority order that matches. *)
Lemma handle_query_first_match self r query :
  (handle_query self r query).1 = rule_response self r query (first_match self query).
Proof.
  unfold handle_query, first_match, rule_response. simpl.
  rewrite !find_product_add_to_history.
  change (responses (add_to_history self query)) with (responses self).
  repeat match goal with
         | |- context [if Str.any_in ?w ?q then _ else _] => destruct (Str.any_in w q)
         end; simpl; try reflexivity;
  destruct (find_product self query); reflexivity.
Qed.

(** C3: the response is that of the first rule, in the order greeting,
    thanks, mission, care, ordering, product, listing, fallback, whose
    condition holds; so a query that has a greeting keyword and a
    mission keyword is answered with a greeting template, which is not
    a mission template. *)
Theorem rule_priority self r query :
  (handle_query self r query).1 = rule_response self r query (first_match self query)
  ∧ (responses self = responses init →
     Str.any_in greeting_words (preprocess_text query) = true →
     Str.any_in mission_words (preprocess_text query) = true →
     (handle_query self r query).1 ∈ greeting (responses init)
     ∧ (handle_query self r query).1 ∉ mission (responses init)).
Proof.
  split; [apply handle_query_first_match|].
  intros Hr Hg _.
  assert (Hin : (handle_query self r query).1 ∈ greeting (responses init)).
  { rewrite handle_query_first_match. unfold first_match. simpl. rewrite Hg. simpl.
    rewrite Hr. by apply choice_elem_of. }
  split; [done|].
  by apply (proj1 (Forall_forall _ _) greeting_not_mission).
Qed.

Lemma rule_priority_witness :
  (handle_query init 2 "hi, tell me about your mission").1 ∈ greeting (responses init)
  ∧ (handle_query init 2 "hi, tell me about your mission").1 ∉ mission (responses init).
Proof.
  apply (proj2 (rule_priority init 2 "hi, tell me about your mission"));
    reflexivity.
Defined.

(** C8: the query about the price of the sunny tote is answered by the
    ordering rule with the card of the entry under ["sunny tote"], which
    shows the price and the contact number. *)
Theorem sunny_tote_price self r :
  product_data self = product_data init →
  let query := "What is the price of the sunny tote?" in
  ∃ product,
    getitem (product_data init) "sunny tote" = Some product
    ∧ first_match self query = Ordering
    ∧ Str.any_in ["price"] (preprocess_text query) = true
    ∧ direct_match (product_data self) (preprocess_text query) = Some product
    ∧ find_product self query = Some product
    ∧ (handle_query self r query).1 = order_card product
    ∧ Str.contains "PKR 2,125" (handle_query self r query).1 = true
    ∧ Str.contains (whatsapp product) (handle_query self r query).1 = true
    ∧ whatsapp product = "+92 307 4674619".
Proof.
  intros Hp query. eexists. split; [reflexivity|].
  assert (Hd : direct_match (product_data self) (preprocess_text query)
               = getitem (product_data init) "sunny tote")
    by (rewrite Hp; reflexivity).
  assert (Hf : find_product self query = getitem (product_data init) "sunny tote")
    by (unfold find_product; rewrite Hd; reflexivity).
  assert (Hq : (handle_query self r query).1
               = from_option order_card "" (getitem (product_data init) "sunny tote")).
  { rewrite handle_query_first_match.
    replace (first_match self query) with Ordering by (vm_compute; reflexivity).
    unfold rule_response. by rewrite Hf. }
  split; [vm_compute; reflexivity|]. split; [reflexivity|]. split; [exact Hd|].
  split; [exact Hf|]. rewrite Hq. repeat split; reflexivity.
Qed.

Lemma sunny_tote_price_witness :
  Str.contains "PKR 2,125" (handle_query init 0 "What is the price of the sunny tote?").1
  = true.
Proof.
  destruct (sunny_tote_price init 0 eq_refl) as (product & _ & _ & _ & _ & _ & _ & H & _).
  exact H.
Defined.

Lemma find_app_first {B} (f : B → bool) (l1 l2 : list B) x :
  Forall (λ y, f y = false) l1 → f x = true → List.find f (l1 ++ x :: l2) = Some x.
Proof.
  intros Hl Hx. induction Hl as [|y l1 Hy _ IH]; simpl; [by rewrite Hx|].
  by rewrite Hy.
Qed.

Lemma keywords_match self query intent word pre post :
  word ∈ keywords intent →
  preprocess_text query = pre ++ word ++ post →
  rule_matches self query intent = true.
Proof.
  intros Hw E.
  assert (Ha : Str.any_in (keywords intent) (preprocess_text query) = true)
    by (apply any_in_spec; eauto).
  destruct intent; try exact Ha; by apply elem_of_nil in Hw.
Qed.

(** C10: a keyword matches wherever it occurs in the normalised query,
    inside a word as well as between words, and so makes its rule
    answer when no earlier rule matches.  ["this is nice"] has ["hi"]
    in ["this"] and is greeted, and ["show me your shirts"], which has
    the listing keyword ["show me"], has ["hi"] in ["shirts"] and is
    greeted too. *)
Theorem keyword_is_substring self r :
  (∀ (words : list str) s,
      Str.any_in words s = true
      ↔ ∃ word pre post, word ∈ words ∧ s = pre ++ word ++ post)
  ∧ (∀ query intent word pre post l1 l2,
        priority_order = l1 ++ intent :: l2 →
        Forall (λ earlier, rule_matches self query earlier = false) l1 →
        word ∈ keywords intent →
        preprocess_text query = pre ++ word ++ post →
        (handle_query self r query).1 = rule_response self r query intent)
  ∧ preprocess_text "this is nice" = "t" ++ "hi" ++ "s is nice"
  ∧ (handle_query self r "this is nice").1 = Py.choice r (greeting (responses self))
  ∧ preprocess_text "show me your shirts" = "show me your s" ++ "hi" ++ "rts"
  ∧ Str.any_in listing_words (preprocess_text "show me your shirts") = true
  ∧ (handle_query self r "show me your shirts").1
    = Py.choice r (greeting (responses self)).
Proof.
  assert (Hg : ∀ query intent word pre post l1 l2,
    priority_order = l1 ++ intent :: l2 →
    Forall (λ earlier, rule_matches self query earlier = false) l1 →
    word ∈ keywords intent →
    preprocess_text query = pre ++ word ++ post →
    (handle_query self r query).1 = rule_response self r query intent).
  { intros query intent word pre post l1 l2 Hp Hl Hw E.
    rewrite handle_query_first_match. unfold first_match. rewrite Hp.
    rewrite (find_app_first _ _ _ intent); [done|done|]. by eapply keywords_match. }
  assert (Hhi : "hi" ∈ keywords Greeting) by (apply list_elem_of_In; simpl; tauto).
  split; [apply any_in_spec|]. split; [exact Hg|].
  split; [reflexivity|]. split.
  { by apply (Hg _ Greeting "hi" "t" "s is nice" [] (tl priority_order)). }
  split; [reflexivity|]. split; [reflexivity|].
  by apply (Hg _ Greeting "hi" "show me your s" "rts" [] (tl priority_order)).
Qed.

Lemma keyword_is_substring_witness :
  (handle_query init 1 "show me your shirts").1
  = "Hi there! ✨ I'm your Luxeloom assistant. How can I help you today?".
Proof.
  rewrite (proj1 (proj2 (keyword_is_substring init 1))
             "show me your shirts" Greeting "hi" "show me your s" "rts"
             [] (tl priority_order)).
  - reflexivity.
  - reflexivity.
  - constructor.
  - apply list_elem_of_In. simpl. tauto.
  - reflexivity.
Defined.

End intents.

(** ** The product listing *)

Section products.
Implicit Types (seen : gset str) (l acc : list ProductEntry) (p : ProductEntry).

Lemma foldl_unique_step seen acc l :
  (foldl unique_step (seen, acc) l).2 = acc ++ first_by_name seen l.
Proof.
  revert seen acc. induction l as [|p l IH]; intros seen acc; simpl.
  - by rewrite app_nil_r.
  - destruct (decide (name p ∈ seen)); rewrite IH; [done|].
    by rewrite <- app_assoc.
Qed.

Lemma first_by_name_unseen seen l p : p ∈ first_by_name seen l → name p ∉ seen.
Proof.
  revert seen. induction l as [|q l IH]; intros seen; simpl; [by intros ?%elem_of_nil|].
  destruct (decide (name q ∈ seen)); [by apply IH|].
  intros [->|Hp]%elem_of_cons; [done|]. apply IH in Hp.
  rewrite not_elem_of_union in Hp. tauto.
Qed.

Lemma first_by_name_NoDup seen l : NoDup (name <$> first_by_name seen l).
Proof.
  revert seen. induction l as [|q l IH]; intros seen; simpl; [constructor|].
  destruct (decide (name q ∈ seen)); [by apply IH|].
  rewrite fmap_cons. constructor; [|by apply IH].
  intros (p & E & Hp%first_by_name_unseen)%list_elem_of_fmap.
  rewrite not_elem_of_union, not_elem_of_singleton in Hp. naive_solver.
Qed.

Lemma first_by_name_sublist seen l : sublist (first_by_name seen l) l.
Proof.
  revert seen. induction l as [|q l IH]; intros seen; simpl; [constructor|].
  destruct (decide (name q ∈ seen)); [by apply sublist_cons|by apply sublist_skip].
Qed.

Lemma first_by_name_elem_of seen l p :
  p ∈ first_by_name seen l
  ↔ ∃ l1 l2, l = l1 ++ [p] ++ l2 ∧ (name p ∉ seen) ∧ name p ∉ (name <$> l1).
Proof.
  revert seen. induction l as [|q l IH]; intros seen; simpl.
  - split; [by intros ?%elem_of_nil|]. intros (l1 & l2 & E & _). by destruct l1.
  - destruct (decide (name q ∈ seen)) as [Hq|Hq].
    + rewrite IH. split.
      * intros (l1 & l2 & -> & Hs & Hl). exists (q :: l1), l2.
        split; [done|]. split; [done|]. rewrite fmap_cons, not_elem_of_cons.
        split; [congruence|done].
      * intros (l1 & l2 & E & Hs & Hl). destruct l1 as [|q' l1].
        -- injection E as -> ->. done.
        -- injection E as -> ->. exists l1, l2.
           rewrite fmap_cons, not_elem_of_cons in Hl. tauto.
    + rewrite elem_of_cons, IH. split.
      * intros [->|(l1 & l2 & -> & Hs & Hl)].
        -- exists [], l. split; [done|]. split; [done|]. apply not_elem_of_nil.
        -- rewrite not_elem_of_union, not_elem_of_singleton in Hs.
           exists (q :: l1), l2. split; [done|]. split; [tauto|].
           rewrite fmap_cons, not_elem_of_cons. tauto.
      * intros (l1 & l2 & E & Hs & Hl). destruct l1 as [|q' l1].
        -- injection E as -> ->. by left.
        -- injection E as -> ->. right. exists l1, l2.
           rewrite fmap_cons, not_elem_of_cons in Hl.
           rewrite not_elem_of_union, not_elem_of_singleton. tauto.
Qed.

(** C9: the product list has no two entries of the same name; it keeps,
    in catalog order, each entry that no earlier entry shares its name
    with.  The catalog of [__init__] has four aliases, two of them for
    the one record named ["Strawberry Miffi Tote"], and three products
    are listed. *)
Theorem get_products_unique chatbot :
  let products := snd <$> product_data chatbot in
  NoDup (name <$> get_products chatbot)
  ∧ sublist (get_products chatbot) products
  ∧ (∀ p, p ∈ get_products chatbot
          ↔ ∃ l1 l2, products = l1 ++ [p] ++ l2 ∧ name p ∉ (name <$> l1))
  ∧ getitem (product_data init) "strawberry miffi tote"
    = getitem (product_data init) "miffy"
  ∧ fst <$> product_data init
    = ["snoopy tote"; "sunny tote"; "strawberry miffi tote"; "miffy"]
  ∧ name <$> get_products init
    = ["Snoopy Tote"; "Sunny Tote"; "Strawberry Miffi Tote"].
Proof.
  intros products. unfold get_products. fold products.
  rewrite foldl_unique_step, app_nil_l.
  split; [apply first_by_name_NoDup|].
  split; [apply first_by_name_sublist|].
  split; [|by vm_compute].
  intros p. rewrite first_by_name_elem_of.
  split; intros (l1 & l2 & ? & ?); exists l1, l2; [tauto|].
  split; [tauto|]. split; [apply not_elem_of_empty|tauto].
Qed.

End products.

(** ** The product matcher: the exact pass *)

Section exact_pass.
Implicit Types (s alias query before after : str) (c x : N).

Lemma decorated_empty alias : decorated deleted alias "" → alias = "".
Proof. by inversion 1. Qed.

(** A character that [lower()] turns into a character other than the
    small sigma becomes that character wherever it stands. *)
Lemma lower_single c c' before after :
  Str.lower [c'] = [c] → c ≠ 0x3C3%N → Str.lower_ucs4 before c' after = [c].
Proof.
  unfold Str.lower. simpl. rewrite app_nil_r. unfold Str.lower_ucs4.
  destruct (N.eqb_spec c' 0x3A3) as [->|_]; [|done].
  intros [= <-]. done.
Qed.

Lemma lower_ucs4_deleted before c after :
  deleted c = true → Str.filter kept (Str.lower_ucs4 before c after) = [].
Proof.
  intros Hc. destruct (lower_ucs4_ok before c after) as (_ & _ & Hd & _).
  apply str_filter_none, str_Forall_Forall.
  eapply Forall_impl; [by apply Hd|]. intros x. unfold deleted.
  by rewrite negb_true_iff.
Qed.

Lemma lower_ucs4_nonspace before c after :
  Char.isspace c = false →
  Str.lower_ucs4 before c after ≠ []
  ∧ ∀ x, x ∈ Str.lower_ucs4 before c after → Char.isspace x = false.
Proof.
  intros Hc. destruct (lower_ucs4_ok before c after) as (_ & Hs & _).
  destruct (Hs Hc) as [Hne Hall]. split; [done|]. by apply Forall_forall.
Qed.

Lemma decorated_filter alias query before :
  decorated deleted alias query →
  Str.Forall (λ c, kept c = true ∧ c ≠ 0x3C3%N) alias →
  Str.filter kept (Str.do_lower before query) = alias.
Proof.
  intros Hd. revert before.
  induction Hd as [|c alias query Hp _ IH|c c' alias query Hc _ IH];
    intros before; simpl.
  - done.
  - intros Ha. by rewrite str_filter_app, lower_ucs4_deleted, IH.
  - intros [[Hk Hs] Ha]. rewrite (lower_single c) by done.
    simpl. by rewrite Hk, IH.
Qed.

Lemma decorated_lower_empty alias query before :
  decorated deleted alias query → Str.do_lower before query = [] → query = [].
Proof.
  destruct 1 as [|c alias query Hp _|c c' alias query Hc _]; simpl; [done|..].
  - intros [E _]%app_eq_nil.
    by destruct (lower_ucs4_nonspace before c query (deleted_not_isspace _ Hp)).
  - intros [E _]%app_eq_nil. exfalso. revert Hc E.
    unfold Str.lower. simpl. rewrite app_nil_r. unfold Str.lower_ucs4.
    destruct (c' =? 0x3A3)%N; [done|]. by intros ->.
Qed.

Lemma decorated_head alias query before x :
  decorated deleted alias query →
  Str.Forall (λ c, kept c = true ∧ c ≠ 0x3C3%N) alias →
  (∀ c, head alias = Some c → Char.isspace c = false) →
  head (Str.do_lower before query) = Some x → Char.isspace x = false.
Proof.
  destruct 1 as [|c alias query Hp _|c c' alias query Hc _]; simpl; [done|..].
  - intros _ _.
    destruct (lower_ucs4_nonspace before c query (deleted_not_isspace _ Hp))
      as [Hne Hall].
    destruct (Str.lower_ucs4 before c query) as [|y l]; [done|].
    intros [= ->]. apply Hall. by left.
  - intros [[_ Hs] _] Hh. rewrite (lower_single c) by done.
    intros [= <-]. by apply Hh.
Qed.

Lemma decorated_last alias query before x :
  decorated deleted alias query →
  Str.Forall (λ c, kept c = true ∧ c ≠ 0x3C3%N) alias →
  (∀ c, last alias = Some c → Char.isspace c = false) →
  last (Str.do_lower before query) = Some x → Char.isspace x = false.
Proof.
  intros Hd. revert before.
  induction Hd as [|c alias query Hp Hd IH|c c' alias query Hc Hd IH];
    intros before; simpl; [done|..]; intros Ha Hl; rewrite last_app.
  - destruct (last (Str.do_lower (c :: before) query)) as [y|] eqn:Ey.
    + intros [= ->]. by eapply IH.
    + intros Hx%last_Some_elem_of.
      by apply (lower_ucs4_nonspace before c query (deleted_not_isspace _ Hp)).
  - destruct Ha as [[_ Hs] Ha]. rewrite (lower_single c) by done.
    destruct (last (Str.do_lower (c' :: before) query)) as [y|] eqn:Ey.
    + intros [= ->]. eapply IH; [done| |done].
      intros c2 H2. apply Hl. destruct alias; [done|]. by rewrite last_cons_cons.
    + intros [= <-]. apply Hl.
      apply last_None, (decorated_lower_empty _ _ _ Hd) in Ey. subst query.
      by apply decorated_empty in Hd as ->.
Qed.

(** A decorated alias is normalised to the alias, when the alias is
    made of characters that the pattern keeps, none of them the small
    sigma, and has no whitespace at its ends. *)
Lemma decorated_preprocess alias query :
  decorated deleted alias query →
  Str.Forall (λ c, kept c = true ∧ c ≠ 0x3C3%N) alias →
  (∀ c, head alias = Some c → Char.isspace c = false) →
  (∀ c, last alias = Some c → Char.isspace c = false) →
  preprocess_text query = alias.
Proof.
  intros Hd Hk Hh Hl.
  unfold preprocess_text, Str.re_sub_not_word_space. fold kept.
  rewrite strip_edges.
  - by apply decorated_filter.
  - intros x. by apply (decorated_head alias).
  - intros x. by apply (decorated_last alias).
Qed.

(** The first alias, in the order of the items, that occurs in the
    query decides the exact pass. *)
Lemma direct_match_first items q :
  match direct_match items q with
  | Some product =>
      ∃ l1 key l2, items = l1 ++ [(key, product)] ++ l2
                   ∧ Str.contains key q = true
                   ∧ Forall (λ item, Str.contains item.1 q = false) l1
  | None => Forall (λ item, Str.contains item.1 q = false) items
  end.
Proof.
  induction items as [|[key product] items IH]; simpl; [constructor|].
  destruct (Str.contains key q) eqn:Hk.
  - by exists [], key, items.
  - destruct (direct_match items q) as [product'|].
    + destruct IH as (l1 & key' & l2 & -> & Hc & Hl).
      exists ((key, product) :: l1), key', l2. split; [done|]. split; [done|].
      by constructor.
    + by constructor.
Qed.

(** C6, as the specification states it, fails when the punctuation
    added is the underscore, which the normaliser keeps: ["miffy"] with
    underscores between its letters contains no alias, and is too far
    from every alias for the fuzzy pass. *)
Lemma underscores_hide_alias :
  let query := "m____i____f____f____y" in
  decorated punctuation "miffy" query
  ∧ direct_match (product_data init) (preprocess_text query) = None
  ∧ find_product init query = None.
Proof.
  split; [|split; vm_compute; reflexivity].
  repeat first
    [ apply decorated_end
    | apply decorated_case; [vm_compute; reflexivity|]
    | apply decorated_punctuation; [vm_compute; reflexivity|] ].
Qed.

(** C6, amended: a query that is an alias of the catalog with its case
    varied and punctuation other than the underscore added is
    normalised to that alias, and the exact pass returns the entry of
    that alias, so the fuzzy pass is not run; the exact pass returns
    the entry of the first alias, in catalog order, that occurs in the
    normalised query. *)
Theorem alias_found_by_exact_pass self alias product query :
  product_data self = product_data init →
  (alias, product) ∈ product_data init →
  decorated deleted alias query →
  preprocess_text query = alias
  ∧ direct_match (product_data self) (preprocess_text query) = Some product
  ∧ find_product self query = Some product
  ∧ ∀ items q,
      match direct_match items q with
      | Some product =>
          ∃ l1 key l2, items = l1 ++ [(key, product)] ++ l2
                       ∧ Str.contains key q = true
                       ∧ Forall (λ item, Str.contains item.1 q = false) l1
      | None => Forall (λ item, Str.contains item.1 q = false) items
      end.
Proof.
  intros Hp Hin Hd.
  assert (Hpp : preprocess_text query = alias
                ∧ direct_match (product_data init) alias = Some product).
  { simpl in Hin. rewrite !elem_of_cons, elem_of_nil in Hin.
    destruct Hin as [E|[E|[E|[E|[]]]]]; injection E as -> ->;
      (split; [|vm_compute; reflexivity]);
      (apply decorated_preprocess;
       [done|vm_compute; repeat split; (reflexivity || discriminate)|..]);
      intros c [= <-]; vm_compute; reflexivity. }
  destruct Hpp as [Hq Hm].
  split; [done|]. unfold find_product. rewrite Hp, Hq, Hm.
  split; [done|]. split; [done|]. apply direct_match_first.
Qed.

Lemma alias_found_by_exact_pass_witness :
  find_product init "Sunny, TOTE!"
  = Some {| name := "Sunny Tote";
            price := "PKR 2,125";
            original_price := "PKR 2,500";
            discount := "15% OFF";
            description := "Sunny tote! took ages but worth it because she's literally glowing ☀️";
            whatsapp := "+92 307 4674619" |}.
Proof.
  refine (proj1 (proj2 (proj2
    (alias_found_by_exact_pass init "sunny tote" _ "Sunny, TOTE!" eq_refl _ _)))).
  - apply list_elem_of_In. simpl. right. left. reflexivity.
  - repeat first
      [ apply decorated_end
      | apply decorated_case; [vm_compute; reflexivity|]
      | apply decorated_punctuation; [vm_compute; reflexivity|] ].
Defined.

End exact_pass.

(** ** The matching blocks of [difflib] *)

Section find_longest_match_facts.
Context `{Countable A}.
Variables (a b : list A) (b2j : gmap A (list nat)).
Hypothesis Hb2j : b2j_sound b b2j.
Variables (alo ahi blo bhi : nat).

Lemma matched_extend_right i j k c :
  matched a b (i, j, k) → a !! (i + k) = Some c → b !! (j + k) = Some c →
  matched a b (i, j, k + 1).
Proof.
  intros Hm Ha Hb t Ht. simpl in *.
  destruct (decide (t = k)) as [->|]; [eauto|]. apply Hm. simpl. lia.
Qed.

Lemma matched_extend_left i j k c :
  matched a b (S i, S j, k) → a !! i = Some c → b !! j = Some c →
  matched a b (i, j, k + 1).
Proof.
  intros Hm Ha Hb t Ht. simpl in *.
  destruct t as [|t]; [rewrite !Nat.add_0_r; eauto|].
  replace (i + S t) with (S i + t) by lia. replace (j + S t) with (S j + t) by lia.
  apply Hm. simpl. lia.
Qed.

Lemma matched_eq i j k i' j' k' :
  i = i' → j = j' → k = k' → matched a b (i, j, k) → matched a b (i', j', k').
Proof. by intros -> -> ->. Qed.

Lemma matched_empty i j : matched a b (i, j, 0).
Proof. intros t Ht. simpl in Ht. lia. Qed.

(** The length that the inner loop stores at [j] in row [i]. *)
Lemma new_entry_ok i c j2len j :
  alo ≤ i → a !! i = Some c → b !! j = Some c → blo ≤ j → j < bhi →
  row_ok a b alo blo bhi i j2len →
  let k := Difflib.j2lenget_pred j2len j + 1 in
  0 < k ∧ k + alo ≤ S i ∧ k + blo ≤ j + 1 ∧ j < bhi
  ∧ matched a b (S i - k, j + 1 - k, k).
Proof.
  intros Hi Ha Hb Hj Hj' Hrow k.
  assert (Hfresh : matched a b (S i - 1, j + 1 - 1, 0 + 1)).
  { apply (matched_eq i j (0 + 1)); [lia..|].
    apply (matched_extend_right _ _ _ c); [apply matched_empty|..];
      by rewrite Nat.add_0_r. }
  unfold k, Difflib.j2lenget_pred. destruct j as [|j'].
  { repeat split; try lia. exact Hfresh. }
  destruct (j2len !! j') as [k0|] eqn:E; simpl.
  - destruct (Hrow _ _ E) as (? & ? & ? & ? & Hm).
    repeat split; try lia.
    apply (matched_eq (i - k0) (j' + 1 - k0) (k0 + 1)); [lia..|].
    apply (matched_extend_right _ _ _ c); [done|..].
    + by replace (i - k0 + k0) with i by lia.
    + by replace (j' + 1 - k0 + k0) with (S j') by lia.
  - repeat split; try lia. exact Hfresh.
Qed.

Lemma scan_row_ok i c j2len js newj2len best :
  alo ≤ i → a !! i = Some c → (∀ j, j ∈ js → b !! j = Some c) →
  row_ok a b alo blo bhi i j2len →
  row_ok a b alo blo bhi (S i) newj2len →
  best_ok a b alo blo bhi (S i) best →
  row_ok a b alo blo bhi (S i) (Difflib.scan_row blo bhi i j2len js newj2len best).1
  ∧ best_ok a b alo blo bhi (S i) (Difflib.scan_row blo bhi i j2len js newj2len best).2.
Proof.
  intros Hi Ha Hjs Hrow. revert newj2len best.
  induction js as [|j js IH]; intros newj2len best Hnew Hbest; simpl; [done|].
  assert (Hjs' : ∀ j', j' ∈ js → b !! j' = Some c)
    by (intros; apply Hjs; by right).
  destruct (Nat.ltb_spec j blo); [by apply IH|].
  destruct (Nat.leb_spec bhi j); [done|].
  assert (Hb : b !! j = Some c) by (apply Hjs; by left).
  destruct (new_entry_ok i c j2len j Hi Ha Hb) as (Hk & Hka & Hkb & _ & Hm);
    [done..|].
  set (k := Difflib.j2lenget_pred j2len j + 1) in *.
  apply IH; [done|..].
  - intros j' k'. rewrite lookup_insert. case_decide as Hjj.
    + intros [= <-]. subst j'. done.
    + apply Hnew.
  - destruct (Nat.ltb_spec (Difflib.size best) k); [|done].
    unfold best_ok.
    split; [lia|]. split; [lia|]. split; [right; lia|].
    by apply (matched_eq (S i - k) (j + 1 - k) k); [lia..|].
Qed.

Lemma best_ok_mono n n' best :
  n ≤ n' → best_ok a b alo blo bhi n best → best_ok a b alo blo bhi n' best.
Proof.
  destruct best as [[bi bj] bk]. unfold best_ok. intros Hn (? & ? & Hc & ?).
  repeat split; [done..| |done]. destruct Hc; [by left|right; lia].
Qed.

Lemma scan_step_ok i j2len best :
  alo ≤ i →
  row_ok a b alo blo bhi i j2len → best_ok a b alo blo bhi i best →
  row_ok a b alo blo bhi (S i) (Difflib.scan_step a b2j blo bhi (j2len, best) i).1
  ∧ best_ok a b alo blo bhi (S i) (Difflib.scan_step a b2j blo bhi (j2len, best) i).2.
Proof.
  intros Hi Hrow Hbest. unfold Difflib.scan_step.
  assert (Hbest' : best_ok a b alo blo bhi (S i) best)
    by (eapply best_ok_mono; [|done]; lia).
  assert (Hempty : row_ok a b alo blo bhi (S i) ∅)
    by (intros j k; by rewrite lookup_empty).
  destruct (a !! i) as [c|] eqn:Ha; [|done].
  apply (scan_row_ok i c); try done.
  intros j Hj. destruct (b2j !! c) as [js|] eqn:E; simpl in Hj.
  - by eapply Hb2j.
  - by apply elem_of_nil in Hj.
Qed.

Lemma scan_rows_ok n i state :
  alo ≤ i →
  row_ok a b alo blo bhi i state.1 → best_ok a b alo blo bhi i state.2 →
  best_ok a b alo blo bhi (i + n)
          (foldl (Difflib.scan_step a b2j blo bhi) state (seq i n)).2.
Proof.
  revert i state. induction n as [|n IH]; intros i [j2len best] Hi Hrow Hbest; simpl.
  - by rewrite Nat.add_0_r.
  - destruct (scan_step_ok i j2len best Hi Hrow Hbest) as [Hrow' Hbest'].
    replace (i + S n) with (S i + n) by lia.
    apply IH; [lia|done..].
Qed.

Lemma extend_left_ok n besti bestj bestsize :
  best_ok a b alo blo bhi n (besti, bestj, bestsize) →
  best_ok a b alo blo bhi n (Difflib.extend_left a b alo blo besti bestj bestsize).
Proof.
  revert bestj bestsize. induction besti as [|i IH]; intros bestj bestsize Hbest;
    simpl; [done|].
  destruct (Nat.ltb_spec alo (S i)); simpl; [|done].
  destruct (Nat.ltb_spec blo bestj); simpl; [|done].
  destruct (a !! i) as [x|] eqn:Ha; simpl; [|done].
  destruct (b !! (bestj - 1)) as [y|] eqn:Hb; simpl; [|done].
  case_bool_decide as Hxy; [subst y|done].
  apply IH. destruct Hbest as (? & ? & Hc & Hm).
  destruct bestj as [|j]; [lia|]. replace (S j - 1) with j in * by lia.
  split; [lia|]. split; [lia|]. split.
  - right. destruct Hc; lia.
  - by apply (matched_extend_left _ _ _ x).
Qed.

Lemma extend_right_ok room besti bestj bestsize :
  alo ≤ besti → blo ≤ bestj →
  (0 < bestsize → besti + bestsize ≤ ahi ∧ bestj + bestsize ≤ bhi) →
  matched a b (besti, bestj, bestsize) →
  let bestsize' := Difflib.extend_right a b ahi bhi room besti bestj bestsize in
  (0 < bestsize' → besti + bestsize' ≤ ahi ∧ bestj + bestsize' ≤ bhi)
  ∧ matched a b (besti, bestj, bestsize').
Proof.
  intros Hi Hj. revert bestsize.
  induction room as [|room IH]; intros bestsize Hc Hm; simpl; [done|].
  destruct (Nat.ltb_spec (besti + bestsize) ahi); simpl; [|done].
  destruct (Nat.ltb_spec (bestj + bestsize) bhi); simpl; [|done].
  destruct (a !! (besti + bestsize)) as [x|] eqn:Ha; simpl; [|done].
  destruct (b !! (bestj + bestsize)) as [y|] eqn:Hb; simpl; [|done].
  case_bool_decide as Hxy; [subst y|done].
  apply IH; [lia|]. by apply (matched_extend_right _ _ _ x).
Qed.

(** The block that [find_longest_match] returns lies in the range it
    was asked about and pairs equal elements. *)
Lemma find_longest_match_ok :
  let '(i, j, k) := Difflib.find_longest_match a b b2j alo ahi blo bhi in
  alo ≤ i ∧ blo ≤ j ∧ (0 < k → i + k ≤ ahi ∧ j + k ≤ bhi) ∧ matched a b (i, j, k).
Proof.
  unfold Difflib.find_longest_match.
  assert (Hscan := scan_rows_ok (ahi - alo) alo (∅, (alo, blo, 0))).
  destruct (foldl _ _ _) as [j2len [[bi bj] bk]]. simpl in Hscan.
  assert (Hbest : best_ok a b alo blo bhi (alo + (ahi - alo)) (bi, bj, bk)).
  { apply Hscan; [done| |].
    - intros j k. by rewrite lookup_empty.
    - split; [done|]. split; [done|]. split; [by left|apply matched_empty]. }
  apply extend_left_ok in Hbest.
  destruct (Difflib.extend_left _ _ _ _ _ _ _) as [[bi' bj'] bk'].
  destruct Hbest as (Hi & Hj & Hc & Hm).
  assert (Hc' : 0 < bk' → bi' + bk' ≤ ahi ∧ bj' + bk' ≤ bhi) by (destruct Hc; lia).
  destruct (extend_right_ok (ahi - (bi' + bk')) bi' bj' bk' Hi Hj Hc' Hm) as [??].
  done.
Qed.

End find_longest_match_facts.

Section chain_b_facts.
Context `{Countable A}.
Implicit Types (b : list A) (b2j : gmap A (list nat)).

Lemma index_elements_sound b i rest b2j :
  drop i b = rest → b2j_sound b b2j →
  b2j_sound b (Difflib.index_elements i rest b2j).
Proof.
  revert i b2j. induction rest as [|elt rest IH]; intros i b2j Hd Hs; simpl; [done|].
  assert (Hi : b !! i = Some elt).
  { rewrite <- (Nat.add_0_r i), <- lookup_drop. by rewrite Hd. }
  apply IH.
  - replace (S i) with (i + 1) by lia. rewrite <- drop_drop. by rewrite Hd.
  - intros c js j. rewrite lookup_insert. case_decide as Hc.
    + intros [= <-]. subst c. rewrite elem_of_app, list_elem_of_singleton.
      intros [Hj| ->]; [|done].
      destruct (b2j !! elt) as [js|] eqn:E; simpl in Hj.
      * by eapply Hs.
      * by apply elem_of_nil in Hj.
    + apply Hs.
Qed.

(** [__chain_b] records, for an element, only positions that hold it. *)
Lemma chain_b_sound b : b2j_sound b (Difflib.chain_b b).
Proof.
  assert (Hs : b2j_sound b (Difflib.index_elements 0 b ∅)).
  { apply index_elements_sound; [done|]. intros c js j. by rewrite lookup_empty. }
  unfold Difflib.chain_b. destruct (200 <=? length b); [|done].
  intros c js j [Hl _]%map_lookup_filter_Some. by apply Hs.
Qed.

End chain_b_facts.

Section matching_blocks_facts.
Context `{Countable A}.
Implicit Types (x y l : list A).

Lemma sum_list_with_cons {B} (f : B → nat) z (zs : list B) :
  sum_list_with f (z :: zs) = f z + sum_list_with f zs.
Proof. reflexivity. Qed.

Lemma segment_split l lo mid hi :
  lo ≤ mid → mid ≤ hi → segment l lo hi = segment l lo mid ++ segment l mid hi.
Proof.
  intros ??. unfold segment.
  replace (hi - lo) with ((mid - lo) + (hi - mid)) by lia.
  rewrite <- take_take_drop, drop_drop. do 3 f_equal. lia.
Qed.

Lemma segment_all l : segment l 0 (length l) = l.
Proof. unfold segment. rewrite drop_0. apply take_ge. lia. Qed.

Lemma size_list_to_set_disj l : size (list_to_set_disj l : gmultiset A) = length l.
Proof.
  induction l as [|c l IH]; [done|].
  by rewrite list_to_set_disj_cons, gmultiset_size_disj_union,
    gmultiset_size_singleton, IH.
Qed.

Lemma common_le_l x y : common x y ≤ length x.
Proof.
  unfold common. rewrite <- size_list_to_set_disj.
  apply gmultiset_subseteq_size. multiset_solver.
Qed.

Lemma common_le_r x y : common x y ≤ length y.
Proof.
  unfold common. rewrite <- size_list_to_set_disj.
  apply gmultiset_subseteq_size. multiset_solver.
Qed.

Lemma common_same x : common x x = length x.
Proof.
  unfold common. rewrite <- size_list_to_set_disj. f_equal. multiset_solver.
Qed.

Lemma common_app x1 x2 y1 y2 :
  common x1 y1 + common x2 y2 ≤ common (x1 ++ x2) (y1 ++ y2).
Proof.
  unfold common. rewrite !list_to_set_disj_app, <- gmultiset_size_disj_union.
  apply gmultiset_subseteq_size. multiset_solver.
Qed.

Variables (a b : list A) (b2j : gmap A (list nat)).
Hypothesis Hb2j : b2j_sound b b2j.

Lemma matched_segment i j k :
  matched a b (i, j, k) →
  segment a i (i + k) = segment b j (j + k) ∧ length (segment a i (i + k)) = k.
Proof.
  intros Hm. unfold segment.
  replace (i + k - i) with k by lia. replace (j + k - j) with k by lia. split.
  - apply list_eq. intros t. destruct (decide (t < k)) as [Ht|Ht].
    + rewrite !lookup_take_lt, !lookup_drop by done.
      destruct (Hm t Ht) as (c & Ha & Hb). simpl in Ha, Hb. by rewrite Ha, Hb.
    + by rewrite !lookup_take_ge by lia.
  - rewrite length_take, length_drop. destruct k as [|k]; [done|].
    destruct (Hm k) as (c & Hc & _); [simpl; lia|].
    apply lookup_lt_Some in Hc. simpl in Hc. lia.
Qed.

(** A block inside a range leaves, before it and after it, ranges that
    have at most the remaining common elements. *)
Lemma range_common_split alo ahi blo bhi i j k :
  alo ≤ i → i + k ≤ ahi → blo ≤ j → j + k ≤ bhi → matched a b (i, j, k) →
  range_common a b (alo, i, blo, j) + k + range_common a b (i + k, ahi, j + k, bhi)
  ≤ range_common a b (alo, ahi, blo, bhi).
Proof.
  intros ???? Hm. unfold range_common.
  rewrite (segment_split a alo i ahi), (segment_split a i (i + k) ahi) by lia.
  rewrite (segment_split b blo j bhi), (segment_split b j (j + k) bhi) by lia.
  destruct (matched_segment _ _ _ Hm) as [E Hl]. rewrite <- E.
  etrans; [|apply common_app]. etrans; [|apply Nat.add_le_mono_l, common_app].
  rewrite common_same, Hl. lia.
Qed.

Lemma blocks_loop_sum fuel queue acc blocks :
  Difflib.blocks_loop a b b2j fuel queue acc = Some blocks →
  sum_list_with Difflib.size blocks
  ≤ sum_list_with Difflib.size acc + sum_list_with (range_common a b) queue.
Proof.
  revert queue acc. induction fuel as [|fuel IH]; intros queue acc; simpl; [done|].
  destruct queue as [|[[[alo ahi] blo] bhi] queue].
  { intros [= <-]. simpl. lia. }
  assert (Hok := find_longest_match_ok a b b2j Hb2j alo ahi blo bhi).
  destruct (Difflib.find_longest_match a b b2j alo ahi blo bhi) as [[i j] k].
  destruct Hok as (Hi & Hj & Hk & Hm).
  destruct (Nat.eqb_spec k 0) as [->|Hk0].
  { intros Hl%IH. rewrite sum_list_with_cons. lia. }
  intros Hl%IH. rewrite sum_list_with_app in Hl.
  change (sum_list_with Difflib.size [(i, j, k)]) with (k + 0) in Hl.
  destruct Hk as [Hka Hkb]; [lia|].
  assert (Hsplit := range_common_split alo ahi blo bhi i j k Hi Hka Hj Hkb Hm).
  rewrite sum_list_with_cons.
  destruct (alo <? i); destruct (blo <? j); destruct (i + k <? ahi);
    destruct (j + k <? bhi); simpl andb in Hl; cbv iota in Hl;
    rewrite ?sum_list_with_cons in Hl; lia.
Qed.

Lemma queue_measure_cons alo ahi blo bhi queue :
  queue_measure ((alo, ahi, blo, bhi) :: queue)
  = 2 * (ahi - alo) + 1 + queue_measure queue.
Proof. reflexivity. Qed.

(** The loop of [get_matching_blocks] ends before its fuel does. *)
Lemma blocks_loop_terminates fuel queue acc :
  queue_measure queue < fuel →
  is_Some (Difflib.blocks_loop a b b2j fuel queue acc).
Proof.
  revert queue acc. induction fuel as [|fuel IH]; intros queue acc Hf; simpl; [lia|].
  destruct queue as [|[[[alo ahi] blo] bhi] queue]; [done|].
  assert (Hok := find_longest_match_ok a b b2j Hb2j alo ahi blo bhi).
  destruct (Difflib.find_longest_match a b b2j alo ahi blo bhi) as [[i j] k].
  destruct Hok as (Hi & Hj & Hk & Hm).
  rewrite queue_measure_cons in Hf.
  destruct (Nat.eqb_spec k 0) as [->|Hk0]; [apply IH; lia|].
  apply IH.
  destruct Hk as [Hka Hkb]; [lia|].
  destruct (alo <? i); destruct (blo <? j); destruct (i + k <? ahi);
    destruct (j + k <? bhi); simpl andb; cbv iota;
    rewrite ?queue_measure_cons; lia.
Qed.

Lemma foldl_collapse_step_sum blocks i1 j1 k1 acc :
  let '((i, j, k), acc') := foldl Difflib.collapse_step ((i1, j1, k1), acc) blocks in
  sum_list_with Difflib.size acc' + k
  = sum_list_with Difflib.size acc + k1 + sum_list_with Difflib.size blocks.
Proof.
  revert i1 j1 k1 acc.
  induction blocks as [|[[i2 j2] k2] blocks IH]; intros i1 j1 k1 acc.
  { simpl. lia. }
  rewrite sum_list_with_cons.
  change (Difflib.size (i2, j2, k2)) with k2.
  change (foldl Difflib.collapse_step (i1, j1, k1, acc) ((i2, j2, k2) :: blocks))
    with (foldl Difflib.collapse_step
            (Difflib.collapse_step (i1, j1, k1, acc) (i2, j2, k2)) blocks).
  unfold Difflib.collapse_step at 2.
  destruct ((i1 + k1 =? i2) && (j1 + k1 =? j2)).
  - specialize (IH i1 j1 (k1 + k2) acc).
    destruct (foldl _ _ _) as [[[i j] k] acc']. lia.
  - destruct (Nat.eqb_spec k1 0) as [->|Hk].
    + specialize (IH i2 j2 k2 acc).
      destruct (foldl _ _ _) as [[[i j] k] acc']. lia.
    + specialize (IH i2 j2 k2 (acc ++ [(i1, j1, k1)])).
      destruct (foldl _ _ _) as [[[i j] k] acc'].
      rewrite sum_list_with_app in IH.
      change (sum_list_with Difflib.size [(i1, j1, k1)]) with (k1 + 0) in IH. lia.
Qed.

Lemma collapse_sum la lb blocks :
  sum_list_with Difflib.size (Difflib.collapse la lb blocks)
  = sum_list_with Difflib.size blocks.
Proof.
  unfold Difflib.collapse.
  assert (Hfold := foldl_collapse_step_sum blocks 0 0 0 []).
  destruct (foldl _ _ _) as [[[i1 j1] k1] acc].
  change (sum_list_with Difflib.size []) with 0 in Hfold.
  rewrite sum_list_with_app.
  change (sum_list_with Difflib.size [(la, lb, 0)]) with (0 + 0).
  destruct (Nat.eqb_spec k1 0) as [->|Hk]; [lia|].
  rewrite sum_list_with_app.
  change (sum_list_with Difflib.size [(i1, j1, k1)]) with (k1 + 0). lia.
Qed.

(** The matching blocks pair at most the common elements. *)
Lemma matches_le_common :
  sum_list_with Difflib.size (Difflib.get_matching_blocks a b b2j) ≤ common a b.
Proof.
  unfold Difflib.get_matching_blocks.
  destruct (Difflib.blocks_loop _ _ _ _ _ _) as [blocks|] eqn:E; [|simpl; lia].
  rewrite collapse_sum, merge_sort_Permutation.
  apply blocks_loop_sum in E. simpl in E.
  by rewrite segment_all, segment_all, Nat.add_0_r in E.
Qed.

End matching_blocks_facts.

Section termination.
Context `{Countable A}.

(** The loop of [get_matching_blocks] empties its queue within the fuel
    that the model gives it. *)
Lemma get_matching_blocks_terminates (a b : list A) :
  is_Some (Difflib.blocks_loop a b (Difflib.chain_b b) (2 * length a + 2)
             [(0, length a, 0, length b)] []).
Proof.
  apply blocks_loop_terminates; [apply chain_b_sound|].
  rewrite queue_measure_cons. change (queue_measure []) with 0. lia.
Qed.

End termination.

Section quick_ratio_facts.
Context `{Countable A}.
Implicit Types (a b : list A) (Y : gmultiset A).

Lemma count_elements_lookup b c :
  default 0 (Difflib.count_elements b !! c) = multiplicity c (list_to_set_disj b).
Proof.
  unfold Difflib.count_elements.
  assert (Hgen : ∀ m : gmap A nat,
    default 0 (foldl (λ fullbcount elt,
                        <[elt := default 0 (fullbcount !! elt) + 1]> fullbcount) m b
               !! c)
    = default 0 (m !! c) + multiplicity c (list_to_set_disj b)).
  { induction b as [|elt b IH]; intros m; simpl.
    - rewrite multiplicity_empty. lia.
    - rewrite IH, multiplicity_disj_union, multiplicity_singleton, lookup_insert.
      repeat case_decide; simplify_eq; simpl; lia. }
  rewrite Hgen, lookup_empty. done.
Qed.

Lemma intersection_cons_elem_of (x : A) (X Y : gmultiset A) :
  x ∈ Y → ({[+ x +]} ⊎ X) ∩ Y = {[+ x +]} ⊎ (X ∩ (Y ∖ {[+ x +]})).
Proof.
  intros Hin. assert (0 < multiplicity x Y) by (by apply elem_of_multiplicity).
  apply gmultiset_eq. intros c.
  rewrite multiplicity_intersection, !multiplicity_disj_union,
    multiplicity_intersection, multiplicity_difference, !multiplicity_singleton.
  case_decide; subst; lia.
Qed.

Lemma intersection_cons_not_elem_of (x : A) (X Y : gmultiset A) :
  x ∉ Y → ({[+ x +]} ⊎ X) ∩ Y = X ∩ Y.
Proof.
  intros Hout. assert (¬ 0 < multiplicity x Y) by (by rewrite <- elem_of_multiplicity).
  apply gmultiset_eq. intros c.
  rewrite !multiplicity_intersection, multiplicity_disj_union,
    multiplicity_singleton.
  case_decide; subst; lia.
Qed.

Lemma quick_fold fullbcount a avail matches Y :
  (∀ c, Z.max 0 (available fullbcount avail c) = Z.of_nat (multiplicity c Y)) →
  (foldl (Difflib.quick_step fullbcount) (avail, matches) a).2
  = matches + size (list_to_set_disj a ∩ Y).
Proof.
  revert avail matches Y.
  induction a as [|elt a IH]; intros avail matches Y Hinv.
  { rewrite list_to_set_disj_nil.
    replace (∅ ∩ Y) with (∅ : gmultiset A) by multiset_solver.
    rewrite gmultiset_size_empty. simpl. lia. }
  change (foldl (Difflib.quick_step fullbcount) (avail, matches) (elt :: a))
    with (foldl (Difflib.quick_step fullbcount)
            (Difflib.quick_step fullbcount (avail, matches) elt) a).
  unfold Difflib.quick_step at 2. fold (available fullbcount avail elt).
  assert (Helt := Hinv elt).
  destruct (Z.ltb_spec 0 (available fullbcount avail elt)) as [Hpos|Hneg].
  - rewrite (IH _ _ (Y ∖ {[+ elt +]})).
    + assert (Hin : elt ∈ Y) by (apply elem_of_multiplicity; lia).
      rewrite list_to_set_disj_cons, intersection_cons_elem_of by done.
      rewrite gmultiset_size_disj_union, gmultiset_size_singleton. lia.
    + intros c. unfold available. rewrite lookup_insert.
      rewrite multiplicity_difference, multiplicity_singleton.
      specialize (Hinv c). unfold available in Hinv, Hpos.
      repeat case_decide; simplify_eq; lia.
  - rewrite (IH _ _ Y).
    + assert (Hout : elt ∉ Y) by (rewrite elem_of_multiplicity; lia).
      by rewrite list_to_set_disj_cons, intersection_cons_not_elem_of.
    + intros c. unfold available. rewrite lookup_insert.
      specialize (Hinv c). unfold available in Hinv, Hneg.
      case_decide; simplify_eq; lia.
Qed.

(** [quick_ratio] counts the elements that the two sequences have in
    common. *)
Lemma quick_matches_common a b : Difflib.quick_matches a b = common a b.
Proof.
  unfold Difflib.quick_matches, common.
  rewrite (quick_fold _ _ _ _ (list_to_set_disj b)); [done|].
  intros c. unfold available. rewrite lookup_empty, count_elements_lookup. lia.
Qed.

End quick_ratio_facts.

Section ratio_facts.
Context `{Countable A}.
Implicit Types (a b : list A).

Lemma calculate_ratio_mono m1 m2 t :
  m1 ≤ m2 → (Difflib.calculate_ratio m1 t <= Difflib.calculate_ratio m2 t)%Q.
Proof.
  intros Hm. unfold Difflib.calculate_ratio. destruct t; [apply Qle_refl|].
  unfold Qle. simpl Qnum. simpl Qden.
  apply Z.mul_le_mono_nonneg_r; lia.
Qed.

(** The two quick ratios are upper bounds of the ratio. *)
Lemma ratio_le_quick_ratio a b :
  (Difflib.ratio a b (Difflib.chain_b b) <= Difflib.quick_ratio a b)%Q.
Proof.
  apply calculate_ratio_mono. rewrite quick_matches_common.
  apply matches_le_common, chain_b_sound.
Qed.

Lemma quick_ratio_le_real_quick_ratio a b :
  (Difflib.quick_ratio a b <= Difflib.real_quick_ratio a b)%Q.
Proof.
  apply calculate_ratio_mono. rewrite quick_matches_common.
  apply Nat.min_glb; [apply common_le_l|apply common_le_r].
Qed.

(** The three tests of [get_close_matches] amount to the last one. *)
Lemma cutoff_tests cutoff a b :
  Qle_bool cutoff (Difflib.real_quick_ratio a b)
  && Qle_bool cutoff (Difflib.quick_ratio a b)
  && Qle_bool cutoff (Difflib.ratio a b (Difflib.chain_b b))
  = Qle_bool cutoff (Difflib.ratio a b (Difflib.chain_b b)).
Proof.
  destruct (Qle_bool cutoff (Difflib.ratio a b (Difflib.chain_b b))) eqn:Hr;
    [|by rewrite andb_false_r].
  apply Qle_bool_iff in Hr.
  assert (Hq : (cutoff <= Difflib.quick_ratio a b)%Q)
    by (eapply Qle_trans; [done|apply ratio_le_quick_ratio]).
  assert (Hrq : (cutoff <= Difflib.real_quick_ratio a b)%Q)
    by (eapply Qle_trans; [done|apply quick_ratio_le_real_quick_ratio]).
  apply Qle_bool_iff in Hq, Hrq. by rewrite Hq, Hrq.
Qed.

End ratio_facts.

Section get_close_matches_facts.
Implicit Types (x y z : Difflib.Scored) (s t u : str).

Lemma str_compare_refl s : Str.compare s s = Eq.
Proof. induction s as [|a s IH]; simpl; [done|]. by rewrite N.compare_refl. Qed.

Lemma str_compare_antisym s t : Str.compare s t = CompOpp (Str.compare t s).
Proof.
  revert t. induction s as [|a s IH]; intros [|b t]; simpl; try done.
  rewrite (N.compare_antisym b a). destruct (b ?= a)%N; simpl; auto.
Qed.

Lemma str_le_trans s t u : Str.le s t → Str.le t u → Str.le s u.
Proof.
  unfold Str.le. revert t u.
  induction s as [|a s IH]; intros [|b t] [|c u]; simpl; try done.
  destruct (N.compare_spec a b) as [->|Hab|Hab]; [| |done].
  - destruct (b ?= c)%N; [apply IH|done..].
  - intros _. destruct (N.compare_spec b c) as [->|Hbc|Hbc]; [| |done]; intros _.
    + by rewrite (proj2 (N.compare_lt_iff _ _) Hab).
    + by rewrite (proj2 (N.compare_lt_iff a c)) by lia.
Qed.

Lemma scored_gt_true x y : Difflib.scored_gt x y = true → scored_le y x.
Proof.
  unfold Difflib.scored_gt, scored_le.
  destruct (x.1 ?= y.1)%Q eqn:Ec; [|done|].
  - destruct (Str.compare x.2 y.2) eqn:Es; [done..|]. intros _. right. split.
    + symmetry. by apply Qeq_alt.
    + unfold Str.le. by rewrite str_compare_antisym, Es.
  - intros _. left. by apply Qgt_alt.
Qed.

Lemma scored_gt_false x y : Difflib.scored_gt x y = false → scored_le x y.
Proof.
  unfold Difflib.scored_gt, scored_le.
  destruct (x.1 ?= y.1)%Q eqn:Ec; [| |done].
  - intros Hs. right. split; [by apply Qeq_alt|].
    unfold Str.le. by destruct (Str.compare x.2 y.2).
  - intros _. left. by apply Qlt_alt.
Qed.

Lemma scored_le_trans x y z : scored_le x y → scored_le y z → scored_le x z.
Proof.
  unfold scored_le. intros [Hxy|[Hxy Hs]] [Hyz|[Hyz Hs']].
  - left. by eapply Qlt_trans.
  - left. by rewrite <- Hyz.
  - left. by rewrite Hxy.
  - right. split; [by rewrite Hxy|by eapply str_le_trans].
Qed.

Lemma scored_le_refl x : scored_le x x.
Proof. right. split; [apply Qeq_refl|]. unfold Str.le. by rewrite str_compare_refl. Qed.

(** [nlargest1] returns a greatest pair of a list that has one. *)
Lemma nlargest1_spec (result : list Difflib.Scored) :
  match Difflib.nlargest1 result with
  | [] => result = []
  | [best] => best ∈ result ∧ ∀ x, x ∈ result → scored_le x best
  | _ => False
  end.
Proof.
  destruct result as [|first rest]; simpl; [done|].
  assert (Hgen : ∀ seen best,
    best ∈ seen → (∀ x, x ∈ seen → scored_le x best) →
    let best' := foldl (λ best item, if Difflib.scored_gt item best then item else best)
                       best rest in
    best' ∈ seen ++ rest ∧ ∀ x, x ∈ seen ++ rest → scored_le x best').
  { induction rest as [|item rest IH]; intros seen best Hin Hmax; simpl.
    - by rewrite app_nil_r.
    - replace (seen ++ item :: rest) with ((seen ++ [item]) ++ rest)
        by (by rewrite <- app_assoc).
      destruct (Difflib.scored_gt item best) eqn:Hgt; apply IH.
      + rewrite elem_of_app, list_elem_of_singleton. by right.
      + intros x [Hx| ->%list_elem_of_singleton]%elem_of_app.
        * eapply scored_le_trans; [by apply Hmax|by apply scored_gt_true].
        * apply scored_le_refl.
      + rewrite elem_of_app. by left.
      + intros x [Hx| ->%list_elem_of_singleton]%elem_of_app.
        * by apply Hmax.
        * by apply scored_gt_false. }
  apply (Hgen [first] first).
  - by apply list_elem_of_singleton.
  - intros x ->%list_elem_of_singleton. apply scored_le_refl.
Qed.

(** [get_close_matches] with [n=1] returns nothing when no possibility
    reaches the cutoff, and otherwise one possibility that does and
    whose pair [(score, x)] is the greatest. *)
Lemma get_close_matches_spec word possibilities cutoff :
  match Difflib.get_close_matches word possibilities cutoff with
  | [] => ∀ x : str, x ∈ possibilities → ¬ (cutoff <= similarity x word)%Q
  | [key] =>
      key ∈ possibilities ∧ (cutoff <= similarity key word)%Q
      ∧ ∀ x : str, x ∈ possibilities → (cutoff <= similarity x word)%Q →
             scored_le (similarity x word, x) (similarity key word, key)
  | _ => False
  end.
Proof.
  unfold Difflib.get_close_matches.
  set (f := λ x : str, _).
  assert (Hf : ∀ (x : str) y, f x = Some y
                      ↔ (cutoff <= similarity x word)%Q ∧ y = (similarity x word, x)).
  { intros x y. unfold f. rewrite cutoff_tests. fold (similarity x word).
    destruct (Qle_bool cutoff (similarity x word)) eqn:E.
    - apply Qle_bool_iff in E. naive_solver.
    - split; [done|]. intros [E'%Qle_bool_iff _]. congruence. }
  assert (Hres : ∀ y, y ∈ omap f possibilities
    ↔ ∃ x : str, x ∈ possibilities ∧ (cutoff <= similarity x word)%Q
           ∧ y = (similarity x word, x)).
  { intros y. rewrite list_elem_of_omap. by setoid_rewrite Hf. }
  assert (Hmax := nlargest1_spec (omap f possibilities)).
  destruct (Difflib.nlargest1 (omap f possibilities)) as [|best [|??]]; simpl;
    [| |done].
  - intros x Hx Hc.
    assert (Hin : (similarity x word, x) ∈ omap f possibilities)
      by (apply Hres; eauto).
    rewrite Hmax in Hin. by apply elem_of_nil in Hin.
  - destruct Hmax as [Hin Hmax]. apply Hres in Hin as (key & Hk & Hc & ->).
    simpl. split; [done|]. split; [done|].
    intros x Hx Hcx. apply Hmax, Hres. eauto.
Qed.

End get_close_matches_facts.

(** ** The product matcher: the fuzzy pass *)

Section fuzzy_pass.
Implicit Types (self : LuxeloomChatbot) (items : list (str * ProductEntry)).

Lemma getitem_elem_of items key :
  key ∈ (fst <$> items) → ∃ product, getitem items key = Some product
                                     ∧ (key, product) ∈ items.
Proof.
  induction items as [|[key' product'] items IH]; simpl.
  - by intros ?%elem_of_nil.
  - destruct (bool_decide_reflect (key' = key)) as [->|Hne].
    + intros _. exists product'. split; [done|]. by left.
    + intros [?|Hin]%elem_of_cons; [done|].
      destruct (IH Hin) as (product & ? & ?). exists product. split; [done|]. by right.
Qed.

(** C7, as the specification states it, fails on ties: ["toy berry"]
    contains no alias and is as close to ["snoopy tote"], the first
    alias of the catalog, as to ["strawberry miffi tote"], the third,
    and closer to them than to the other two; the entry of the third is
    returned, because [max] on the pairs [(score, alias)] lets the
    greater str win. *)
Lemma tie_not_in_catalog_order :
  let word := preprocess_text "toy berry" in
  direct_match (product_data init) word = None
  ∧ fst <$> product_data init
    = ["snoopy tote"; "sunny tote"; "strawberry miffi tote"; "miffy"]
  ∧ (similarity "snoopy tote" word == 4 # 10)%Q
  ∧ (similarity "strawberry miffi tote" word == 4 # 10)%Q
  ∧ (similarity "sunny tote" word < 4 # 10)%Q
  ∧ (similarity "miffy" word < 4 # 10)%Q
  ∧ find_product init "toy berry" = getitem (product_data init) "strawberry miffi tote"
  ∧ find_product init "toy berry" ≠ getitem (product_data init) "snoopy tote".
Proof.
  repeat split; try (vm_compute; reflexivity). vm_compute. discriminate.
Qed.

(** C7, amended: when no alias occurs in the normalised query,
    [find_product] returns [None], and no error, if every alias has a
    similarity ratio to the normalised query below 0.4; otherwise it
    returns the entry of an alias whose ratio is at least 0.4 and
    greatest, and which among the aliases of that ratio is the greatest
    in the order of strings. *)
Theorem fuzzy_pass_best_match self query :
  let word := preprocess_text query in
  let items := product_data self in
  direct_match items word = None →
  match find_product self query with
  | None => ∀ alias, alias ∈ (fst <$> items) → (similarity alias word < 4 # 10)%Q
  | Some product =>
      ∃ alias,
        (alias, product) ∈ items
        ∧ getitem items alias = Some product
        ∧ (4 # 10 <= similarity alias word)%Q
        ∧ ∀ alias', alias' ∈ (fst <$> items) →
            (4 # 10 <= similarity alias' word)%Q →
            (similarity alias' word < similarity alias word)%Q
            ∨ ((similarity alias' word == similarity alias word)%Q
               ∧ Str.le alias' alias)
  end.
Proof.
  intros word items Hd. unfold find_product. fold word items. rewrite Hd.
  unfold fuzzy_match.
  assert (Hspec := get_close_matches_spec word (fst <$> items) (4 # 10)).
  destruct (Difflib.get_close_matches word (fst <$> items) (4 # 10))
    as [|key [|??]]; [| |by destruct Hspec].
  - intros alias Hin. by apply Qnot_le_lt, Hspec.
  - destruct Hspec as (Hin & Hc & Hmax).
    destruct (getitem_elem_of items key Hin) as (product & Hg & Hp).
    rewrite Hg. exists key. split; [done|]. split; [done|]. split; [done|].
    intros alias' Hin' Hc'. exact (Hmax alias' Hin' Hc').
Qed.

Lemma fuzzy_pass_best_match_witness :
  ∃ product alias,
    find_product init "sunny tot" = Some product
    ∧ (alias, product) ∈ product_data init
    ∧ (4 # 10 <= similarity alias (preprocess_text "sunny tot"))%Q.
Proof.
  assert (Hd : direct_match (product_data init) (preprocess_text "sunny tot") = None)
    by (vm_compute; reflexivity).
  pose proof (fuzzy_pass_best_match init "sunny tot" Hd) as Hf.
  destruct (find_product init "sunny tot") as [product|] eqn:E.
  - destruct Hf as (alias & Hin & _ & Hc & _). exists product, alias.
    split; [reflexivity|]. split; [exact Hin|exact Hc].
  - vm_compute in E. discriminate.
Defined.

End fuzzy_pass.


(** ** More about the text normaliser *)

Section normalizer_more.
Implicit Types (s t k sp before after : str) (c x : N).

(** *** [lower()] and whitespace *)

Lemma skip_case_ignorable_app s t :
  Str.skip_case_ignorable (s ++ t)
  = match Str.skip_case_ignorable s with
    | Some c => Some c
    | None => Str.skip_case_ignorable t
    end.
Proof.
  induction s as [|c s IH]; simpl; [done|]. by destruct (Char.iscaseignorable c).
Qed.

(** Whitespace ends the search for a cased letter, and is none. *)
Lemma skip_case_ignorable_spaces sp :
  Str.Forall (λ c, Char.isspace c = true) sp →
  match Str.skip_case_ignorable sp with
  | Some c => Char.iscased c = false
  | None => True
  end.
Proof.
  destruct sp as [|c sp]; simpl; [done|]. intros [Hc _].
  apply isspace_ok in Hc as (_ & _ & _ & Hcased & ->). done.
Qed.

Lemma final_sigma_before_spaces before sp after :
  Str.Forall (λ c, Char.isspace c = true) sp →
  Str.final_sigma (before ++ sp) after = Str.final_sigma before after.
Proof.
  intros Hsp. unfold Str.final_sigma. rewrite skip_case_ignorable_app.
  destruct (Str.skip_case_ignorable before); [done|].
  assert (H := skip_case_ignorable_spaces sp Hsp).
  destruct (Str.skip_case_ignorable sp); [by rewrite H|done].
Qed.

Lemma final_sigma_after_spaces before after sp :
  Str.Forall (λ c, Char.isspace c = true) sp →
  Str.final_sigma before (after ++ sp) = Str.final_sigma before after.
Proof.
  intros Hsp. unfold Str.final_sigma. rewrite skip_case_ignorable_app.
  destruct (Str.skip_case_ignorable before); [|done]. f_equal.
  destruct (Str.skip_case_ignorable after); [done|].
  assert (H := skip_case_ignorable_spaces sp Hsp).
  destruct (Str.skip_case_ignorable sp); [by rewrite H|done].
Qed.

Lemma lower_ucs4_space before c after :
  Char.isspace c = true → Str.lower_ucs4 before c after = [c].
Proof.
  intros (Hne & E & _)%isspace_ok. unfold Str.lower_ucs4.
  by rewrite (proj2 (N.eqb_neq _ _) Hne).
Qed.

Lemma do_lower_spaces before sp :
  Str.Forall (λ c, Char.isspace c = true) sp → Str.do_lower before sp = sp.
Proof.
  revert before. induction sp as [|c sp IH]; intros before; simpl; [done|].
  intros [Hc Hsp]. by rewrite lower_ucs4_space, IH.
Qed.

Lemma do_lower_app_spaces before s sp :
  Str.Forall (λ c, Char.isspace c = true) sp →
  Str.do_lower before (s ++ sp) = Str.do_lower before s ++ sp.
Proof.
  intros Hsp. revert before.
  induction s as [|c s IH]; intros before; simpl; [by apply do_lower_spaces|].
  rewrite IH, <- app_assoc. f_equal. unfold Str.lower_ucs4.
  by rewrite final_sigma_after_spaces.
Qed.

Lemma do_lower_before_spaces before sp s :
  Str.Forall (λ c, Char.isspace c = true) sp →
  Str.do_lower (before ++ sp) s = Str.do_lower before s.
Proof.
  intros Hsp. revert before. induction s as [|c s IH]; intros before; simpl; [done|].
  specialize (IH (c :: before)). simpl in IH. rewrite IH. f_equal.
  unfold Str.lower_ucs4. by rewrite final_sigma_before_spaces.
Qed.

Lemma do_lower_spaces_app before sp s :
  Str.Forall (λ c, Char.isspace c = true) sp →
  Str.do_lower before (sp ++ s) = sp ++ Str.do_lower (reverse sp ++ before) s.
Proof.
  revert before. induction sp as [|c sp IH]; intros before; simpl; [done|].
  intros [Hc Hsp]. rewrite lower_ucs4_space, IH by done. simpl.
  by rewrite reverse_cons, <- app_assoc.
Qed.

Lemma str_Forall_reverse P s : Str.Forall P s → Str.Forall P (reverse s).
Proof.
  rewrite !str_Forall_Forall. intros H. by apply Forall_reverse.
Qed.

Lemma lower_spaces_app sp s :
  Str.Forall (λ c, Char.isspace c = true) sp →
  Str.lower (sp ++ s) = sp ++ Str.lower s.
Proof.
  intros Hsp. unfold Str.lower. rewrite do_lower_spaces_app by done.
  rewrite app_nil_r. f_equal.
  apply (do_lower_before_spaces [] (reverse sp)). by apply str_Forall_reverse.
Qed.

Lemma lower_ucs4_not_empty before c after : Str.lower_ucs4 before c after ≠ [].
Proof.
  destruct (Char.isspace c) eqn:Hc.
  - by rewrite lower_ucs4_space.
  - destruct (lower_ucs4_ok before c after) as (_ & Hs & _). by apply Hs.
Qed.

Lemma do_lower_empty before s : Str.do_lower before s = [] → s = [].
Proof.
  destruct s as [|c s]; simpl; [done|]. intros [E _]%app_eq_nil.
  by apply lower_ucs4_not_empty in E.
Qed.

Lemma lower_ucs4_isspace before c after x :
  Char.isspace c = false → x ∈ Str.lower_ucs4 before c after → Char.isspace x = false.
Proof.
  intros Hc. destruct (lower_ucs4_ok before c after) as (_ & Hs & _).
  destruct (Hs Hc) as [_ Hall]. by apply (proj1 (Forall_forall _ _) Hall).
Qed.

Lemma do_lower_head before s x :
  (∀ c, head s = Some c → Char.isspace c = false) →
  head (Str.do_lower before s) = Some x → Char.isspace x = false.
Proof.
  destruct s as [|c s]; simpl; [done|]. intros Hh.
  assert (Hne := lower_ucs4_not_empty before c s).
  assert (Hs := lower_ucs4_isspace before c s).
  destruct (Str.lower_ucs4 before c s) as [|y l]; [done|].
  intros [= ->]. apply Hs; [by apply Hh|by left].
Qed.

Lemma do_lower_last before s x :
  (∀ c, last s = Some c → Char.isspace c = false) →
  last (Str.do_lower before s) = Some x → Char.isspace x = false.
Proof.
  revert before. induction s as [|c s IH]; intros before; simpl; [done|].
  intros Hl. rewrite last_app.
  destruct (last (Str.do_lower (c :: before) s)) as [y|] eqn:Ey.
  - intros [= ->]. eapply IH; [|done]. intros c' Hc'. apply Hl.
    destruct s; [done|]. by rewrite last_cons_cons.
  - intros Hx%last_Some_elem_of.
    apply last_None, do_lower_empty in Ey. subst s.
    eapply lower_ucs4_isspace; [|done]. by apply Hl.
Qed.

Lemma lower_strip s : Str.lower (Str.strip s) = Str.strip (Str.lower s).
Proof.
  destruct (lstrip_split s) as (sp1 & E1 & Hsp1).
  destruct (rstrip_split (Str.lstrip s)) as (sp2 & E2 & Hsp2).
  fold (Str.strip s) in E2. rewrite E1 at 2. rewrite E2.
  rewrite lower_spaces_app by done. unfold Str.lower at 2.
  rewrite do_lower_app_spaces by done.
  rewrite strip_spaces_app, strip_app_spaces by done.
  symmetry. apply strip_edges.
  - intros x. apply do_lower_head. apply strip_head_nonspace.
  - intros x. apply do_lower_last. apply strip_last_nonspace.
Qed.

Lemma lower_lower_str s : Str.lower (Str.lower s) = Str.lower s.
Proof. apply str_lower_fixed, str_Forall_lower. Qed.

Lemma strip_normalized s : preprocess_text (Str.strip s) = preprocess_text s.
Proof. unfold preprocess_text. by rewrite lower_strip, strip_strip. Qed.

(** *** Lengths *)

Lemma length_filter keep s : length (Str.filter keep s) ≤ length s.
Proof.
  induction s as [|c s IH]; simpl; [done|]. destruct (keep c); simpl; lia.
Qed.

Lemma strip_split s :
  ∃ sp1 sp2, s = sp1 ++ Str.strip s ++ sp2.
Proof.
  destruct (lstrip_split s) as (sp1 & E1 & _).
  destruct (rstrip_split (Str.lstrip s)) as (sp2 & E2 & _).
  exists sp1, sp2. fold (Str.strip s) in E2. by rewrite <- E2.
Qed.

Lemma length_strip s : length (Str.strip s) ≤ length s.
Proof.
  destruct (strip_split s) as (sp1 & sp2 & E). rewrite E at 2.
  rewrite !length_app. lia.
Qed.

Lemma strip_full s : length (Str.strip s) = length s → Str.strip s = s.
Proof.
  destruct (strip_split s) as (sp1 & sp2 & E). intros El.
  rewrite E in El at 2. rewrite !length_app in El.
  destruct sp1; [|simpl in El; lia]. destruct sp2; [|simpl in El; lia].
  simpl in E. by rewrite app_nil_r in E.
Qed.

Lemma length_filter_strip s :
  length (Str.filter kept (Str.strip s)) ≤ length (Str.filter kept s).
Proof.
  destruct (strip_split s) as (sp1 & sp2 & E). rewrite E at 2.
  rewrite !str_filter_app, !length_app. lia.
Qed.

(** What is left of the lowercase form of a string after the deletion
    is not longer than the string: the one lowercase mapping of two
    characters ends with a dot that the pattern deletes. *)
Lemma length_filter_lower before s :
  length (Str.filter kept (Str.do_lower before s)) ≤ length s.
Proof.
  revert before. induction s as [|c s IH]; intros before; simpl; [done|].
  rewrite str_filter_app, length_app.
  destruct (lower_ucs4_ok before c s) as (_ & _ & _ & Hk).
  specialize (IH (c :: before)). lia.
Qed.

(** X1: whitespace around the input and the case of its letters do not
    count: stripping the input first, as the route [/api/chat] does, or
    lowercasing it first, changes nothing in the normalised form. *)
Theorem preprocess_text_strip s :
  preprocess_text (Str.strip s) = preprocess_text s
  ∧ preprocess_text (Str.lower s) = preprocess_text s.
Proof.
  split; [apply strip_normalized|].
  unfold preprocess_text. by rewrite lower_lower_str.
Qed.

(** X2: the normalised form is never longer than the input. *)
Theorem preprocess_text_length s : length (preprocess_text s) ≤ length s.
Proof.
  unfold preprocess_text, Str.re_sub_not_word_space. fold kept.
  etrans; [apply length_filter_strip|]. apply length_filter_lower.
Qed.

(** X3: the strings that [preprocess_text] leaves as they are are exactly
    those made of lowercase word characters and whitespace that have no
    whitespace at their ends. *)
Theorem preprocess_text_fixed_point s :
  preprocess_text s = s
  ↔ Str.Forall (λ c, kept c = true ∧ lowercase c) s ∧ trimmed s.
Proof.
  split.
  - intros E. assert (Hc := preprocess_text_chars s). rewrite E in Hc.
    split; [exact Hc|]. unfold trimmed.
    assert (El : Str.lower s = s).
    { apply str_lower_fixed. eapply str_Forall_impl; [|exact Hc]. by intros c [_ ?]. }
    apply strip_full. apply Nat.le_antisymm; [apply length_strip|].
    rewrite <- E at 1. unfold preprocess_text. rewrite El. apply length_filter.
  - intros [Hc Ht]. unfold preprocess_text, Str.re_sub_not_word_space.
    rewrite str_lower_fixed by (eapply str_Forall_impl; [|exact Hc]; by intros c [_ ?]).
    rewrite Ht. apply str_filter_all.
    eapply str_Forall_impl; [|exact Hc]. by intros c [? _].
Qed.

(** X4: a keyword with a character that the normaliser deletes or changes
    never occurs in a normalised query; so the listing keyword
    ["what's available"], with its apostrophe, never matches. *)
Theorem keyword_never_matches k s :
  ¬ Str.Forall (λ c, kept c = true ∧ lowercase c) k →
  Str.contains k (preprocess_text s) = false.
Proof.
  intros Hk. destruct (Str.contains k (preprocess_text s)) eqn:E; [|done].
  exfalso. apply Hk. apply contains_spec in E as (pre & post & E).
  assert (Hc := preprocess_text_chars s). rewrite E in Hc.
  apply str_Forall_app in Hc as [_ Hc]. by apply str_Forall_app in Hc as [Hc _].
Qed.

Lemma keyword_never_matches_witness :
  Str.contains "what's available" (preprocess_text "What's available?") = false.
Proof.
  apply keyword_never_matches. vm_compute.
  intros (_ & _ & _ & _ & [E _] & _). discriminate.
Defined.

End normalizer_more.


(** ** More about the product matcher and the classifier *)

Section chatbot_more.
Implicit Types (self : LuxeloomChatbot) (items : list (str * ProductEntry)).
Implicit Types (s k : str).

Lemma direct_match_none items q :
  Forall (λ item, Str.contains item.1 q = false) items → direct_match items q = None.
Proof.
  induction 1 as [|[key product] items Hk _ IH]; simpl; [done|].
  simpl in Hk. by rewrite Hk.
Qed.

Lemma fuzzy_match_none items word :
  fuzzy_match items word = None
  ↔ ∀ alias, alias ∈ (fst <$> items) → (similarity alias word < 4 # 10)%Q.
Proof.
  unfold fuzzy_match.
  assert (Hspec := get_close_matches_spec word (fst <$> items) (4 # 10)).
  destruct (Difflib.get_close_matches word (fst <$> items) (4 # 10))
    as [|key [|??]]; [| |by destruct Hspec].
  - split; [|done]. intros _ alias Hin. by apply Qnot_le_lt, Hspec.
  - destruct Hspec as (Hin & Hc & _).
    destruct (getitem_elem_of items key Hin) as (product & Hg & _).
    rewrite Hg. split; [done|]. intros Hall.
    destruct (Qlt_not_le _ _ (Hall key Hin) Hc).
Qed.

Lemma fuzzy_match_elem_of items word product :
  fuzzy_match items word = Some product → ∃ alias, (alias, product) ∈ items.
Proof.
  unfold fuzzy_match.
  assert (Hspec := get_close_matches_spec word (fst <$> items) (4 # 10)).
  destruct (Difflib.get_close_matches word (fst <$> items) (4 # 10))
    as [|key [|??]]; [done| |by destruct Hspec].
  destruct Hspec as (Hin & _ & _).
  destruct (getitem_elem_of items key Hin) as (product' & Hg & Hp).
  rewrite Hg. intros [= <-]. by exists key.
Qed.

Lemma find_product_elem_of self query product :
  find_product self query = Some product →
  ∃ alias, (alias, product) ∈ product_data self.
Proof.
  unfold find_product.
  assert (Hd := direct_match_first (product_data self) (preprocess_text query)).
  destruct (direct_match (product_data self) (preprocess_text query)) as [product'|].
  - destruct Hd as (l1 & key & l2 & E & _ & _). intros [= <-].
    exists key. rewrite E. apply elem_of_app. right. by left.
  - apply fuzzy_match_elem_of.
Qed.

Lemma find_product_none self query :
  find_product self query = None
  ↔ ∀ alias, alias ∈ (fst <$> product_data self) →
             Str.contains alias (preprocess_text query) = false
             ∧ (similarity alias (preprocess_text query) < 4 # 10)%Q.
Proof.
  unfold find_product.
  assert (Hd := direct_match_first (product_data self) (preprocess_text query)).
  destruct (direct_match (product_data self) (preprocess_text query)) as [product|].
  - destruct Hd as (l1 & key & l2 & E & Hk & _).
    split; [done|]. intros Hall. destruct (Hall key) as [Hc _].
    + rewrite E, fmap_app. apply elem_of_app. right. by left.
    + congruence.
  - rewrite fuzzy_match_none.
    split; intros Hall alias Hin; [|by apply Hall].
    split; [|by apply Hall].
    apply list_elem_of_fmap in Hin as ([key product] & -> & Hin).
    by apply (proj1 (Forall_forall _ _) Hd _ Hin).
Qed.

(** X5: [find_product] never returns anything but an entry of the
    catalog, and it returns [None] exactly when no alias occurs in the
    normalised query and every alias is less than 0.4 similar to it. *)
Theorem find_product_result self query :
  let word := preprocess_text query in
  (∀ product, find_product self query = Some product →
              ∃ alias, (alias, product) ∈ product_data self)
  ∧ (find_product self query = None
     ↔ ∀ alias, alias ∈ (fst <$> product_data self) →
                Str.contains alias word = false
                ∧ (similarity alias word < 4 # 10)%Q).
Proof.
  intros word. split; [apply find_product_elem_of|apply find_product_none].
Qed.

Lemma find_product_normalized self q1 q2 :
  preprocess_text q1 = preprocess_text q2 → find_product self q1 = find_product self q2.
Proof. unfold find_product. by intros ->. Qed.

Lemma handle_query_normalized self r q1 q2 :
  preprocess_text q1 = preprocess_text q2 →
  (handle_query self r q1).1 = (handle_query self r q2).1.
Proof.
  intros E. rewrite !handle_query_first_match.
  assert (Hf := find_product_normalized self q1 q2 E).
  unfold first_match, priority_order, List.find, rule_matches, rule_response.
  by rewrite E, Hf.
Qed.

(** X6: the response depends on the query only through its normalised
    form: two queries that differ in case, in deleted punctuation or in
    surrounding whitespace get the same response for the same draw, and
    the same result of [find_product]. *)
Theorem response_of_normalized_query self r q1 q2 :
  preprocess_text q1 = preprocess_text q2 →
  (handle_query self r q1).1 = (handle_query self r q2).1
  ∧ find_product self q1 = find_product self q2.
Proof.
  intros E. split; [by apply handle_query_normalized|by apply find_product_normalized].
Qed.

Lemma response_of_normalized_query_witness :
  (handle_query init 3 "  HELLO!!! ").1 = (handle_query init 3 "hello").1.
Proof. apply (response_of_normalized_query init 3). vm_compute. reflexivity. Defined.

Lemma similarity_blank x : x ≠ "" → (similarity x "" < 4 # 10)%Q.
Proof.
  intros Hx. unfold similarity, Difflib.ratio.
  assert (Hm := matches_le_common x [] (Difflib.chain_b []) (chain_b_sound [])).
  assert (Hc := common_le_r x []). simpl in Hc.
  replace (sum_list_with Difflib.size _) with 0 by (simpl in *; lia).
  destruct x as [|c x]; [done|]. simpl. done.
Qed.

(** X7: a query that is normalised to the empty str (an empty one, or
    one of whitespace and deleted punctuation only) matches no product
    and gets a fallback template, whatever the catalog, as long as no
    alias is empty. *)
Theorem blank_query_fallback self r query :
  (∀ alias, alias ∈ (fst <$> product_data self) → alias ≠ "") →
  preprocess_text query = "" →
  find_product self query = None
  ∧ (handle_query self r query).1 = Py.choice r (fallback (responses self)).
Proof.
  intros Hne E.
  assert (Hf : find_product self query = None).
  { apply find_product_none. intros alias Hin. rewrite E. split.
    - specialize (Hne alias Hin). by destruct alias.
    - by apply similarity_blank, Hne. }
  split; [exact Hf|]. rewrite handle_query_first_match.
  unfold first_match, priority_order, List.find, rule_matches, rule_response.
  rewrite E, Hf. reflexivity.
Qed.

Lemma blank_query_fallback_witness :
  (handle_query init 1 " ?!... ").1
  = "I'm here to help with Luxeloom! Ask me about our products, our mission, care instructions, or ordering! ✨".
Proof.
  assert (Hne : ∀ alias, alias ∈ (fst <$> product_data init) → alias ≠ "").
  { intros alias Hin. simpl in Hin. rewrite !elem_of_cons, elem_of_nil in Hin.
    destruct Hin as [->|[->|[->|[->|[]]]]]; discriminate. }
  assert (E : preprocess_text " ?!... " = "") by (vm_compute; reflexivity).
  rewrite (proj2 (blank_query_fallback init 1 " ?!... " Hne E)).
  vm_compute. reflexivity.
Defined.

End chatbot_more.


(** ** More about the responses, the log and the routes *)

Section routes_more.
Implicit Types (self chatbot : LuxeloomChatbot) (s k : str).

Lemma contains_append_r k s t :
  Str.contains k t = true → Str.contains k (s ++ t) = true.
Proof.
  rewrite !contains_spec. intros (pre & post & ->).
  exists (s ++ pre), post. by rewrite <- app_assoc.
Qed.

Lemma first_match_matches self query intent :
  first_match self query = intent → intent ≠ Fallback →
  rule_matches self query intent = true.
Proof.
  unfold first_match. intros E Hne.
  destruct (List.find (rule_matches self query) priority_order) as [i|] eqn:Ef;
    simpl in E; [|congruence].
  subst i. by apply List.find_some in Ef as [_ ?].
Qed.

(** X9: the responses of the ordering rule and of the product rule carry
    the WhatsApp number, with the catalog and the templates of
    [__init__]. *)
Theorem order_and_product_responses_have_contact self r query :
  product_data self = product_data init →
  responses self = responses init →
  first_match self query = Ordering ∨ first_match self query = Product →
  Str.contains "+92 307 4674619" (handle_query self r query).1 = true.
Proof.
  intros Hp Hr Hm. rewrite handle_query_first_match.
  assert (Hcat : ∀ product, find_product self query = Some product →
                   Str.contains "+92 307 4674619" (order_card product) = true).
  { intros product Hf.
    apply find_product_elem_of in Hf as (alias & Hin). rewrite Hp in Hin.
    simpl in Hin. rewrite !elem_of_cons, elem_of_nil in Hin.
    destruct Hin as [E|[E|[E|[E|[]]]]]; injection E as -> ->;
      vm_compute; reflexivity. }
  destruct Hm as [Hm|Hm]; rewrite Hm; unfold rule_response.
  - destruct (find_product self query) as [product|]; [by apply Hcat|].
    rewrite Hr.
    assert (Hin : Py.choice r (ordering (responses init)) ∈ ordering (responses init))
      by (by apply choice_elem_of).
    remember (Py.choice r (ordering (responses init))) as template.
    simpl in Hin. rewrite !elem_of_cons, elem_of_nil in Hin.
    destruct Hin as [->|[->|[]]]; vm_compute; reflexivity.
  - apply first_match_matches in Hm; [|done]. unfold rule_matches in Hm.
    destruct (find_product self query) as [product|]; [|done].
    change (from_option product_card "" (Some product)) with (product_card product).
    unfold product_card. do 15 apply contains_append_r. vm_compute. reflexivity.
Qed.

Lemma order_and_product_responses_have_contact_witness :
  Str.contains "+92 307 4674619" (handle_query init 0 "how do I buy one?").1 = true.
Proof.
  apply order_and_product_responses_have_contact; [reflexivity..|].
  left. vm_compute. reflexivity.
Defined.

Lemma append_not_empty s t : s ≠ "" → s ++ t ≠ "".
Proof. by destruct s. Qed.

Lemma choice_not_empty r (seq : list str) :
  seq ≠ [] → Forall (λ template, template ≠ "") seq → Py.choice r seq ≠ "".
Proof.
  intros Hne Hall. by apply (proj1 (Forall_forall _ _) Hall), choice_elem_of.
Qed.

(** X10: with the templates of [__init__] no response is empty, whatever the
    query and the catalog. *)
Theorem response_not_empty self r query :
  responses self = responses init → (handle_query self r query).1 ≠ "".
Proof.
  intros Hr. rewrite handle_query_first_match.
  destruct (first_match self query) eqn:Hm; unfold rule_response; rewrite ?Hr.
  - apply choice_not_empty; [done|]. repeat constructor; discriminate.
  - apply choice_not_empty; [done|]. repeat constructor; discriminate.
  - apply choice_not_empty; [done|]. repeat constructor; discriminate.
  - apply choice_not_empty; [done|]. repeat constructor. vm_compute. discriminate.
  - destruct (find_product self query); [by apply append_not_empty|].
    apply append_not_empty, choice_not_empty; [done|].
    repeat constructor; discriminate.
  - apply first_match_matches in Hm; [|done]. unfold rule_matches in Hm.
    destruct (find_product self query); [|done]. by apply append_not_empty.
  - vm_compute. discriminate.
  - apply choice_not_empty; [done|]. repeat constructor; discriminate.
Qed.

Lemma response_not_empty_witness : (handle_query init 7 "").1 ≠ "".
Proof. apply response_not_empty. reflexivity. Defined.

(** X8: a query in which an alias occurs, and no keyword of the greeting,
    thanks, mission and care rules, is answered with the card of the
    first such alias: the ordering card when it has an ordering keyword
    too, the product card when not. *)
Theorem named_product_gets_card self r query product :
  direct_match (product_data self) (preprocess_text query) = Some product →
  Forall (λ intent, rule_matches self query intent = false)
         [Greeting; Thanks; Mission; Care] →
  (handle_query self r query).1
  = if Str.any_in ordering_words (preprocess_text query)
    then order_card product else product_card product.
Proof.
  intros Hd Hrules.
  assert (Hf : find_product self query = Some product)
    by (unfold find_product; by rewrite Hd).
  rewrite handle_query_first_match.
  apply Forall_cons in Hrules as [H1 Hrules]. apply Forall_cons in Hrules as [H2 Hrules].
  apply Forall_cons in Hrules as [H3 Hrules]. apply Forall_cons in Hrules as [H4 _].
  unfold first_match, priority_order, List.find. rewrite H1, H2, H3, H4.
  change (rule_matches self query Ordering)
    with (Str.any_in ordering_words (preprocess_text query)).
  destruct (Str.any_in ordering_words (preprocess_text query)).
  - unfold rule_response. simpl default. by rewrite Hf.
  - unfold rule_matches at 1. rewrite Hf. unfold rule_response. simpl default.
    by rewrite Hf.
Qed.

Lemma named_product_gets_card_witness :
  ∃ product,
    getitem (product_data init) "snoopy tote" = Some product
    ∧ (handle_query init 0 "Do you sell the Snoopy tote?").1 = product_card product.
Proof.
  eexists. split; [reflexivity|].
  rewrite (named_product_gets_card init 0 "Do you sell the Snoopy tote?" _
             ltac:(vm_compute; reflexivity)).
  - vm_compute. reflexivity.
  - repeat constructor; vm_compute; reflexivity.
Defined.

(** X11: a call changes nothing but the log: the catalog, the templates and
    [max_history] are the same after any sequence of calls. *)
Theorem run_changes_log_only self calls :
  product_data (run self calls) = product_data self
  ∧ responses (run self calls) = responses self
  ∧ max_history (run self calls) = max_history self.
Proof.
  induction calls as [|call calls IH] using rev_ind; [done|].
  by rewrite run_snoc, handle_query_state.
Qed.

(** X12: the cap needs a positive [max_history]: with [max_history = 0] the
    slice [[-0:]] is the whole list, so nothing is ever dropped, and
    with a negative one the first [-2 * max_history] entries are dropped
    at every call. *)
Theorem log_without_positive_cap self r query :
  let log := conversation_history self ++ [user_message query] in
  (max_history self = 0%Z →
   conversation_history (handle_query self r query).2 = log)
  ∧ ((max_history self < 0)%Z →
     conversation_history (handle_query self r query).2
     = drop (Z.to_nat (- 2 * max_history self)) log).
Proof.
  intros log. rewrite handle_query_state. unfold add_to_history. simpl.
  fold (user_message query). fold log.
  assert (Hlen : 0 < length log) by (unfold log; rewrite length_app; simpl; lia).
  split; intros Hm.
  - rewrite Hm. unfold Py.slice_from.
    change (0 * 2)%Z with 0%Z. change (- 0 * 2)%Z with 0%Z.
    destruct (Z.ltb_spec 0 (Z.of_nat (length log))); [|lia].
    simpl. by rewrite Z.min_l by lia.
  - destruct (Z.ltb_spec (max_history self * 2) (Z.of_nat (length log))); [|lia].
    unfold Py.slice_from.
    destruct (Z.ltb_spec (- max_history self * 2) 0); [lia|].
    destruct (Z.le_ge_cases (- max_history self * 2) (Z.of_nat (length log))).
    + rewrite Z.min_l by done. f_equal. lia.
    + rewrite Z.min_r by done. rewrite Nat2Z.id.
      rewrite !drop_ge; [done|lia|lia].
Qed.

Lemma log_without_positive_cap_witness :
  conversation_history
    (handle_query {| product_data := product_data init;
                     conversation_history := [user_message "a"];
                     max_history := 0;
                     responses := responses init |} 0 "b").2
  = [user_message "a"; user_message "b"].
Proof.
  exact (proj1 (log_without_positive_cap
                  {| product_data := product_data init;
                     conversation_history := [user_message "a"];
                     max_history := 0;
                     responses := responses init |} 0 "b") eq_refl).
Defined.

Lemma first_by_name_complete (seen : gset str) (l : list ProductEntry) q :
  q ∈ l → name q ∈ seen ∨ ∃ p, p ∈ first_by_name seen l ∧ name p = name q.
Proof.
  revert seen. induction l as [|p l IH]; intros seen; [by intros ?%elem_of_nil|].
  intros [->|Hq]%elem_of_cons; simpl.
  - destruct (decide (name p ∈ seen)); [by left|]. right. exists p. split; [by left|done].
  - destruct (decide (name p ∈ seen)).
    + by apply IH.
    + destruct (IH ({[name p]} ∪ seen) Hq) as [Hs|(p' & Hp' & E)].
      * apply elem_of_union in Hs as [Hs%elem_of_singleton|Hs]; [|by left].
        right. exists p. split; [by left|done].
      * right. exists p'. split; [by right|done].
Qed.

(** X13: the product list leaves no product out: every name of the catalog
    is the name of a listed product, and the list is not longer than
    the catalog. *)
Theorem get_products_complete chatbot item :
  item ∈ product_data chatbot →
  (∃ p, p ∈ get_products chatbot ∧ name p = name item.2)
  ∧ length (get_products chatbot) ≤ length (product_data chatbot).
Proof.
  intros Hin. unfold get_products. rewrite foldl_unique_step, app_nil_l. split.
  - destruct (first_by_name_complete ∅ (snd <$> product_data chatbot) item.2)
      as [Hs|?]; [|by apply elem_of_empty in Hs|done].
    apply list_elem_of_fmap. by exists item.
  - rewrite <- (length_fmap snd (product_data chatbot)).
    apply sublist_length, first_by_name_sublist.
Qed.

Lemma get_products_complete_witness :
  ∃ p, p ∈ get_products init ∧ name p = "Strawberry Miffi Tote".
Proof.
  refine (proj1 (get_products_complete init
    ("miffy", {| name := "Strawberry Miffi Tote"; price := "PKR 2,125";
                 original_price := "PKR 2,500"; discount := "15% OFF";
                 description := "Watch how this strawberry miffy tote bag came together! love the outcome 🍓";
                 whatsapp := "+92 307 4674619" |}) _)).
  apply list_elem_of_In. simpl. tauto.
Defined.

Lemma strip_empty s : Str.strip s = "" ↔ Str.Forall (λ c, Char.isspace c = true) s.
Proof.
  rewrite <- lstrip_empty. unfold Str.strip. split; [|by intros ->].
  destruct (lstrip_head s) as [->|(c & t & -> & Hc)]; [done|].
  simpl. destruct (Str.rstrip t); [by rewrite Hc|done].
Qed.

(** X14: the route [/api/chat] answers 400 exactly when the message is
    absent or has nothing but whitespace, and then it leaves the
    chatbot, with its log, as it was; any other message is answered
    with 200. *)
Theorem chat_rejects_blank chatbot r message :
  let response := (chat chatbot r message).1 in
  (status_code response = 400
   ↔ Str.Forall (λ c, Char.isspace c = true) (default "" message))
  ∧ (status_code response = 400 →
     body response = [("error", "Message is required")]
     ∧ (chat chatbot r message).2 = chatbot)
  ∧ (status_code response = 400 ∨ status_code response = 200).
Proof.
  assert (Hs := strip_empty (default "" message)).
  unfold chat.
  destruct (bool_decide_reflect (Str.strip (default "" message) = "")) as [E|E].
  - simpl. tauto.
  - destruct (handle_query _ _ _) as [bot_response chatbot']. simpl.
    split; [split; [done|tauto]|]. split; [done|]. by right.
Qed.

Lemma chat_rejects_blank_witness :
  body (chat init 0 (Some "   ")).1 = [("error", "Message is required")]
  ∧ (chat init 0 (Some "   ")).2 = init.
Proof.
  destruct (chat_rejects_blank init 0 (Some "   ")) as (Hiff & Hb & _).
  apply Hb, Hiff. vm_compute. tauto.
Defined.

(** X15: a message that is not blank is answered with 200 and the response
    that [handle_query] gives for the message as it was sent, but the
    log gets the stripped message. *)
Theorem chat_answers chatbot r message :
  Str.strip message ≠ "" →
  chat chatbot r (Some message)
  = ({| status_code := 200;
        body := [("response", (handle_query chatbot r message).1);
                 ("status", "success")] |},
     add_to_history chatbot (Str.strip message)).
Proof.
  intros Hne. unfold chat. simpl default.
  destruct (bool_decide_reflect (Str.strip message = "")) as [E|_]; [done|].
  rewrite (surjective_pairing (handle_query chatbot r (Str.strip message))).
  rewrite handle_query_state.
  by rewrite (handle_query_normalized chatbot r (Str.strip message) message)
    by apply strip_normalized.
Qed.

Lemma chat_answers_witness :
  conversation_history (chat init 0 (Some "  hello  ")).2 = [user_message "hello"].
Proof.
  rewrite (chat_answers init 0 "  hello  "); [reflexivity|].
  vm_compute. discriminate.
Defined.

End routes_more.
